(** * ReedOut: the live-operations core

    A shallow embedding of the cron evaluator, the lifecycle scheduler,
    the telemetry collector, the console bridge and the schedule
    handlers of ReedOut, with the properties of their specification
    stated and proved (or refuted) on it, and further properties of the
    code.

    Conventions.
    - A Go [int] is a 64-bit two's-complement integer: a [Z] with the
      wrap-around written out ([Go.wrap_int]).  A [uint64] is a [Z] in
      [0, 2^64) with [Go.wrap_u64].
    - A Go [string] is a [string] of bytes.
    - A [(T, error)] result is an [outcome]; the third constructor,
      [OutOfFuel], stands for a loop that has not finished within the
      iteration budget of the model (the Go loops over [int] can wrap
      around and run on).
    - The SQLite store is a record of in-memory tables; a statement on it
      succeeds, except the insert of a schedule that breaks a key
      constraint.  The container runtime and the backup service are
      functions supplied by the environment. *)

From Stdlib Require Import ZArith Lia Bool List Ascii String.
From Stdlib Require Import Floats.SpecFloat.
From stdpp Require Import base option list strings gmap fin_maps pretty.
From Equations Require Import Equations.

Local Open Scope string_scope.
Local Open Scope list_scope.
Local Open Scope Z_scope.

(* ===================================================================== *)
(** * Part I: the model *)
(* ===================================================================== *)

(** ** Results of fallible, possibly unfinished computations *)

Inductive outcome (E A : Type) : Type :=
| Ok (a : A)
| Err (e : E)
| OutOfFuel.
Arguments Ok {E A} a.
Arguments Err {E A} e.
Arguments OutOfFuel {E A}.

Definition outcome_bind {E A B} (f : A -> outcome E B) (m : outcome E A)
  : outcome E B :=
  match m with
  | Ok a => f a
  | Err e => Err e
  | OutOfFuel => OutOfFuel
  end.

#[global] Instance outcome_mbind E : MBind (outcome E) := @outcome_bind E.
#[global] Instance outcome_mret E : MRet (outcome E) := @Ok E.

Definition is_ok {E A} (m : outcome E A) : bool :=
  match m with Ok _ => true | _ => false end.

Ltac unfold_outcome :=
  unfold mbind, mret, outcome_mbind, outcome_mret, outcome_bind in *.

(** ** The parts of Go's runtime and standard library the code uses *)

Module Go.

(** [int] on a 64-bit platform. *)
Definition int_min : Z := - 2 ^ 63.
Definition int_max : Z := 2 ^ 63 - 1.
Definition wrap_int (z : Z) : Z := (z + 2 ^ 63) mod 2 ^ 64 - 2 ^ 63.
Definition in_int (z : Z) : bool := (int_min <=? z) && (z <=? int_max).

(** [uint64], [uint32] and the conversion [int64(u)]. *)
Definition wrap_u64 (z : Z) : Z := z mod 2 ^ 64.
Definition int64_of_u64 (u : Z) : Z := wrap_int u.

(** ASCII helpers. *)
Definition code (c : ascii) : Z := Z.of_nat (nat_of_ascii c).

Definition digit_of (c : ascii) : option Z :=
  let n := code c in
  if (48 <=? n) && (n <=? 57) then Some (n - 48) else None.

Fixpoint digits_value (acc : Z) (s : string) : option Z :=
  match s with
  | EmptyString => Some acc
  | String c r =>
      match digit_of c with
      | Some d => digits_value (10 * acc + d) r
      | None => None
      end
  end.

(** [strconv.Atoi]: an optional sign, then one or more decimal digits,
    and the value must fit an [int]. *)
Definition Atoi (s : string) : option Z :=
  let '(neg, body) :=
    match s with
    | String a r =>
        if Ascii.eqb a "-" then (true, r)
        else if Ascii.eqb a "+" then (false, r)
        else (false, s)
    | EmptyString => (false, s)
    end in
  match body with
  | EmptyString => None
  | _ =>
      match digits_value 0 body with
      | Some n =>
          let v := if neg then - n else n in
          if in_int v then Some v else None
      | None => None
      end
  end.

(** [strings.HasPrefix] and [strings.Contains] (one-byte needle). *)
Fixpoint HasPrefix (s p : string) : bool :=
  match p, s with
  | EmptyString, _ => true
  | String b p', String a s' => Ascii.eqb a b && HasPrefix s' p'
  | String _ _, EmptyString => false
  end.

Fixpoint Contains (s : string) (c : ascii) : bool :=
  match s with
  | EmptyString => false
  | String a r => if Ascii.eqb a c then true else Contains r c
  end.

(** [s[n:]] *)
Fixpoint drop (n : nat) (s : string) : string :=
  match n, s with
  | O, _ => s
  | S k, String _ r => drop k r
  | S _, EmptyString => EmptyString
  end.

(** [strings.Split(s, sep)] for a one-byte separator: never empty. *)
Fixpoint Split (s : string) (sep : ascii) : list string :=
  match s with
  | EmptyString => [EmptyString]
  | String a r =>
      if Ascii.eqb a sep then EmptyString :: Split r sep
      else match Split r sep with
           | w :: ws => String a w :: ws
           | [] => [String a EmptyString]
           end
  end.

(** [strings.SplitN(s, sep, 2)] for a one-byte separator: the string is
    cut at the first separator, if there is one. *)
Fixpoint cut (s : string) (sep : ascii) : option (string * string) :=
  match s with
  | EmptyString => None
  | String a r =>
      if Ascii.eqb a sep then Some (EmptyString, r)
      else match cut r sep with
           | Some (x, y) => Some (String a x, y)
           | None => None
           end
  end.

Definition SplitN2 (s : string) (sep : ascii) : list string :=
  match cut s sep with
  | Some (x, y) => [x; y]
  | None => [s]
  end.

(** [strings.Fields] on ASCII text: the maximal runs of bytes that are
    not white space (tab, line feed, vertical tab, form feed, carriage
    return, space). *)
Definition is_space (c : ascii) : bool :=
  let n := code c in
  ((9 <=? n) && (n <=? 13)) || (n =? 32).

Fixpoint Fields (s : string) : list string :=
  match s with
  | EmptyString => []
  | String a r =>
      if is_space a then Fields r
      else match r with
           | EmptyString => [String a EmptyString]
           | String b _ =>
               if is_space b then String a EmptyString :: Fields r
               else match Fields r with
                    | w :: ws => String a w :: ws
                    | [] => [String a EmptyString]
                    end
           end
  end.

(** [time.Time]: an instant in seconds since the Unix epoch, together
    with the offset in seconds of its location at that instant.  The
    accessors are those of the proleptic Gregorian calendar. *)
Record Time : Type := mkTime { unix : Z; zone : Z }.

Definition wall (t : Time) : Z := unix t + zone t.
Definition day_number (t : Time) : Z := wall t / 86400.
Definition second_of_day (t : Time) : Z := wall t mod 86400.

Definition Hour (t : Time) : Z := second_of_day t / 3600.
Definition Minute (t : Time) : Z := second_of_day t mod 3600 / 60.
Definition Second (t : Time) : Z := second_of_day t mod 60.

(** Sunday is 0; the first of January 1970 was a Thursday. *)
Definition Weekday (t : Time) : Z := (day_number t + 4) mod 7.

(** Day of the 400-year era, counted from the first of March. *)
Definition day_of_era (t : Time) : Z := (day_number t + 719468) mod 146097.
Definition era (t : Time) : Z := (day_number t + 719468) / 146097.

Definition year_of_era (doe : Z) : Z :=
  (doe - doe / 1460 + doe / 36524 - doe / 146096) / 365.
Definition day_of_year (doe : Z) : Z :=
  let yoe := year_of_era doe in
  doe - (365 * yoe + yoe / 4 - yoe / 100).
Definition month_index (doe : Z) : Z := (5 * day_of_year doe + 2) / 153.

Definition day_of (doe : Z) : Z :=
  day_of_year doe - (153 * month_index doe + 2) / 5 + 1.
Definition month_of (doe : Z) : Z :=
  let mp := month_index doe in
  if mp <? 10 then mp + 3 else mp - 9.

Definition Day (t : Time) : Z := day_of (day_of_era t).
Definition Month (t : Time) : Z := month_of (day_of_era t).
Definition Year (t : Time) : Z :=
  let doe := day_of_era t in
  year_of_era doe + era t * 400 + (if month_of doe <=? 2 then 1 else 0).

Definition time_eqb (a b : Time) : bool :=
  (unix a =? unix b) && (zone a =? zone b).

End Go.

(** ** Cron evaluator (package scheduler: ParseCron, Matches) *)

Module Cron.

Import Go.

(** The errors of the parser, as the values [fmt.Errorf] builds;
    [InField] is the [%w] wrapping done by [ParseCron]. *)
Inductive error : Type :=
| FieldCount (n : nat)
| InvalidStep (s : string)
| InvalidRange (s : string)
| InvalidRangeStart (s : string)
| InvalidRangeEnd (s : string)
| InvalidValue (s : string)
| OutOfRange (v lo hi : Z)
| InField (field : string) (e : error).

Fixpoint Error (e : error) : string :=
  match e with
  | FieldCount n =>
      "cron expression must have 5 fields, got " +:+ pretty (Z.of_nat n)
  | InvalidStep s => "invalid step: " +:+ s
  | InvalidRange s => "invalid range: " +:+ s
  | InvalidRangeStart s => "invalid range start: " +:+ s
  | InvalidRangeEnd s => "invalid range end: " +:+ s
  | InvalidValue s => "invalid value: " +:+ s
  | OutOfRange v lo hi =>
      "value " +:+ pretty v +:+ " out of range " +:+ pretty lo +:+ "-"
      +:+ pretty hi
  | InField f e => f +:+ " field: " +:+ Error e
  end.

Record CronExpr : Type := mkCronExpr {
  Minutes : list Z;
  Hours : list Z;
  DaysOfMonth : list Z;
  Months : list Z;
  DaysOfWeek : list Z
}.

(** [for i := lo; i <= hi; i += step { vals = append(vals, i) }] on
    64-bit integers: [i += step] wraps around. *)
Fixpoint count_up (fuel : nat) (i hi step : Z) : outcome error (list Z) :=
  match fuel with
  | O => OutOfFuel
  | S fuel' =>
      if i <=? hi then
        vals ← count_up fuel' (wrap_int (i + step)) hi step;
        mret (i :: vals)
      else mret []
  end.

Definition parsePart (fuel : nat) (part : string) (min max : Z)
  : outcome error (list Z) :=
  if HasPrefix part "*/" then
    match Atoi (drop 2 part) with
    | Some step =>
        if step <=? 0 then Err (InvalidStep part)
        else count_up fuel min max step
    | None => Err (InvalidStep part)
    end
  else if String.eqb part "*" then
    count_up fuel min max 1
  else if Contains part "-" then
    let rangeParts := SplitN2 part "/" in
    let bounds := SplitN2 (List.hd EmptyString rangeParts) "-" in
    match bounds with
    | [b0; b1] =>
        match Atoi b0 with
        | None => Err (InvalidRangeStart b0)
        | Some lo =>
            match Atoi b1 with
            | None => Err (InvalidRangeEnd b1)
            | Some hi =>
                match rangeParts with
                | [_; s] =>
                    match Atoi s with
                    | Some step =>
                        if step <=? 0 then Err (InvalidStep s)
                        else count_up fuel lo hi step
                    | None => Err (InvalidStep s)
                    end
                | _ => count_up fuel lo hi 1
                end
            end
        end
    | _ => Err (InvalidRange part)
    end
  else
    match Atoi part with
    | None => Err (InvalidValue part)
    | Some val =>
        if (val <? min) || (val >? max) then Err (OutOfRange val min max)
        else mret [val]
    end.

Fixpoint parseParts (fuel : nat) (parts : list string) (min max : Z)
  (result : list Z) : outcome error (list Z) :=
  match parts with
  | [] => mret result
  | part :: rest =>
      vals ← parsePart fuel part min max;
      parseParts fuel rest min max (result ++ vals)
  end.

Definition parseField (fuel : nat) (field : string) (min max : Z)
  : outcome error (list Z) :=
  parseParts fuel (Split field ",") min max [].

Definition in_field (name : string) (m : outcome error (list Z))
  : outcome error (list Z) :=
  match m with
  | Err e => Err (InField name e)
  | _ => m
  end.

Definition ParseCron (fuel : nat) (expr : string)
  : outcome error CronExpr :=
  match Fields expr with
  | [f0; f1; f2; f3; f4] =>
      minutes ← in_field "minute" (parseField fuel f0 0 59);
      hours ← in_field "hour" (parseField fuel f1 0 23);
      doms ← in_field "day-of-month" (parseField fuel f2 1 31);
      months ← in_field "month" (parseField fuel f3 1 12);
      dows ← in_field "day-of-week" (parseField fuel f4 0 6);
      mret (mkCronExpr minutes hours doms months dows)
  | fields => Err (FieldCount (List.length fields))
  end.

Fixpoint contains (vals : list Z) (v : Z) : bool :=
  match vals with
  | [] => false
  | val :: rest => if val =? v then true else contains rest v
  end.

Definition Matches (c : CronExpr) (t : Time) : bool :=
  contains (Minutes c) (Minute t) &&
  contains (Hours c) (Hour t) &&
  contains (DaysOfMonth c) (Day t) &&
  contains (Months c) (Month t) &&
  contains (DaysOfWeek c) (Weekday t).

End Cron.

(** ** The store and the capabilities the core consumes *)

Module Store.

Import Go.

(** The columns of [servers], [schedules] and [stats] that the core
    reads or writes.  [container_id] is written by the CRUD layer as a
    string on every insert. *)
Record Server : Type := mkServer {
  srv_id : string;
  srv_container_id : string;
  srv_status : string;
  srv_updated_at : Time
}.

Record Schedule : Type := mkSchedule {
  sch_id : string;
  sch_server_id : string;
  sch_cron_expr : string;
  sch_action : string;
  sch_enabled : Z;
  sch_last_run : option Time
}.

Record StatsRow : Type := mkStatsRow {
  row_server_id : string;
  row_cpu_percent : spec_float;
  row_memory_bytes : Z;
  row_memory_limit : Z;
  row_disk_bytes : Z;
  row_network_rx : Z;
  row_network_tx : Z;
  row_recorded_at : Z
}.

Record DB : Type := mkDB {
  servers : list Server;
  schedules : list Schedule;
  stats : list StatsRow
}.

(** [UPDATE servers SET status = ?, updated_at = ? WHERE id = ?] *)
Definition set_server_status (status : string) (at_ : Time) (id : string)
  (db : DB) : DB :=
  mkDB
    (map (fun srv =>
            if String.eqb (srv_id srv) id
            then mkServer (srv_id srv) (srv_container_id srv) status at_
            else srv)
         (servers db))
    (schedules db) (stats db).

(** [UPDATE schedules SET last_run = ? WHERE id = ?] *)
Definition stamp (now : Time) (id : string) (s : Schedule) : Schedule :=
  if String.eqb (sch_id s) id
  then mkSchedule (sch_id s) (sch_server_id s) (sch_cron_expr s)
         (sch_action s) (sch_enabled s) (Some now)
  else s.

Definition set_last_run (now : Time) (id : string) (db : DB) : DB :=
  mkDB (servers db) (map (stamp now id) (schedules db)) (stats db).

(** [INSERT INTO stats (...) VALUES (...)]; [recorded_at] takes the
    store's current time. *)
Definition insert_stats (row : StatsRow) (db : DB) : DB :=
  mkDB (servers db) (schedules db) (stats db ++ [row]).

(** [DELETE FROM stats WHERE recorded_at < datetime('now', '-24 hours')] *)
Definition delete_old_stats (now : Z) (db : DB) : DB :=
  mkDB (servers db) (schedules db)
    (filter (fun row => now - 86400 <= row_recorded_at row) (stats db)).

End Store.

(** The container runtime, the backup service and the clock, as seen
    from the core: operations on an environment state [R].  A lifecycle
    call answers [None] for success and [Some e] for the error [e].
    [ContainerStatsOnce] stands for the request, the read of its body
    and the decoding of the JSON document: any of the three can fail. *)
Record dockerStatsJSON : Type := mkDockerStats {
  cpu_total_usage : Z;
  cpu_system_usage : Z;
  cpu_online_cpus : Z;
  precpu_total_usage : Z;
  precpu_system_usage : Z;
  memory_usage : Z;
  memory_limit : Z;
  networks : list (Z * Z)
}.

Class Runtime (R : Type) : Type := {
  Now : R -> Go.Time;
  StartContainer : string -> R -> option string * R;
  StopContainer : string -> R -> option string * R;
  RestartContainer : string -> R -> option string * R;
  BackupCreate : string -> R -> option string * R;
  ContainerStatsOnce : string -> R -> (string + dockerStatsJSON) * R
}.

(** ** Lifecycle scheduler (package scheduler: tick, execute) *)

Module Scheduler.

Import Go Store.

Inductive log_entry : Type :=
| LogInvalidCron (cronExpr scheduleID : string) (e : Cron.error)
| LogRunning (action serverID scheduleID : string)
| LogUnknownAction (action : string)
| LogFailed (action serverID err : string).

Record job : Type := mkJob {
  scheduleID : string;
  serverID : string;
  cronExpr : string;
  action : string;
  containerID : string
}.

(** [SELECT s.id, s.server_id, s.cron_expr, s.action, srv.container_id
     FROM schedules s JOIN servers srv ON s.server_id = srv.id
     WHERE s.enabled = 1] *)
Definition jobs_of (s : Schedule) (srvs : list Server) : list job :=
  if sch_enabled s =? 1 then
    map (fun srv => mkJob (sch_id s) (sch_server_id s) (sch_cron_expr s)
                      (sch_action s) (srv_container_id srv))
        (filter (fun srv => srv_id srv = sch_server_id s) srvs)
  else [].

Definition load_jobs (db : DB) : list job :=
  flat_map (fun s => jobs_of s (servers db)) (schedules db).

Section WithRuntime.

Context {R : Type} `{Runtime R}.

Record World : Type := mkWorld {
  db : DB;
  rt : R;
  log : list log_entry
}.

Definition logf (e : log_entry) (w : World) : World :=
  mkWorld (db w) (rt w) (log w ++ [e]).

(** One lifecycle call and, on success, the status it records. *)
Definition lifecycle (call : string -> R -> option string * R)
  (status : string) (serverID containerID : string) (w : World)
  : option string * World :=
  let '(err, rt') := call containerID (rt w) in
  match err with
  | None =>
      (err, mkWorld (set_server_status status (Now rt') serverID (db w))
              rt' (log w))
  | Some _ => (err, mkWorld (db w) rt' (log w))
  end.

Definition execute (action serverID containerID : string) (w : World)
  : World :=
  let finish (r : option string * World) : World :=
    match fst r with
    | Some e => logf (LogFailed action serverID e) (snd r)
    | None => snd r
    end in
  if String.eqb action "start" then
    finish (lifecycle StartContainer "running" serverID containerID w)
  else if String.eqb action "stop" then
    finish (lifecycle StopContainer "exited" serverID containerID w)
  else if String.eqb action "restart" then
    finish (lifecycle RestartContainer "running" serverID containerID w)
  else if String.eqb action "backup" then
    let '(err, rt') := BackupCreate serverID (rt w) in
    finish (err, mkWorld (db w) rt' (log w))
  else logf (LogUnknownAction action) w.

(** The body of the loop over the loaded jobs. *)
Definition run_job (fuel : nat) (now : Time) (j : job) (w : World)
  : option World :=
  match Cron.ParseCron fuel (cronExpr j) with
  | OutOfFuel => None
  | Err e => Some (logf (LogInvalidCron (cronExpr j) (scheduleID j) e) w)
  | Ok cron =>
      if negb (Cron.Matches cron now) then Some w
      else
        let w := logf (LogRunning (action j) (serverID j) (scheduleID j)) w in
        let w := execute (action j) (serverID j) (containerID j) w in
        Some (mkWorld (set_last_run now (scheduleID j) (db w))
                (rt w) (log w))
  end.

Fixpoint run_jobs (fuel : nat) (now : Time) (jobs : list job) (w : World)
  : option World :=
  match jobs with
  | [] => Some w
  | j :: rest =>
      match run_job fuel now j w with
      | Some w' => run_jobs fuel now rest w'
      | None => None
      end
  end.

Definition tick (fuel : nat) (w : World) : option World :=
  let now := Now (rt w) in
  let jobs := load_jobs (db w) in
  run_jobs fuel now jobs w.

End WithRuntime.

Arguments World R : clear implicits.

End Scheduler.

(** ** Telemetry collector (package stats) *)

Module Stats.

Import Go Store.

(** binary64 arithmetic, on the specification floats of the library. *)
Definition float64 : Type := spec_float.
Definition f64_prec : Z := 53.
Definition f64_emax : Z := 1024.
Definition f64_of_Z (z : Z) : float64 :=
  binary_normalize f64_prec f64_emax z 0 false.
Definition f64_mul : float64 -> float64 -> float64 := SFmul f64_prec f64_emax.
Definition f64_div : float64 -> float64 -> float64 := SFdiv f64_prec f64_emax.
Definition f64_leb : float64 -> float64 -> bool := SFleb.
Definition f64_eqb : float64 -> float64 -> bool := SFeqb.
Definition f64_zero : float64 := S754_zero false.

Record Stats : Type := mkStats {
  ID : Z;
  ServerID : string;
  CPUPercent : float64;
  MemoryBytes : Z;
  MemoryLimit : Z;
  DiskBytes : Z;
  NetworkRx : Z;
  NetworkTx : Z;
  RecordedAt : Time
}.

(** The counters are [uint64]: the subtraction wraps around before the
    conversion to [float64]. *)
Definition calculateCPUPercent (stats : dockerStatsJSON) : float64 :=
  let cpuDelta :=
    f64_of_Z (wrap_u64 (cpu_total_usage stats - precpu_total_usage stats)) in
  let systemDelta :=
    f64_of_Z (wrap_u64 (cpu_system_usage stats - precpu_system_usage stats)) in
  if f64_leb systemDelta f64_zero || f64_leb cpuDelta f64_zero then f64_zero
  else
    let cpus := f64_of_Z (cpu_online_cpus stats) in
    let cpus := if f64_eqb cpus f64_zero then f64_of_Z 1 else cpus in
    f64_mul (f64_mul (f64_div cpuDelta systemDelta) cpus) (f64_of_Z 100).

(** A buffered channel of samples. *)
Record Chan : Type := mkChan {
  cap : nat;
  buf : list Stats;
  closed : bool
}.

Inductive log_entry : Type :=
| LogFetch (serverID err : string)
| LogStarted.

Inductive recv_result : Type :=
| Received (v : Stats)
| RecvClosed
| RecvBlocks.

Section WithRuntime.

Context {R : Type} `{Runtime R}.

(** The collector with the part of the process it lives in: the store,
    the environment, the channels and cancellation contexts made so
    far (a channel or a context is named by its index), and the
    polling goroutines, each named by the context it watches.
    [requests] lists the container ids asked of the metrics
    capability. *)
Record World : Type := mkWorld {
  db : DB;
  rt : R;
  log : list log_entry;
  requests : list string;
  chans : list Chan;
  contexts : list bool;
  loops : list nat;
  latest : gmap string Stats;
  listeners : gmap string (list nat);
  cancel : option nat
}.

Definition set_env (d : DB) (r : R) (w : World) : World :=
  mkWorld d r (log w) (requests w) (chans w) (contexts w) (loops w)
    (latest w) (listeners w) (cancel w).
Definition logf (e : log_entry) (w : World) : World :=
  mkWorld (db w) (rt w) (log w ++ [e]) (requests w) (chans w)
    (contexts w) (loops w) (latest w) (listeners w) (cancel w).
Definition add_request (cid : string) (w : World) : World :=
  mkWorld (db w) (rt w) (log w) (requests w ++ [cid]) (chans w)
    (contexts w) (loops w) (latest w) (listeners w) (cancel w).
Definition set_chans (cs : list Chan) (w : World) : World :=
  mkWorld (db w) (rt w) (log w) (requests w) cs (contexts w) (loops w)
    (latest w) (listeners w) (cancel w).
Definition set_latest (m : gmap string Stats) (w : World) : World :=
  mkWorld (db w) (rt w) (log w) (requests w) (chans w) (contexts w)
    (loops w) m (listeners w) (cancel w).
Definition set_listeners (m : gmap string (list nat)) (w : World) : World :=
  mkWorld (db w) (rt w) (log w) (requests w) (chans w) (contexts w)
    (loops w) (latest w) m (cancel w).

(** [c.listeners[serverID]]: a missing key reads as the nil slice. *)
Definition listeners_of (serverID : string) (w : World) : list nat :=
  default [] (listeners w !! serverID).

(** *** Channel operations *)

(** [select { case ch <- v: default: }].  Sending on a closed channel
    panics; a nil channel is never ready. *)
Definition try_send (ch : nat) (v : Stats) (cs : list Chan)
  : outcome string (list Chan) :=
  match cs !! ch with
  | None => Ok cs
  | Some c =>
      if closed c then Err "send on closed channel"
      else if (length (buf c) <? cap c)%nat
           then Ok (<[ch := mkChan (cap c) (buf c ++ [v]) false]> cs)
           else Ok cs
  end.

(** [<-ch] *)
Definition recv (ch : nat) (w : World) : recv_result * World :=
  match chans w !! ch with
  | None => (RecvBlocks, w)
  | Some c =>
      match buf c with
      | v :: rest =>
          (Received v,
           set_chans (<[ch := mkChan (cap c) rest (closed c)]> (chans w)) w)
      | [] => (if closed c then RecvClosed else RecvBlocks, w)
      end
  end.

(** *** Start and Stop *)

Definition Start (w : World) : World :=
  let ctx := length (contexts w) in
  mkWorld (db w) (rt w) (log w ++ [LogStarted]) (requests w) (chans w)
    (contexts w ++ [false]) (loops w ++ [ctx])
    (latest w) (listeners w) (Some ctx).

Definition Stop (w : World) : World :=
  match cancel w with
  | Some ctx =>
      mkWorld (db w) (rt w) (log w) (requests w) (chans w)
        (<[ctx := true]> (contexts w)) (loops w)
        (latest w) (listeners w) (cancel w)
  | None => w
  end.

(** The polling loops that have not been told to stop. *)
Definition cancelled (ctx : nat) (w : World) : bool :=
  default false (contexts w !! ctx).
Definition polling (w : World) : list nat :=
  filter (fun ctx => cancelled ctx w = false) (loops w).

(** *** Subscriptions *)

Definition Latest (serverID : string) (w : World) : option Stats :=
  latest w !! serverID.

Definition Subscribe (serverID : string) (w : World) : nat * World :=
  let ch := length (chans w) in
  let w := set_chans (chans w ++ [mkChan 1 [] false]) w in
  (ch, set_listeners
         (<[serverID := listeners_of serverID w ++ [ch]]> (listeners w)) w).

Fixpoint index_of (ch : nat) (l : list nat) : option nat :=
  match l with
  | [] => None
  | x :: rest =>
      if (x =? ch)%nat then Some O else S <$> index_of ch rest
  end.

Definition Unsubscribe (serverID : string) (ch : nat) (w : World)
  : outcome string World :=
  let ls := listeners_of serverID w in
  match index_of ch ls with
  | None => Ok w
  | Some i =>
      let w := set_listeners (<[serverID := delete i ls]> (listeners w)) w in
      match chans w !! ch with
      | None => Err "close of nil channel"
      | Some c =>
          if closed c then Err "close of closed channel"
          else Ok (set_chans
                     (<[ch := mkChan (cap c) (buf c) true]> (chans w)) w)
      end
  end.

(** *** One tick *)

Definition fetchStats (serverID containerID : string) (r : R)
  : (string + Stats) * R :=
  let '(resp, r') := ContainerStatsOnce containerID r in
  match resp with
  | inl e => (inl e, r')
  | inr dockerStats =>
      let cpuPercent := calculateCPUPercent dockerStats in
      let memoryBytes := int64_of_u64 (memory_usage dockerStats) in
      let memoryLimit := int64_of_u64 (memory_limit dockerStats) in
      let '(networkRx, networkTx) :=
        fold_left
          (fun acc netStats =>
             (wrap_int (fst acc + int64_of_u64 (fst netStats)),
              wrap_int (snd acc + int64_of_u64 (snd netStats))))
          (networks dockerStats) (0, 0) in
      (inr (mkStats 0 serverID cpuPercent memoryBytes memoryLimit 0
              networkRx networkTx (mkTime (unix (Now r')) 0)), r')
  end.

(** [SELECT id, container_id FROM servers
     WHERE status = 'running' AND container_id != ''] *)
Definition is_running (srv : Server) : bool :=
  String.eqb (srv_status srv) "running" &&
  negb (String.eqb (srv_container_id srv) EmptyString).

Definition running_servers (d : DB) : list (string * string) :=
  map (fun srv => (srv_id srv, srv_container_id srv))
      (List.filter is_running (servers d)).

(** The loop over the listeners of one target. *)
Fixpoint fanout (chs : list nat) (stats : Stats) (cs : list Chan)
  : outcome string (list Chan) :=
  match chs with
  | [] => Ok cs
  | ch :: rest =>
      cs' ← try_send ch stats cs;
      fanout rest stats cs'
  end.

(** Update the cache and notify the listeners of [serverID]. *)
Definition publish (serverID : string) (stats : Stats) (w : World)
  : outcome string World :=
  let w := set_latest (<[serverID := stats]> (latest w)) w in
  let chs := listeners_of serverID w in
  cs ← fanout chs stats (chans w);
  mret (set_chans cs w).

Definition stats_row (now : Z) (stats : Stats) : StatsRow :=
  mkStatsRow (ServerID stats) (CPUPercent stats) (MemoryBytes stats)
    (MemoryLimit stats) (DiskBytes stats) (NetworkRx stats)
    (NetworkTx stats) now.

Definition collect_one (srv : string * string) (w : World)
  : outcome string World :=
  let w := add_request (snd srv) w in
  let '(res, rt') := fetchStats (fst srv) (snd srv) (rt w) in
  match res with
  | inl e => Ok (logf (LogFetch (fst srv) e) (set_env (db w) rt' w))
  | inr stats =>
      let w :=
        set_env (insert_stats (stats_row (unix (Now rt')) stats) (db w))
          rt' w in
      publish (fst srv) stats w
  end.

Fixpoint collect_all (srvs : list (string * string)) (w : World)
  : outcome string World :=
  match srvs with
  | [] => Ok w
  | srv :: rest =>
      w' ← collect_one srv w;
      collect_all rest w'
  end.

Definition collect (w : World) : outcome string World :=
  let servers := running_servers (db w) in
  w' ← collect_all servers w;
  mret (set_env (delete_old_stats (unix (Now (rt w'))) (db w')) (rt w') w').

(** One turn of the goroutine that [Start] launched on the context
    [ctx] (the first tick right after the start, or a wake-up at its
    [select]): it returns once its context is cancelled, and runs a
    tick otherwise. *)
Definition turn (ctx : nat) (w : World) : outcome string World :=
  if cancelled ctx w then
    Ok (mkWorld (db w) (rt w) (log w) (requests w) (chans w) (contexts w)
          (List.filter (fun k => negb (k =? ctx)%nat) (loops w))
          (latest w) (listeners w) (cancel w))
  else collect w.

End WithRuntime.

Arguments World R : clear implicits.

End Stats.

(** ** Console bridge (ConsoleHandler.Handle), outbound pump *)

Module Console.

Definition bytes : Type := list Byte.byte.

Inductive io_error : Type :=
| EOF
| ErrUnexpectedEOF
| ErrOther (msg : string).

(** The log stream: the bytes still to come, and the error its [Read]
    returns once they are exhausted ([EOF] when the stream just ends). *)
Record Reader : Type := mkReader {
  pending : bytes;
  final : io_error
}.

(** [io.ReadFull(r, buf)] with [len(buf) = n]: the bytes read, and the
    error if fewer than [n] came. *)
Definition ReadFull (n : nat) (r : Reader)
  : bytes * option io_error * Reader :=
  if (n <=? length (pending r))%nat then
    (take n (pending r), None, mkReader (drop n (pending r)) (final r))
  else
    let err :=
      match pending r, final r with
      | [], e => e
      | _ :: _, EOF => ErrUnexpectedEOF
      | _ :: _, e => e
      end in
    (pending r, Some err, mkReader [] (final r)).

(** [binary.BigEndian.Uint32] *)
Definition Uint32 (b : bytes) : Z :=
  match b with
  | b0 :: b1 :: b2 :: b3 :: _ =>
      Z.lor (Z.lor (Z.lor (Z.shiftl (Z.of_N (Byte.to_N b0)) 24)
                          (Z.shiftl (Z.of_N (Byte.to_N b1)) 16))
                   (Z.shiftl (Z.of_N (Byte.to_N b2)) 8))
            (Z.of_N (Byte.to_N b3))
  | _ => 0
  end.

(** The client side of the websocket: the messages written so far, and
    how many more writes succeed ([None]: all of them). *)
Record Conn : Type := mkConn {
  sent : list bytes;
  quota : option nat
}.

Definition WriteMessage (m : bytes) (c : Conn) : bool * Conn :=
  match quota c with
  | None => (true, mkConn (sent c ++ [m]) None)
  | Some (S k) => (true, mkConn (sent c ++ [m]) (Some k))
  | Some O => (false, c)
  end.

Inductive log_entry : Type :=
| LogHeaderRead (e : io_error)
| LogPayloadRead (e : io_error).

Definition log_unless_eof (mk : io_error -> log_entry) (e : io_error)
  (lg : list log_entry) : list log_entry :=
  match e with
  | EOF => lg
  | _ => lg ++ [mk e]
  end.

Record Session : Type := mkSession {
  logReader : Reader;
  conn : Conn;
  log : list log_entry
}.

(** One turn of the loop of the non-TTY branch: [inl] to go round
    again, [inr] when the handler returns. *)
Definition frame (s : Session) : Session + Session :=
  let '(header, err, r1) := ReadFull 8 (logReader s) in
  match err with
  | Some e =>
      inr (mkSession r1 (conn s) (log_unless_eof LogHeaderRead e (log s)))
  | None =>
      let size := Uint32 (drop 4 header) in
      if size =? 0 then inl (mkSession r1 (conn s) (log s))
      else
        let '(payload, err, r2) := ReadFull (Z.to_nat size) r1 in
        match err with
        | Some e =>
            inr (mkSession r2 (conn s)
                   (log_unless_eof LogPayloadRead e (log s)))
        | None =>
            let '(ok, c) := WriteMessage payload (conn s) in
            if ok then inl (mkSession r2 c (log s))
            else inr (mkSession r2 c (log s))
        end
  end.

Lemma ReadFull_pending n r data err r' :
  ReadFull n r = (data, err, r') ->
  (length (pending r') <= length (pending r))%nat /\
  (err = None -> length (pending r') + n = length (pending r))%nat.
Proof.
  unfold ReadFull. destruct (n <=? length (pending r))%nat eqn:Hn.
  - apply Nat.leb_le in Hn. intros [= <- <- <-]. simpl.
    rewrite length_drop. lia.
  - intros [= <- <- <-]. simpl. split; [lia | discriminate].
Qed.

Lemma frame_consumes s s' :
  frame s = inl s' ->
  (length (pending (logReader s')) < length (pending (logReader s)))%nat.
Proof.
  unfold frame.
  destruct (ReadFull 8 (logReader s)) as [[header err] r1] eqn:H1.
  apply ReadFull_pending in H1 as [_ H1].
  destruct err as [e|]; [discriminate|]. specialize (H1 eq_refl).
  destruct (Uint32 (drop 4 header) =? 0).
  - intros [= <-]. simpl. lia.
  - destruct (ReadFull _ r1) as [[payload err] r2] eqn:H2.
    apply ReadFull_pending in H2 as [H2 _].
    destruct err as [e|]; [discriminate|].
    destruct (WriteMessage payload (conn s)) as [[] c];
      [intros [= <-]; simpl; lia | discriminate].
Qed.

Definition inspect {A : Type} (x : A) : { y : A | x = y } :=
  exist _ x eq_refl.

(** The loop: it ends because every turn takes eight bytes or more
    from the stream. *)
Equations? pump (s : Session) : Session
  by wf (length (pending (logReader s))) lt :=
  pump s with inspect (frame s) => {
    | exist _ (inl s') Heq => pump s';
    | exist _ (inr s') _ => s'
  }.
Proof. by apply frame_consumes. Qed.

End Console.

(** ** A small concrete environment, to run the model on

    The environment state is a clock in seconds.  Every call takes one
    second; a lifecycle call on the container ["broken"] fails, and the
    counters of a container grow with the clock. *)

Module Example.

Import Go Store.

Definition lifecycle_call (containerID : string) (r : Z) : option string * Z :=
  (if String.eqb containerID "broken" then Some "no such container" else None,
   r + 1).

Definition stats_call (containerID : string) (r : Z)
  : (string + dockerStatsJSON) * Z :=
  (if String.eqb containerID "broken" then inl "no such container"
   else inr (mkDockerStats (r * 1000) (r * 4000) 2
               ((r - 10) * 1000) ((r - 10) * 4000) (r * 4096) 1048576
               [(r, 2 * r)]),
   r + 1).

#[global] Instance clock_runtime : Runtime Z := {|
  Now r := mkTime r 0;
  StartContainer := lifecycle_call;
  StopContainer := lifecycle_call;
  RestartContainer := lifecycle_call;
  BackupCreate := lifecycle_call;
  ContainerStatsOnce := stats_call
|}.

(** 2026-11-02 04:00:00 UTC, a Monday. *)
Definition four_o_clock : Z := 1793592000.

Definition two_servers : list Server :=
  [ mkServer "alpha" "c-alpha" "running" (mkTime 0 0);
    mkServer "beta" "broken" "exited" (mkTime 0 0) ].

Definition three_schedules : list Schedule :=
  [ mkSchedule "s1" "alpha" "0 4 * * *" "stop" 1 None;
    mkSchedule "s2" "beta" "0 4 * * *" "start" 1 None;
    mkSchedule "s3" "alpha" "30 4 * * *" "restart" 1 None ].

Definition store : DB := mkDB two_servers three_schedules [].

Definition scheduler_world : Scheduler.World Z :=
  Scheduler.mkWorld store four_o_clock [].

Definition collector_world : Stats.World Z :=
  Stats.mkWorld store four_o_clock [] [] [] [] [] ∅ ∅ None.

Definition sample (n : Z) : Stats.Stats :=
  Stats.mkStats 0 "alpha" (Stats.f64_of_Z n) 0 0 0 0 0 (mkTime n 0).

End Example.

(** ** Notions used to state the properties *)

Module Spec.

Import Go.

(** A range part [a-b] or [a-b/step] whose start lies after its end:
    [a] is written without a minus sign, and the step, if any, is
    positive. *)
Definition reversed_range (part : string) : Prop :=
  exists (sa sb : string) (lo hi : Z),
    Atoi sa = Some lo /\ Atoi sb = Some hi /\ hi < lo /\
    Contains sa "-" = false /\
    (part = sa +:+ "-" +:+ sb \/
     exists (ss : string) (step : Z),
       Atoi ss = Some step /\ 0 < step /\
       part = sa +:+ "-" +:+ sb +:+ "/" +:+ ss).

(** The capability call an action stands for, on its argument, and the
    status recorded when a lifecycle call succeeds. *)
Definition action_call {R : Type} `{Runtime R}
  (action serverID containerID : string) : option (R -> option string * R) :=
  if String.eqb action "start" then Some (StartContainer containerID)
  else if String.eqb action "stop" then Some (StopContainer containerID)
  else if String.eqb action "restart" then Some (RestartContainer containerID)
  else if String.eqb action "backup" then Some (BackupCreate serverID)
  else None.

Definition action_status (action : string) : option string :=
  if String.eqb action "start" then Some "running"
  else if String.eqb action "stop" then Some "exited"
  else if String.eqb action "restart" then Some "running"
  else None.

(** A schedule row once its [last_run] is stamped, and a server row
    once its status is recorded. *)
Definition stamped (now : Time) (s : Store.Schedule) : Store.Schedule :=
  Store.mkSchedule (Store.sch_id s) (Store.sch_server_id s)
    (Store.sch_cron_expr s) (Store.sch_action s) (Store.sch_enabled s)
    (Some now).

Definition recorded (status : string) (at_ : Time) (srv : Store.Server)
  : Store.Server :=
  Store.mkServer (Store.srv_id srv) (Store.srv_container_id srv) status at_.

(** The jobs of a pass that are due at [now]. *)
Definition due (fuel : nat) (now : Time) (j : Scheduler.job) : bool :=
  match Cron.ParseCron fuel (Scheduler.cronExpr j) with
  | Ok c => Cron.Matches c now
  | _ => false
  end.

(** A target in running state with a known runtime handle. *)
Definition live (d : Store.DB) (id cid : string) : Prop :=
  exists srv,
    In srv (Store.servers d) /\
    Store.srv_id srv = id /\ Store.srv_container_id srv = cid /\
    Store.srv_status srv = "running" /\ cid <> EmptyString.

(** No listener of the target holds a closed channel. *)
Definition all_open (chs : list nat) (cs : list Stats.Chan) : Prop :=
  forall c chan, In c chs -> cs !! c = Some chan -> Stats.closed chan = false.

(** A frame of the multiplexed log stream, and its bytes on the wire:
    the stream type, three reserved bytes, the length of the payload
    in four bytes, most significant first, and the payload. *)
Record Frame : Type := mkFrame {
  stream_type : Byte.byte;
  reserved : Byte.byte * Byte.byte * Byte.byte;
  payload : Console.bytes
}.

Definition byte_of (z : Z) : Byte.byte :=
  default Byte.x00 (Byte.of_N (Z.to_N (z mod 256))).

Definition be32 (n : Z) : Console.bytes :=
  [byte_of (n / 2 ^ 24); byte_of (n / 2 ^ 16); byte_of (n / 2 ^ 8); byte_of n].

Definition encode (f : Frame) : Console.bytes :=
  let '(r1, r2, r3) := reserved f in
  [stream_type f; r1; r2; r3]
  ++ be32 (Z.of_nat (length (payload f))) ++ payload f.

(** The messages a list of frames should give: the payloads that are
    not empty, in order. *)
Definition forwarded (frames : list Frame) : list Console.bytes :=
  flat_map (fun f => match payload f with
                     | [] => []
                     | p => [p]
                     end) frames.

(** What a read of a header reports when fewer than eight bytes are
    left before the stream ends with [fin]. *)
Definition short_read (tail : Console.bytes) (fin : Console.io_error)
  : Console.io_error :=
  match tail, fin with
  | [], e => e
  | _ :: _, Console.EOF => Console.ErrUnexpectedEOF
  | _ :: _, e => e
  end.

(** Calls on the exported [Start] and [Stop] of the collector. *)
Inductive call : Type := CallStart | CallStop.

Definition run_call {R : Type} `{Runtime R} (c : call) (w : Stats.World R)
  : Stats.World R :=
  match c with
  | CallStart => Stats.Start w
  | CallStop => Stats.Stop w
  end.

Definition run_calls {R : Type} `{Runtime R} (cs : list call)
  (w : Stats.World R) : Stats.World R :=
  fold_left (fun w c => run_call c w) cs w.

(** The loop of the context [n] is out of reach: it is registered and
    not cancelled, and the stored cancel function belongs to a later
    context. *)
Definition orphaned {R : Type} `{Runtime R} (n : nat) (w : Stats.World R)
  : Prop :=
  Stats.contexts w !! n = Some false /\ In n (Stats.loops w) /\
  exists k, Stats.cancel w = Some k /\ (n < k)%nat.

End Spec.


(** ** Further notions: cron parts *)

Module CronSpec.

Import Go.

(** The values from [lo], by [step], that do not pass [hi]. *)
Definition progression (lo hi step : Z) : list Z :=
  map (fun k => lo + Z.of_nat k * step)
      (seq 0 (Z.to_nat ((hi - lo) / step + 1))).



(** Every step of a [*/step] part of the expression leaves room below
    the largest [int], so that the counter of its loop cannot wrap. *)
Definition small_steps (expr : string) : Prop :=
  forall field part step,
    In field (Fields expr) -> In part (Split field ",") ->
    HasPrefix part "*/" = true -> Atoi (drop 2 part) = Some step ->
    step <= 2 ^ 62.

End CronSpec.


(** ** The loop of the scheduler (Scheduler.Start), in time

    Instants are nanoseconds since the Unix epoch, durations are
    nanoseconds. *)

Module Loop.






End Loop.


(** ** The collector as its callers use it *)

Module Registry.

Import Store Stats.

(** The calls a process makes on a collector: the exported methods, a
    tick of a polling loop, and a receive by the holder of a channel. *)
Inductive api : Type :=
| ApiStart
| ApiStop
| ApiSubscribe (serverID : string)
| ApiUnsubscribe (serverID : string) (ch : nat)
| ApiCollect
| ApiReceive (ch : nat).

Section WithRuntime.

Context {R : Type} `{Runtime R}.

(** [NewCollector(db, dockerClient)]: empty maps, no cancel function. *)
Definition NewCollector (d : DB) (r : R) : World R :=
  mkWorld d r [] [] [] [] [] ∅ ∅ None.

Definition run_api (a : api) (w : World R) : outcome string (World R) :=
  match a with
  | ApiStart => Ok (Start w)
  | ApiStop => Ok (Stop w)
  | ApiSubscribe serverID => Ok (snd (Subscribe serverID w))
  | ApiUnsubscribe serverID ch => Unsubscribe serverID ch w
  | ApiCollect => collect w
  | ApiReceive ch => Ok (snd (recv ch w))
  end.

Fixpoint run_apis (l : list api) (w : World R) : outcome string (World R) :=
  match l with
  | [] => Ok w
  | a :: rest =>
      w' ← run_api a w;
      run_apis rest w'
  end.

(** The two halves of the end of a loop iteration of [collect]: under
    the lock, the cache is updated and the listener slice is read;
    after the unlock, the sends. *)
Definition snapshot (serverID : string) (stats : Stats) (w : World R)
  : list nat * World R :=
  let w := set_latest (<[serverID := stats]> (latest w)) w in
  (listeners_of serverID w, w).

Definition deliver (chs : list nat) (stats : Stats) (w : World R)
  : outcome string (World R) :=
  cs ← fanout chs stats (chans w);
  mret (set_chans cs w).

(** The registry is in order when every registered channel exists and
    is open, and no channel is registered twice. *)
Definition registry_ok (w : World R) : Prop :=
  (forall id c, c ∈ listeners_of id w ->
                exists chan, chans w !! c = Some chan /\ closed chan = false) /\
  (forall id, NoDup (listeners_of id w)) /\
  (forall id1 id2 c, c ∈ listeners_of id1 w -> c ∈ listeners_of id2 w ->
                     id1 = id2).

End WithRuntime.

End Registry.


(** A runtime that refuses every request, on a clock that stands
    still. *)
Module Outage.

Definition refused (containerID : string) (r : unit) : option string * unit :=
  (Some "connection refused", r).

#[global] Instance down_runtime : Runtime unit := {|
  Now _ := Go.mkTime 1793592000 0;
  StartContainer := refused;
  StopContainer := refused;
  RestartContainer := refused;
  BackupCreate := refused;
  ContainerStatsOnce _ r := (inl "connection refused", r)
|}.

Definition collector_world : Stats.World unit :=
  Stats.mkWorld
    (Store.mkDB Example.two_servers Example.three_schedules
       [Store.mkStatsRow "alpha" Stats.f64_zero 0 0 0 0 0 1793500000;
        Store.mkStatsRow "alpha" Stats.f64_zero 0 0 0 0 0 1793591990])
    tt [] [] [] [] [] ∅ ∅ None.

End Outage.


(** The sum of a list of counters, without wrap-around. *)
Module StatsSpec.

Definition total (l : list Z) : Z := fold_right Z.add 0 l.

(** Zero, or a positive [float64] with a mantissa below [2^53] and an
    exponent between [lo] and [hi]. *)
Definition finite_nonneg (f : spec_float) (lo hi : Z) : Prop :=
  match f with
  | S754_zero false => True
  | S754_finite false m e => Z.pos m < 2 ^ 53 /\ lo <= e <= hi
  | _ => False
  end.

Definition is_finite_nonneg (f : spec_float) : bool :=
  match f with
  | S754_zero false | S754_finite false _ _ => true
  | _ => false
  end.

End StatsSpec.


(** ** Console bridge, TTY branch (package api: ConsoleHandler.Handle) *)

Module Tty.

Import Console.

Inductive log_entry : Type :=
| LogRead (e : io_error).

Definition log_unless_eof (e : io_error) (lg : list log_entry)
  : list log_entry :=
  match e with
  | EOF => lg
  | _ => lg ++ [LogRead e]
  end.

(** The loop of the TTY branch.  [reads] lists what the calls of
    [logReader.Read(buf)] return, one after the other: the bytes put in
    [buf] and the error, if any; once the list is used up, [Read]
    returns no byte and the error [fin]. *)
Fixpoint pump (reads : list (bytes * option io_error)) (fin : io_error)
  (c : Conn) (lg : list log_entry) : Conn * list log_entry :=
  match reads with
  | [] => (c, log_unless_eof fin lg)
  | (data, err) :: rest =>
      let '(ok, c') :=
        if (0 <? length data)%nat then WriteMessage data c else (true, c) in
      if ok then
        match err with
        | Some e => (c', log_unless_eof e lg)
        | None => pump rest fin c' lg
        end
      else (c', lg)
  end.

End Tty.

Module ConsoleSpec.

Import Console.

(** The reads up to and including the first one that returns an
    error, and that error ([fin] when the list has none). *)
Fixpoint through_first_error (reads : list (bytes * option io_error))
  : list (bytes * option io_error) :=
  match reads with
  | [] => []
  | (data, None) :: rest => (data, None) :: through_first_error rest
  | (data, Some e) :: _ => [(data, Some e)]
  end.

Fixpoint first_error (reads : list (bytes * option io_error))
  (fin : io_error) : io_error :=
  match reads with
  | [] => fin
  | (_, None) :: rest => first_error rest fin
  | (_, Some e) :: _ => e
  end.

Definition nonempty (m : bytes) : bool :=
  match m with
  | [] => false
  | _ => true
  end.

(** The messages the reads should give: the data of each read that
    returned a byte or more. *)
Definition messages (reads : list (bytes * option io_error)) : list bytes :=
  List.filter nonempty (map fst (through_first_error reads)).

(** The writes that succeed on a connection. *)
Definition accepted (q : option nat) (ms : list bytes) : list bytes :=
  match q with
  | None => ms
  | Some k => take k ms
  end.

Definition refuses (q : option nat) (ms : list bytes) : bool :=
  match q with
  | None => false
  | Some k => (k <? length ms)%nat
  end.

(** The header of a frame of type [t] that announces [n] bytes. *)
Definition header (t : Byte.byte) (n : Z) : bytes :=
  [t; Byte.x00; Byte.x00; Byte.x00] ++ Spec.be32 n.

End ConsoleSpec.


(** ** Schedule handlers (package api: ScheduleHandler) *)

Module ScheduleApi.

Import Go Store.

(** The request bodies as [decodeJSON] fills them: a missing string
    field of [Create] is the empty string, a missing field of [Update]
    is nil. *)
Record create_request : Type := mkCreate {
  cr_name : string;
  cr_cron_expr : string;
  cr_action : string
}.

Record update_request : Type := mkUpdate {
  ur_name : option string;
  ur_cron_expr : option string;
  ur_action : option string;
  ur_enabled : option bool
}.

(** The answers: 201 and 200 with the row read back, 200 for a
    deletion, 400, 404 and 500 with their message. *)
Inductive response : Type :=
| Created (row : option Schedule)
| Updated (row : Schedule)
| Deleted
| BadRequest (msg : string)
| NotFound (msg : string)
| InternalError (msg : string).

(** [case "start", "stop", "restart", "backup":] *)
Definition valid_action (action : string) : bool :=
  String.eqb action "start" || String.eqb action "stop" ||
  String.eqb action "restart" || String.eqb action "backup".

(** [WHERE id = ?] and [WHERE id = ? AND server_id = ?] *)
Definition has_id (id : string) (s : Schedule) : bool :=
  String.eqb (sch_id s) id.
Definition is_row (scheduleID serverID : string) (s : Schedule) : bool :=
  String.eqb (sch_id s) scheduleID && String.eqb (sch_server_id s) serverID.

(** [INSERT INTO schedules (id, server_id, name, cron_expr, action)]:
    the row takes the defaults [enabled = 1] and [last_run = NULL]; the
    statement fails when the id is taken (primary key) or when no
    server has the id [server_id] (foreign key).  The [name] column,
    which the scheduler never reads, is not part of the store model. *)
Definition insert_schedule (id serverID cronExpr action : string) (db : DB)
  : option DB :=
  if existsb (has_id id) (schedules db)
     || negb (existsb (fun srv => String.eqb (srv_id srv) serverID)
                (servers db))
  then None
  else Some (mkDB (servers db)
               (schedules db ++ [mkSchedule id serverID cronExpr action 1 None])
               (stats db)).

(** [UPDATE schedules SET col = ? WHERE id = ? AND server_id = ?] *)
Definition update_rows (f : Schedule -> Schedule)
  (scheduleID serverID : string) (db : DB) : DB :=
  mkDB (servers db)
    (map (fun s => if is_row scheduleID serverID s then f s else s)
       (schedules db))
    (stats db).

Definition set_cron_expr (cronExpr : string) (s : Schedule) : Schedule :=
  mkSchedule (sch_id s) (sch_server_id s) cronExpr (sch_action s)
    (sch_enabled s) (sch_last_run s).
Definition set_action (action : string) (s : Schedule) : Schedule :=
  mkSchedule (sch_id s) (sch_server_id s) (sch_cron_expr s) action
    (sch_enabled s) (sch_last_run s).
Definition set_enabled (enabled : bool) (s : Schedule) : Schedule :=
  mkSchedule (sch_id s) (sch_server_id s) (sch_cron_expr s) (sch_action s)
    (if enabled then 1 else 0) (sch_last_run s).

(** [if req.Field != nil { h.db.Exec(...) }] *)
Definition when_set {A : Type} (field : option A) (f : A -> DB -> DB)
  (db : DB) : DB :=
  match field with
  | Some a => f a db
  | None => db
  end.

(** [Create]; [id] is the fresh [uuid.New().String()[:8]], [body] what
    [decodeJSON] returned.  The result is [None] when the parser has
    not finished within the fuel. *)
Definition Create (fuel : nat) (id serverID : string)
  (body : option create_request) (db : DB) : option (response * DB) :=
  match body with
  | None => Some (BadRequest "invalid request body", db)
  | Some req =>
      if String.eqb (cr_name req) EmptyString
         || String.eqb (cr_cron_expr req) EmptyString
         || String.eqb (cr_action req) EmptyString
      then Some (BadRequest "name, cron_expr, and action required", db)
      else
        match Cron.ParseCron fuel (cr_cron_expr req) with
        | OutOfFuel => None
        | Err e =>
            Some (BadRequest ("invalid cron expression: " +:+ Cron.Error e), db)
        | Ok _ =>
            if valid_action (cr_action req) then
              match insert_schedule id serverID (cr_cron_expr req)
                      (cr_action req) db with
              | None => Some (InternalError "failed to create schedule", db)
              | Some db' =>
                  Some (Created (List.find (has_id id) (schedules db')), db')
              end
            else
              Some (BadRequest
                      "action must be one of: start, stop, restart, backup",
                    db)
        end
  end.

Definition Update (fuel : nat) (serverID scheduleID : string)
  (body : option update_request) (db : DB) : option (response * DB) :=
  match body with
  | None => Some (BadRequest "invalid request body", db)
  | Some req =>
      let checked :=
        match ur_cron_expr req with
        | Some cronExpr =>
            match Cron.ParseCron fuel cronExpr with
            | Ok _ => Ok tt
            | Err e => Err e
            | OutOfFuel => OutOfFuel
            end
        | None => Ok tt
        end in
      match checked with
      | OutOfFuel => None
      | Err e =>
          Some (BadRequest ("invalid cron expression: " +:+ Cron.Error e), db)
      | Ok _ =>
          if match ur_action req with
             | Some action => valid_action action
             | None => true
             end
          then
            let db1 :=
              when_set (ur_cron_expr req)
                (fun c => update_rows (set_cron_expr c) scheduleID serverID)
                db in
            let db2 :=
              when_set (ur_action req)
                (fun a => update_rows (set_action a) scheduleID serverID)
                db1 in
            let db3 :=
              when_set (ur_enabled req)
                (fun e => update_rows (set_enabled e) scheduleID serverID)
                db2 in
            match List.find (is_row scheduleID serverID) (schedules db3) with
            | None => Some (NotFound "schedule not found", db3)
            | Some s => Some (Updated s, db3)
            end
          else
            Some (BadRequest
                    "action must be one of: start, stop, restart, backup",
                  db)
      end
  end.

(** [DELETE FROM schedules WHERE id = ? AND server_id = ?] *)
Definition Delete (serverID scheduleID : string) (db : DB)
  : response * DB :=
  if existsb (is_row scheduleID serverID) (schedules db)
  then (Deleted,
        mkDB (servers db)
          (List.filter (fun s => negb (is_row scheduleID serverID s))
             (schedules db))
          (stats db))
  else (NotFound "schedule not found", db).

(** The requests that reach the three handlers. *)
Inductive call : Type :=
| CallCreate (id serverID : string) (body : option create_request)
| CallUpdate (serverID scheduleID : string) (body : option update_request)
| CallDelete (serverID scheduleID : string).

Definition run (fuel : nat) (c : call) (db : DB) : option (response * DB) :=
  match c with
  | CallCreate id serverID body => Create fuel id serverID body db
  | CallUpdate serverID scheduleID body =>
      Update fuel serverID scheduleID body db
  | CallDelete serverID scheduleID => Some (Delete serverID scheduleID db)
  end.

Fixpoint run_calls (fuel : nat) (cs : list call) (db : DB) : option DB :=
  match cs with
  | [] => Some db
  | c :: rest =>
      match run fuel c db with
      | Some (_, db') => run_calls fuel rest db'
      | None => None
      end
  end.

Definition accepted (r : response) : bool :=
  match r with
  | Created _ | Updated _ | Deleted => true
  | _ => false
  end.

(** A schedule the scheduler can run: its expression parses and its
    action is one of the four. *)
Definition runnable (fuel : nat) (s : Schedule) : bool :=
  is_ok (Cron.ParseCron fuel (sch_cron_expr s)) && valid_action (sch_action s).

(** The log lines of a pass that report a due schedule or a failed
    call, as opposed to a schedule the scheduler cannot make sense of. *)
Definition reports_a_run (e : Scheduler.log_entry) : bool :=
  match e with
  | Scheduler.LogRunning _ _ _ | Scheduler.LogFailed _ _ _ => true
  | _ => false
  end.

End ScheduleApi.

(* ===================================================================== *)
(** * Part II: properties *)
(* ===================================================================== *)

(** ** The calendar accessors stay in their ranges *)

Section Calendar.

Import Go.

Lemma second_of_day_range t : 0 <= second_of_day t < 86400.
Proof. unfold second_of_day. apply Z.mod_pos_bound. lia. Qed.

Lemma Hour_range t : 0 <= Hour t <= 23.
Proof.
  unfold Hour. pose proof (second_of_day_range t) as Hs. split.
  - apply Z.div_pos; lia.
  - apply Z.lt_succ_r, Z.div_lt_upper_bound; lia.
Qed.

Lemma Minute_range t : 0 <= Minute t <= 59.
Proof.
  unfold Minute.
  pose proof (Z.mod_pos_bound (second_of_day t) 3600 ltac:(lia)) as Hs. split.
  - apply Z.div_pos; lia.
  - apply Z.lt_succ_r, Z.div_lt_upper_bound; lia.
Qed.

Lemma Weekday_range t : 0 <= Weekday t <= 6.
Proof.
  unfold Weekday.
  pose proof (Z.mod_pos_bound (day_number t + 4) 7 ltac:(lia)). lia.
Qed.

Lemma day_of_era_range t : 0 <= day_of_era t < 146097.
Proof. unfold day_of_era. apply Z.mod_pos_bound. lia. Qed.

Lemma day_of_year_range doe :
  0 <= doe < 146097 -> 0 <= day_of_year doe <= 365.
Proof.
  intros Hdoe. unfold day_of_year, year_of_era.
  Z.div_mod_to_equations. lia.
Qed.

Lemma month_index_range doe :
  0 <= doe < 146097 -> 0 <= month_index doe <= 11.
Proof.
  intros Hdoe. pose proof (day_of_year_range doe Hdoe) as Hdoy.
  unfold month_index. Z.div_mod_to_equations. lia.
Qed.

Lemma day_of_range doe : 0 <= doe < 146097 -> 1 <= day_of doe <= 31.
Proof.
  intros Hdoe. pose proof (day_of_year_range doe Hdoe) as Hdoy.
  unfold day_of, month_index. Z.div_mod_to_equations. lia.
Qed.

Lemma month_of_range doe : 0 <= doe < 146097 -> 1 <= month_of doe <= 12.
Proof.
  intros Hdoe. pose proof (month_index_range doe Hdoe) as Hmp.
  unfold month_of. destruct (month_index doe <? 10) eqn:E;
    [apply Z.ltb_lt in E | apply Z.ltb_ge in E]; lia.
Qed.

Lemma Day_range t : 1 <= Day t <= 31.
Proof. apply day_of_range, day_of_era_range. Qed.

Lemma Month_range t : 1 <= Month t <= 12.
Proof. apply month_of_range, day_of_era_range. Qed.

End Calendar.

(** ** Cron evaluator *)

Section CronFacts.

Import Go Cron.

Lemma contains_In vals v : contains vals v = true <-> In v vals.
Proof.
  induction vals as [|x vals IH]; simpl.
  - split; [discriminate | tauto].
  - destruct (x =? v) eqn:E.
    + apply Z.eqb_eq in E. tauto.
    + apply Z.eqb_neq in E. rewrite IH. split; [tauto | intros [?|?]; tauto].
Qed.

Lemma contains_nil v : contains [] v = false.
Proof. reflexivity. Qed.

(** Membership in a list that holds a whole interval. *)
Lemma contains_interval vals lo n v :
  forallb (fun k => contains vals (lo + Z.of_nat k)) (seq 0 n) = true ->
  lo <= v < lo + Z.of_nat n -> contains vals v = true.
Proof.
  rewrite forallb_forall. intros Hall Hv.
  replace v with (lo + Z.of_nat (Z.to_nat (v - lo))) by lia.
  apply Hall, in_seq. lia.
Qed.

(** *** More fuel never changes a settled result *)

Lemma count_up_settled fuel fuel' i hi step :
  count_up fuel i hi step <> OutOfFuel -> (fuel <= fuel')%nat ->
  count_up fuel' i hi step = count_up fuel i hi step.
Proof.
  revert fuel' i. induction fuel as [|fuel IH]; intros fuel' i Hs Hle.
  - simpl in Hs. congruence.
  - destruct fuel' as [|fuel']; [lia|]. simpl in *.
    destruct (i <=? hi); [|reflexivity]. unfold_outcome.
    rewrite (IH fuel' (wrap_int (i + step))); [reflexivity| |lia].
    intros Hout. rewrite Hout in Hs. congruence.
Qed.

Lemma parsePart_settled fuel fuel' part min max :
  parsePart fuel part min max <> OutOfFuel -> (fuel <= fuel')%nat ->
  parsePart fuel' part min max = parsePart fuel part min max.
Proof.
  unfold parsePart. intros Hs Hle.
  repeat match goal with
         | |- context [if ?b then _ else _] => destruct b
         | |- context [match ?x with _ => _ end] =>
             lazymatch x with
             | count_up _ _ _ _ => fail
             | _ => destruct x
             end
         end;
    try reflexivity; apply count_up_settled; assumption.
Qed.

Lemma parseParts_settled fuel fuel' parts min max result :
  parseParts fuel parts min max result <> OutOfFuel -> (fuel <= fuel')%nat ->
  parseParts fuel' parts min max result = parseParts fuel parts min max result.
Proof.
  revert result. induction parts as [|part rest IH]; intros result Hs Hle.
  - reflexivity.
  - simpl in *. unfold_outcome.
    rewrite (parsePart_settled fuel fuel'); [|intros Hout; rewrite Hout in Hs;
                                              congruence|assumption].
    destruct (parsePart fuel part min max); try reflexivity.
    apply IH; assumption.
Qed.

Lemma parseField_settled fuel fuel' field min max :
  parseField fuel field min max <> OutOfFuel -> (fuel <= fuel')%nat ->
  parseField fuel' field min max = parseField fuel field min max.
Proof. apply parseParts_settled. Qed.

Lemma in_field_settled name m m' :
  (m <> OutOfFuel -> m' = m) ->
  in_field name m <> OutOfFuel -> in_field name m' = in_field name m.
Proof.
  intros Hm Hs. rewrite Hm; [reflexivity|].
  intros ->. apply Hs. reflexivity.
Qed.

Lemma ParseCron_settled fuel fuel' expr :
  ParseCron fuel expr <> OutOfFuel -> (fuel <= fuel')%nat ->
  ParseCron fuel' expr = ParseCron fuel expr.
Proof.
  unfold ParseCron. intros Hs Hle.
  destruct (Fields expr) as [|f0 [|f1 [|f2 [|f3 [|f4 [|f5 fs]]]]]];
    try reflexivity.
  unfold_outcome.
  repeat match goal with
  | Hs : context [match in_field ?n (parseField fuel ?f ?lo ?hi) with _ => _ end]
    |- _ =>
      rewrite (in_field_settled n (parseField fuel f lo hi)
                 (parseField fuel' f lo hi));
      [ | intros; apply parseField_settled; assumption
        | intros Hout; rewrite Hout in Hs; congruence ];
      destruct (in_field n (parseField fuel f lo hi)); try reflexivity
  end.
Qed.

Lemma ParseCron_fuel fuel fuel' expr c :
  ParseCron fuel expr = Ok c -> (fuel <= fuel')%nat ->
  ParseCron fuel' expr = Ok c.
Proof.
  intros Hp Hle. rewrite (ParseCron_settled fuel fuel'); [assumption| |assumption].
  rewrite Hp. discriminate.
Qed.

Lemma ParseCron_fuel_err fuel fuel' expr e :
  ParseCron fuel expr = Err e -> (fuel <= fuel')%nat ->
  ParseCron fuel' expr = Err e.
Proof.
  intros Hp Hle. rewrite (ParseCron_settled fuel fuel'); [assumption| |assumption].
  rewrite Hp. discriminate.
Qed.

End CronFacts.

(** ** String facts behind the parser *)

Section StringFacts.

Import Go.

Lemma append_assoc (s1 s2 s3 : string) :
  (s1 +:+ s2) +:+ s3 = s1 +:+ (s2 +:+ s3).
Proof.
  induction s1 as [|a s1 IH]; [reflexivity|].
  change (String a ((s1 +:+ s2) +:+ s3) = String a (s1 +:+ (s2 +:+ s3))).
  by rewrite IH.
Qed.

Lemma Contains_app s1 s2 c :
  Contains (s1 +:+ s2) c = Contains s1 c || Contains s2 c.
Proof.
  induction s1 as [|a s1 IH]; simpl; [reflexivity|].
  destruct (Ascii.eqb a c); [reflexivity | assumption].
Qed.

Lemma cut_None s sep : Contains s sep = false -> cut s sep = None.
Proof.
  induction s as [|a s IH]; simpl; [reflexivity|].
  destruct (Ascii.eqb a sep); [discriminate|].
  intros Hc. rewrite IH by assumption. reflexivity.
Qed.

Lemma cut_app s1 s2 sep :
  Contains s1 sep = false ->
  cut (s1 +:+ String sep s2) sep = Some (s1, s2).
Proof.
  induction s1 as [|a s1 IH]; simpl.
  - rewrite Ascii.eqb_refl. reflexivity.
  - destruct (Ascii.eqb a sep); [discriminate|].
    intros Hc. rewrite IH by assumption. reflexivity.
Qed.

Lemma SplitN2_none s sep : Contains s sep = false -> SplitN2 s sep = [s].
Proof. intros Hc. unfold SplitN2. rewrite cut_None by assumption. reflexivity. Qed.

Lemma SplitN2_app s1 s2 sep :
  Contains s1 sep = false -> SplitN2 (s1 +:+ String sep s2) sep = [s1; s2].
Proof. intros Hc. unfold SplitN2. rewrite cut_app by assumption. reflexivity. Qed.

Lemma Split_no_sep s sep : Contains s sep = false -> Split s sep = [s].
Proof.
  induction s as [|a s IH]; simpl; [reflexivity|].
  destruct (Ascii.eqb a sep); [discriminate|].
  intros Hc. rewrite IH by assumption. reflexivity.
Qed.

Lemma digits_value_Contains acc s v c :
  digits_value acc s = Some v -> digit_of c = None -> Contains s c = false.
Proof.
  revert acc. induction s as [|a s IH]; intros acc Hv Hc; simpl in *.
  - reflexivity.
  - destruct (digit_of a) as [d|] eqn:Hd; [|discriminate].
    destruct (Ascii.eqb a c) eqn:E.
    + apply Ascii.eqb_eq in E. congruence.
    + eapply IH; eassumption.
Qed.

(** A string that [Atoi] accepts holds digits after an optional sign. *)
Lemma Atoi_body s v :
  Atoi s = Some v ->
  exists a r n,
    s = String a r /\
    (digits_value 0 s = Some n \/
     ((a = "-"%char \/ a = "+"%char) /\ digits_value 0 r = Some n)).
Proof.
  unfold Atoi. destruct s as [|a r]; [discriminate|].
  intros Hv. exists a, r.
  destruct (Ascii.eqb a "-") eqn:Em.
  - apply Ascii.eqb_eq in Em. destruct r as [|b r]; [discriminate|].
    destruct (digits_value 0 (String b r)) as [n|]; [|discriminate].
    exists n. split; [reflexivity|]. right. auto.
  - destruct (Ascii.eqb a "+") eqn:Ep.
    + apply Ascii.eqb_eq in Ep. destruct r as [|b r]; [discriminate|].
      destruct (digits_value 0 (String b r)) as [n|]; [|discriminate].
      exists n. split; [reflexivity|]. right. auto.
    + destruct (digits_value 0 (String a r)) as [n|]; [|discriminate].
      exists n. split; [reflexivity|]. left. reflexivity.
Qed.

Lemma Atoi_Contains s v c :
  Atoi s = Some v -> digit_of c = None ->
  c <> "-"%char -> c <> "+"%char -> Contains s c = false.
Proof.
  intros Hv Hc Hm Hp.
  destruct (Atoi_body s v Hv) as (a & r & n & -> & [Hd | [Ha Hd]]).
  - eapply digits_value_Contains; eassumption.
  - simpl. destruct (Ascii.eqb a c) eqn:E.
    + apply Ascii.eqb_eq in E. subst c. destruct Ha; congruence.
    + eapply digits_value_Contains; eassumption.
Qed.

Lemma Atoi_head s v :
  Atoi s = Some v -> exists a r, s = String a r /\ a <> "*"%char.
Proof.
  intros Hv.
  destruct (Atoi_body s v Hv) as (a & r & n & -> & [Hd | [Ha Hd]]);
    exists a, r; (split; [reflexivity|]); intros ->.
  - discriminate Hd.
  - destruct Ha; discriminate.
Qed.

End StringFacts.

(** ** Claims on the cron evaluator *)

Section CronClaims.

Import Go Cron Spec.

Lemma count_up_empty fuel lo hi step :
  (0 < fuel)%nat -> hi < lo -> count_up fuel lo hi step = Ok [].
Proof.
  intros Hf Hlt. destruct fuel as [|fuel]; [lia|]. simpl.
  destruct (lo <=? hi) eqn:E; [apply Z.leb_le in E; lia | reflexivity].
Qed.

Lemma reversed_range_shape part :
  reversed_range part ->
  HasPrefix part "*/" = false /\ String.eqb part "*" = false /\
  Contains part "-" = true /\ Contains part "," = false.
Proof.
  intros (sa & sb & lo & hi & Ha & Hb & _ & _ & Hpart).
  destruct (Atoi_head sa lo Ha) as (a & r & -> & Hstar).
  assert (Hca : Contains (String a r) "," = false)
    by (eapply Atoi_Contains; [eassumption | reflexivity | discriminate..]).
  assert (Hcb : Contains sb "," = false)
    by (eapply Atoi_Contains; [eassumption | reflexivity | discriminate..]).
  assert (Hhead : forall rest,
             HasPrefix (String a r +:+ rest) "*/" = false /\
             String.eqb (String a r +:+ rest) "*" = false).
  { intros rest. simpl.
    destruct (Ascii.eqb a "*") eqn:E; [apply Ascii.eqb_eq in E; congruence|].
    split; reflexivity. }
  destruct Hpart as [-> | (ss & step & Hs & _ & ->)].
  - destruct (Hhead ("-" +:+ sb)) as [H1 H2].
    repeat split; try assumption.
    + rewrite Contains_app. simpl. apply orb_true_r.
    + rewrite !Contains_app, Hca, Hcb. reflexivity.
  - destruct (Hhead ("-" +:+ sb +:+ "/" +:+ ss)) as [H1 H2].
    assert (Hcs : Contains ss "," = false)
      by (eapply Atoi_Contains; [eassumption | reflexivity | discriminate..]).
    repeat split; try assumption.
    + rewrite Contains_app. simpl. apply orb_true_r.
    + rewrite !Contains_app, Hca, Hcb, Hcs. reflexivity.
Qed.

Lemma parsePart_reversed_range fuel part min max :
  (0 < fuel)%nat -> reversed_range part ->
  parsePart fuel part min max = Ok [].
Proof.
  intros Hf Hrr.
  destruct (reversed_range_shape part Hrr) as (Hpre & Hstar & Hdash & _).
  destruct Hrr as (sa & sb & lo & hi & Ha & Hb & Hlt & Hnodash & Hpart).
  unfold parsePart. rewrite Hpre, Hstar, Hdash.
  assert (Hsa : Contains sa "/" = false)
    by (eapply Atoi_Contains; [eassumption | reflexivity | discriminate..]).
  assert (Hsb : Contains sb "/" = false)
    by (eapply Atoi_Contains; [eassumption | reflexivity | discriminate..]).
  assert (Hbounds : SplitN2 (sa +:+ "-" +:+ sb) "-" = [sa; sb])
    by (apply (SplitN2_app sa sb "-"); assumption).
  destruct Hpart as [-> | (ss & step & Hs & Hpos & ->)]; cbv zeta.
  - rewrite (SplitN2_none (sa +:+ "-" +:+ sb) "/").
    2:{ rewrite !Contains_app, Hsa, Hsb. reflexivity. }
    simpl hd. rewrite Hbounds, Ha, Hb.
    apply count_up_empty; assumption.
  - replace (sa +:+ "-" +:+ sb +:+ "/" +:+ ss)
      with ((sa +:+ "-" +:+ sb) +:+ String "/" ss).
    2:{ rewrite !append_assoc. reflexivity. }
    rewrite SplitN2_app.
    2:{ rewrite !Contains_app, Hsa, Hsb. reflexivity. }
    simpl hd. rewrite Hbounds, Ha, Hb, Hs.
    destruct (step <=? 0) eqn:E; [apply Z.leb_le in E; lia|].
    apply count_up_empty; assumption.
Qed.

Lemma parseField_reversed_range fuel part min max :
  (0 < fuel)%nat -> reversed_range part ->
  parseField fuel part min max = Ok [].
Proof.
  intros Hf Hrr. unfold parseField.
  destruct (reversed_range_shape part Hrr) as (_ & _ & _ & Hcomma).
  rewrite Split_no_sep by assumption. simpl.
  rewrite parsePart_reversed_range by assumption. reflexivity.
Qed.

Lemma Matches_empty_field c t :
  Minutes c = [] \/ Hours c = [] \/ DaysOfMonth c = [] \/
  Months c = [] \/ DaysOfWeek c = [] ->
  Matches c t = false.
Proof.
  unfold Matches. intros [-> | [-> | [-> | [-> | ->]]]]; simpl;
    rewrite ?andb_false_r; reflexivity.
Qed.

Lemma is_ok_Ok {E A} (m : outcome E A) :
  is_ok m = true -> exists a, m = Ok a.
Proof. destruct m; try discriminate. eauto. Qed.

End CronClaims.

Section CronTheorems.

Import Go Cron Spec.

(** C5.  [Matches] holds exactly when the minute, the hour, the day of
    the month, the month and the day of the week of the timestamp each
    belong to the corresponding parsed set (the five tests are joined
    by "and"); ["*/15 * * * *"] parses to the minute set
    [0; 15; 30; 45]; and ["0 4 * * *"] matches every timestamp at hour
    4, minute 0, whatever the date, and none at 04:01 or at 03:00. *)
Theorem C5_matches_conjunction_of_five_memberships
  (fuel : nat) (Hfuel : (60 < fuel)%nat) :
  (forall c t,
      Matches c t = true <->
      In (Minute t) (Minutes c) /\ In (Hour t) (Hours c) /\
      In (Day t) (DaysOfMonth c) /\ In (Month t) (Months c) /\
      In (Weekday t) (DaysOfWeek c)) /\
  (exists c, ParseCron fuel "*/15 * * * *" = Ok c /\
             Minutes c = [0; 15; 30; 45]) /\
  (exists c, ParseCron fuel "0 4 * * *" = Ok c /\
             (forall t, Hour t = 4 -> Minute t = 0 -> Matches c t = true) /\
             (forall t, Hour t = 4 -> Minute t = 1 -> Matches c t = false) /\
             (forall t, Hour t = 3 -> Minute t = 0 -> Matches c t = false)).
Proof.
  split; [|split].
  - intros c t. unfold Matches. rewrite !andb_true_iff, !contains_In. tauto.
  - eexists. split.
    + apply (ParseCron_fuel 61); [vm_compute; reflexivity | lia].
    + reflexivity.
  - eexists. split; [|split; [|split]].
    + apply (ParseCron_fuel 61); [vm_compute; reflexivity | lia].
    + intros t Hh Hm. unfold Matches.
      pose proof (Day_range t). pose proof (Month_range t).
      pose proof (Weekday_range t).
      cbn [Minutes Hours DaysOfMonth Months DaysOfWeek].
      rewrite Hh, Hm, (contains_interval _ 1 31 (Day t)),
              (contains_interval _ 1 12 (Month t)),
              (contains_interval _ 0 7 (Weekday t));
        first [reflexivity | lia].
    + intros t Hh Hm. unfold Matches. simpl. rewrite Hm. reflexivity.
    + intros t Hh Hm. unfold Matches. simpl. rewrite Hh, Hm. reflexivity.
Qed.

Lemma C5_witness :
  (60 < 61)%nat /\
  exists c, ParseCron 61 "*/15 * * * *" = Ok c /\
            Minutes c = [0; 15; 30; 45].
Proof.
  split; [lia|].
  exact (proj1 (proj2 (C5_matches_conjunction_of_five_memberships 61
                         ltac:(lia)))).
Defined.

(** C10.  A range part whose start is greater than its end (such as
    the minute field ["5-3"]), with or without a positive step, is
    accepted in every field and contributes no value; an expression in
    which one field is just such a part, and whose other fields parse,
    is accepted by [ParseCron] and matches no timestamp. *)
Theorem C10_reversed_range_is_accepted_and_never_matches
  (fuel : nat) (expr f0 f1 f2 f3 f4 part : string) (k : nat) :
  (0 < fuel)%nat ->
  reversed_range part ->
  Fields expr = [f0; f1; f2; f3; f4] ->
  [f0; f1; f2; f3; f4] !! k = Some part ->
  (k = 0%nat \/ is_ok (parseField fuel f0 0 59) = true) ->
  (k = 1%nat \/ is_ok (parseField fuel f1 0 23) = true) ->
  (k = 2%nat \/ is_ok (parseField fuel f2 1 31) = true) ->
  (k = 3%nat \/ is_ok (parseField fuel f3 1 12) = true) ->
  (k = 4%nat \/ is_ok (parseField fuel f4 0 6) = true) ->
  (forall min max, parsePart fuel part min max = Ok []) /\
  (exists c, ParseCron fuel expr = Ok c /\
             [Minutes c; Hours c; DaysOfMonth c; Months c; DaysOfWeek c]
               !! k = Some [] /\
             forall t, Matches c t = false).
Proof.
  intros Hfuel Hrr Hfields Hk H0 H1 H2 H3 H4.
  split; [intros; apply parsePart_reversed_range; assumption|].
  assert (Hpart : forall min max, parseField fuel part min max = Ok [])
    by (intros; apply parseField_reversed_range; assumption).
  unfold ParseCron. rewrite Hfields.
  assert (Hget : forall j f lo hi,
             [f0; f1; f2; f3; f4] !! j = Some f ->
             (k = j \/ is_ok (parseField fuel f lo hi) = true) ->
             exists vals, parseField fuel f lo hi = Ok vals /\
                          (k = j -> vals = [])).
  { intros j f lo hi Hj [-> | Hok].
    - rewrite Hk in Hj. injection Hj as <-. exists []. auto.
    - destruct (decide (k = j)) as [-> | Hne].
      + rewrite Hk in Hj. injection Hj as <-. exists []. auto.
      + apply is_ok_Ok in Hok as [vals Hv]. exists vals. split; [assumption|].
        congruence. }
  destruct (Hget 0%nat f0 0 59 eq_refl H0) as (v0 & -> & E0).
  destruct (Hget 1%nat f1 0 23 eq_refl H1) as (v1 & -> & E1).
  destruct (Hget 2%nat f2 1 31 eq_refl H2) as (v2 & -> & E2).
  destruct (Hget 3%nat f3 1 12 eq_refl H3) as (v3 & -> & E3).
  destruct (Hget 4%nat f4 0 6 eq_refl H4) as (v4 & -> & E4).
  simpl. eexists. split; [reflexivity|]. simpl.
  assert (Hlt : (k < 5)%nat) by (apply lookup_lt_Some in Hk; simpl in Hk; lia).
  destruct k as [|[|[|[|[|k]]]]]; try lia; simpl;
    (split; [f_equal; auto|]); intros t; apply Matches_empty_field; simpl;
    auto 10.
Qed.

Lemma C10_witness :
  exists c, ParseCron 61 "5-3 * * * *" = Ok c /\
            Minutes c = [] /\ forall t, Matches c t = false.
Proof.
  assert (Hrr : reversed_range "5-3").
  { exists "5", "3", 5, 3.
    split; [reflexivity|]. split; [reflexivity|]. split; [lia|].
    split; [reflexivity | left; reflexivity]. }
  destruct (C10_reversed_range_is_accepted_and_never_matches
              61 "5-3 * * * *" "5-3" "*" "*" "*" "*" "5-3" 0
              ltac:(lia) Hrr eq_refl eq_refl
              (or_introl eq_refl) (or_intror eq_refl) (or_intror eq_refl)
              (or_intror eq_refl) (or_intror eq_refl))
    as [_ (c & Hc & Hk & Hm)].
  exists c. repeat split; [assumption | | assumption].
  simpl in Hk. congruence.
Defined.

(** C2.  What [ParseCron] does with range parts and with the two
    expressions the specification quotes: the values of a range
    [a-b] are not compared with the bound of the field, so
    ["0-100 * * * *"] is accepted with minutes up to 100, although a
    single value 60 and a step 0 are refused with an error that names
    the minute field. *)
Theorem C2_range_values_escape_the_field_bound
  (fuel : nat) (Hfuel : (101 < fuel)%nat) :
  (exists c, ParseCron fuel "0-100 * * * *" = Ok c /\
             In 100 (Minutes c) /\ ~ (0 <= 100 <= 59)) /\
  ParseCron fuel "60 * * * *" = Err (InField "minute" (OutOfRange 60 0 59)) /\
  ParseCron fuel "1-5/0 * * * *" = Err (InField "minute" (InvalidStep "0")).
Proof.
  split; [|split].
  - eexists. split; [|split].
    + apply (ParseCron_fuel 102); [vm_compute; reflexivity | lia].
    + simpl. auto 200.
    + lia.
  - apply (ParseCron_fuel_err 61); [vm_compute; reflexivity | lia].
  - apply (ParseCron_fuel_err 61); [vm_compute; reflexivity | lia].
Qed.

Lemma C2_witness :
  (101 < 102)%nat /\
  exists c, ParseCron 102 "0-100 * * * *" = Ok c /\
            In 100 (Minutes c) /\ ~ (0 <= 100 <= 59).
Proof.
  split; [lia|].
  exact (proj1 (C2_range_values_escape_the_field_bound 102 ltac:(lia))).
Defined.

(** The step of a [*/step] part is not bounded either: with the largest
    [int] as step the counter of the day-of-month field wraps around
    twice before it passes 31. *)
Example star_step_wraps_around :
  parsePart 4 "*/9223372036854775807" 1 31 = Ok [1; int_min; -1].
Proof. vm_compute. reflexivity. Qed.

End CronTheorems.

(** ** Lifecycle scheduler *)

Section SchedulerFacts.

Import Go Store Scheduler Spec.
Context {R : Type} `{Runtime R}.

Lemma logf_db e (w : World R) : db (logf e w) = db w.
Proof. reflexivity. Qed.

Lemma lifecycle_schedules call status sid cid (w : World R) :
  schedules (db (snd (lifecycle call status sid cid w))) = schedules (db w).
Proof.
  unfold lifecycle. destruct (call cid (rt w)) as [[e|] r']; reflexivity.
Qed.

Lemma execute_schedules a sid cid (w : World R) :
  schedules (db (execute a sid cid w)) = schedules (db w).
Proof.
  unfold execute.
  repeat match goal with
         | |- context [String.eqb a ?x] => destruct (String.eqb a x)
         end;
    try reflexivity;
    try (match goal with
         | |- context [lifecycle ?c ?st sid cid w] =>
             pose proof (lifecycle_schedules c st sid cid w) as Hl;
             destruct (lifecycle c st sid cid w) as [[e|] w1]; simpl in *;
             assumption
         end).
  destruct (BackupCreate sid (rt w)) as [[e|] r']; reflexivity.
Qed.

(** What one due job leaves behind, whatever its action did. *)
Lemma execute_spec a sid cid (w : World R) call :
  action_call a sid cid = Some call ->
  let w' := execute a sid cid w in
  rt w' = snd (call (rt w)) /\
  log w' = log w ++ match fst (call (rt w)) with
                    | Some e => [LogFailed a sid e]
                    | None => []
                    end /\
  db w' = match fst (call (rt w)), action_status a with
          | None, Some status =>
              set_server_status status (Now (snd (call (rt w)))) sid (db w)
          | _, _ => db w
          end.
Proof.
  unfold action_call, action_status, execute, lifecycle.
  destruct (String.eqb a "start");
    [|destruct (String.eqb a "stop");
      [|destruct (String.eqb a "restart");
        [|destruct (String.eqb a "backup")]]];
    intros [= <-];
    match goal with
    | |- context [?f ?x (rt w)] =>
        destruct (f x (rt w)) as [[e|] r']; simpl;
        rewrite ?app_nil_r; auto
    end.
Qed.

Lemma run_jobs_schedules fuel now jobs (w w' : World R) :
  run_jobs fuel now jobs w = Some w' ->
  schedules (db w') =
  fold_left (fun L j => if due fuel now j
                        then map (stamp now (scheduleID j)) L else L)
            jobs (schedules (db w)).
Proof.
  revert w. induction jobs as [|j jobs IH]; intros w Hrun; simpl in *.
  - injection Hrun as <-. reflexivity.
  - destruct (run_job fuel now j w) as [w1|] eqn:Hj; [|discriminate].
    rewrite (IH _ Hrun). f_equal.
    unfold run_job, due in *.
    destruct (Cron.ParseCron fuel (cronExpr j)) as [c| |]; [| |discriminate].
    + destruct (Cron.Matches c now); simpl in Hj; injection Hj as <-.
      * simpl. rewrite execute_schedules. reflexivity.
      * reflexivity.
    + injection Hj as <-. reflexivity.
Qed.

Lemma run_jobs_total fuel now jobs (w : World R) :
  (forall j, In j jobs -> Cron.ParseCron fuel (cronExpr j) <> OutOfFuel) ->
  exists w', run_jobs fuel now jobs w = Some w'.
Proof.
  revert w. induction jobs as [|j jobs IH]; intros w Hall; simpl.
  - eauto.
  - assert (Hj : exists w1, run_job fuel now j w = Some w1).
    { unfold run_job. specialize (Hall j (or_introl eq_refl)).
      destruct (Cron.ParseCron fuel (cronExpr j)); [|eauto|congruence].
      destruct (negb _); eauto. }
    destruct Hj as [w1 ->]. apply IH. intros; apply Hall. by right.
Qed.

Lemma stamp_stamped now id s :
  stamp now id s = if String.eqb (sch_id s) id then stamped now s else s.
Proof. reflexivity. Qed.

Lemma stamped_fold fuel now jobs L i s :
  L !! i = Some s ->
  fold_left (fun L j => if due fuel now j
                        then map (stamp now (scheduleID j)) L else L)
            jobs L !! i
  = Some (if existsb (fun j => due fuel now j &&
                               String.eqb (sch_id s) (scheduleID j)) jobs
          then stamped now s else s).
Proof.
  revert L s. induction jobs as [|j jobs IH]; intros L s Hi; simpl.
  - assumption.
  - destruct (due fuel now j); simpl.
    + rewrite (IH _ (stamp now (scheduleID j) s)).
      2:{ rewrite list_lookup_fmap, Hi. reflexivity. }
      rewrite stamp_stamped.
      destruct (String.eqb (sch_id s) (scheduleID j)) eqn:E; simpl.
      * destruct (existsb _ jobs); reflexivity.
      * reflexivity.
    + apply IH. assumption.
Qed.

Lemma load_jobs_In (d : DB) s srv :
  In s (schedules d) -> sch_enabled s = 1 ->
  In srv (servers d) -> srv_id srv = sch_server_id s ->
  In (mkJob (sch_id s) (sch_server_id s) (sch_cron_expr s) (sch_action s)
        (srv_container_id srv)) (load_jobs d).
Proof.
  intros Hs He Hsrv Hid. unfold load_jobs. apply in_flat_map.
  exists s. split; [assumption|]. unfold jobs_of. rewrite He. simpl.
  apply in_map_iff. exists srv. split; [reflexivity|].
  apply list_elem_of_In, list_elem_of_filter. split; [assumption|].
  apply list_elem_of_In. assumption.
Qed.

Lemma load_jobs_source (d : DB) j :
  In j (load_jobs d) ->
  exists s, In s (schedules d) /\ sch_enabled s = 1 /\
            cronExpr j = sch_cron_expr s.
Proof.
  unfold load_jobs. rewrite in_flat_map. intros (s & Hs & Hj).
  unfold jobs_of in Hj. destruct (sch_enabled s =? 1) eqn:E; [|destruct Hj].
  apply Z.eqb_eq in E. apply in_map_iff in Hj as (srv & <- & _).
  exists s. auto.
Qed.

End SchedulerFacts.

Section SchedulerTheorems.

Import Go Store Scheduler Spec.

(** C4.  In an evaluation pass, every enabled schedule (joined with its
    server) whose expression parses and matches the timestamp of the
    pass has its [last_run] stamped with that timestamp, whether the
    dispatched action succeeded or failed: the runtime is arbitrary.
    A failed action leaves one [LogFailed] line; [run_job] and [tick]
    hand back a world, never an error. *)
Theorem C4_last_run_stamped_whatever_the_action_did
  {R : Type} `{Runtime R} (fuel : nat) (w : World R) :
  (forall s, In s (schedules (db w)) -> sch_enabled s = 1 ->
             Cron.ParseCron fuel (sch_cron_expr s) <> OutOfFuel) ->
  exists w',
    tick fuel w = Some w' /\
    (forall i s c,
        schedules (db w) !! i = Some s -> sch_enabled s = 1 ->
        (exists srv, In srv (servers (db w)) /\
                     srv_id srv = sch_server_id s) ->
        Cron.ParseCron fuel (sch_cron_expr s) = Ok c ->
        Cron.Matches c (Now (rt w)) = true ->
        schedules (db w') !! i = Some (stamped (Now (rt w)) s)) /\
    (forall j w0 c call,
        Cron.ParseCron fuel (cronExpr j) = Ok c ->
        Cron.Matches c (Now (rt w)) = true ->
        action_call (action j) (serverID j) (containerID j) = Some call ->
        exists w1,
          run_job fuel (Now (rt w)) j w0 = Some w1 /\
          schedules (db w1)
          = map (stamp (Now (rt w)) (scheduleID j)) (schedules (db w0)) /\
          log w1
          = log w0 ++
            LogRunning (action j) (serverID j) (scheduleID j) ::
            match fst (call (rt w0)) with
            | Some e => [LogFailed (action j) (serverID j) e]
            | None => []
            end).
Proof.
  intros Hfuel.
  destruct (run_jobs_total fuel (Now (rt w)) (load_jobs (db w)) w) as [w' Hrun].
  { intros j Hj. apply load_jobs_source in Hj as (s & Hs & He & ->). auto. }
  exists w'. split; [exact Hrun|]. split.
  - intros i s c Hi He (srv & Hsrv & Hid) Hparse Hmatch.
    rewrite (run_jobs_schedules _ _ _ _ _ Hrun).
    rewrite (stamped_fold _ _ _ _ _ _ Hi).
    assert (Hex : existsb
                    (fun j => due fuel (Now (rt w)) j &&
                              String.eqb (sch_id s) (scheduleID j))
                    (load_jobs (db w)) = true).
    { apply existsb_exists. eexists. split.
      - apply (load_jobs_In (db w) s srv); try assumption.
        apply list_elem_of_In, list_elem_of_lookup. eauto.
      - unfold due. simpl. rewrite Hparse, Hmatch, String.eqb_refl.
        reflexivity. }
    rewrite Hex. reflexivity.
  - intros j w0 c call Hparse Hmatch Hcall.
    unfold run_job. rewrite Hparse, Hmatch. simpl. eexists.
    split; [reflexivity|]. simpl.
    pose proof (execute_spec (action j) (serverID j) (containerID j)
                  (logf (LogRunning (action j) (serverID j) (scheduleID j)) w0)
                  call Hcall) as (_ & Hlog & _).
    rewrite execute_schedules, Hlog. simpl. rewrite <- app_assoc.
    split; reflexivity.
Qed.

Lemma C4_witness :
  exists w',
    tick 61 Example.scheduler_world = Some w' /\
    schedules (db w') !! 1%nat
    = Some (mkSchedule "s2" "beta" "0 4 * * *" "start" 1
              (Some (mkTime Example.four_o_clock 0))).
Proof.
  destruct (C4_last_run_stamped_whatever_the_action_did
              61 Example.scheduler_world) as (w' & Htick & Hstamp & _).
  { intros s [<- | [<- | [<- | []]]] _; vm_compute; discriminate. }
  exists w'. split; [exact Htick|].
  eapply (Hstamp 1%nat (mkSchedule "s2" "beta" "0 4 * * *" "start" 1 None));
    [reflexivity | reflexivity | | | ].
  - eexists. split; [right; left; reflexivity | reflexivity].
  - vm_compute. reflexivity.
  - vm_compute. reflexivity.
Defined.

(** C9.  When [execute] dispatches start, stop or restart, the status
    of the target server is recorded (running, exited, running) if the
    lifecycle call returns success, and only then: when the call
    returns an error the store is left as it was. *)
Theorem C9_status_recorded_iff_lifecycle_call_succeeds
  {R : Type} `{Runtime R} (w : World R)
  (action serverID containerID status : string)
  (call : R -> option string * R) :
  action_call action serverID containerID = Some call ->
  action_status action = Some status ->
  let w' := execute action serverID containerID w in
  (fst (call (rt w)) = None ->
   forall i srv, servers (db w) !! i = Some srv ->
     servers (db w') !! i
     = Some (if String.eqb (srv_id srv) serverID
             then recorded status (Now (rt w')) srv else srv)) /\
  (forall e, fst (call (rt w)) = Some e -> db w' = db w).
Proof.
  intros Hcall Hstatus w'.
  destruct (execute_spec action serverID containerID w call Hcall)
    as (Hrt & _ & Hdb).
  fold w' in Hrt, Hdb. rewrite Hstatus in Hdb. split.
  - intros Hok i srv Hi. rewrite Hdb, Hok, Hrt. simpl.
    rewrite list_lookup_fmap, Hi. reflexivity.
  - intros e He. rewrite Hdb, He. reflexivity.
Qed.

Lemma C9_witness :
  servers (db (execute "stop" "alpha" "c-alpha" Example.scheduler_world))
    !! 0%nat
  = Some (mkServer "alpha" "c-alpha" "exited"
            (mkTime (Example.four_o_clock + 1) 0)) /\
  db (execute "start" "beta" "broken" Example.scheduler_world)
  = db Example.scheduler_world.
Proof.
  split.
  - exact (proj1 (C9_status_recorded_iff_lifecycle_call_succeeds
                    Example.scheduler_world "stop" "alpha" "c-alpha" "exited"
                    (StopContainer "c-alpha") eq_refl eq_refl)
             eq_refl 0%nat _ eq_refl).
  - exact (proj2 (C9_status_recorded_iff_lifecycle_call_succeeds
                    Example.scheduler_world "start" "beta" "broken" "running"
                    (StartContainer "broken") eq_refl eq_refl)
             "no such container" eq_refl).
Defined.

End SchedulerTheorems.

(** ** Telemetry collector: CPU percentage *)

Section CpuPercent.

Import Go Stats.

Lemma f64_of_Z_0 : f64_of_Z 0 = f64_zero.
Proof. reflexivity. Qed.

Lemma wrap_u64_diag x : wrap_u64 (x - x) = 0.
Proof. unfold wrap_u64. rewrite Z.sub_diag. reflexivity. Qed.

(** Equal system counters, or equal usage counters, give 0. *)
Lemma calculateCPUPercent_zero_delta stats :
  cpu_system_usage stats = precpu_system_usage stats \/
  cpu_total_usage stats = precpu_total_usage stats ->
  calculateCPUPercent stats = f64_zero.
Proof.
  unfold calculateCPUPercent. intros [-> | ->];
    rewrite wrap_u64_diag, f64_of_Z_0.
  - reflexivity.
  - change (f64_leb f64_zero f64_zero) with true.
    rewrite orb_true_r. reflexivity.
Qed.

(** [online_cpus] reported as 0 counts as 1. *)
Lemma calculateCPUPercent_online_default a b c d m l n :
  calculateCPUPercent (mkDockerStats a b 0 c d m l n)
  = calculateCPUPercent (mkDockerStats a b 1 c d m l n).
Proof. reflexivity. Qed.

(** C3.  The percentage on three inputs.  With usage deltas of
    200000000 and 1000000000 on four CPUs it is 80.0, and with a system
    delta of 0 it is 0.  After a counter reset (usage counter 100 after
    200, system counter 2000 after 1000, one CPU) the unsigned
    subtraction wraps around to 2^64 - 100, the guard [<= 0] does not
    fire, and the result is about 1.8e18 instead of 0. *)
Theorem C3_counter_reset_is_not_guarded :
  calculateCPUPercent (mkDockerStats 200000000 1000000000 4 0 0 0 0 [])
  = f64_of_Z 80 /\
  calculateCPUPercent (mkDockerStats 200000000 5 4 0 5 0 0 []) = f64_zero /\
  wrap_u64 (100 - 200) = 2 ^ 64 - 100 /\
  calculateCPUPercent (mkDockerStats 100 2000 1 200 1000 0 0 [])
  = S754_finite false 7205759403792794 8 /\
  calculateCPUPercent (mkDockerStats 100 2000 1 200 1000 0 0 []) <> f64_zero.
Proof.
  repeat split; try (vm_compute; reflexivity). vm_compute. discriminate.
Qed.

End CpuPercent.

(** ** Telemetry collector: Start and Stop *)

Section StartStop.

Import Go Store Stats Spec.
Context {R : Type} `{Runtime R}.

Lemma cancelled_Start ctx (w : World R) :
  cancelled ctx (Start w) = cancelled ctx w.
Proof.
  unfold cancelled, Start. simpl.
  destruct (decide (ctx < length (contexts w))%nat) as [Hlt | Hge].
  - rewrite lookup_app_l by assumption. reflexivity.
  - rewrite (lookup_ge_None_2 (contexts w)) by lia.
    destruct (decide (ctx = length (contexts w))) as [-> | Hne].
    + rewrite list_lookup_middle by reflexivity. reflexivity.
    + rewrite lookup_ge_None_2; [reflexivity|]. rewrite length_app. simpl. lia.
Qed.

Lemma polling_Start (w : World R) :
  polling (Start w) = polling w ++ [length (contexts w)].
Proof.
  unfold polling. change (loops (Start w)) with (loops w ++ [length (contexts w)]).
  rewrite filter_app. f_equal.
  - apply list_filter_iff. intros ctx. rewrite cancelled_Start. reflexivity.
  - rewrite filter_cons_True; [reflexivity|].
    rewrite cancelled_Start. unfold cancelled.
    rewrite lookup_ge_None_2; [reflexivity | lia].
Qed.

Lemma contexts_Start (w : World R) :
  contexts (Start w) = contexts w ++ [false].
Proof. reflexivity. Qed.

Lemma orphaned_run_call n c (w : World R) :
  orphaned n w -> orphaned n (run_call c w).
Proof.
  intros (Hctx & Hloop & k & Hk & Hlt).
  pose proof (lookup_lt_Some _ _ _ Hctx) as Hn.
  destruct c; simpl.
  - split; [|split].
    + rewrite contexts_Start, lookup_app_l by assumption. assumption.
    + apply in_or_app. by left.
    + eexists. split; [reflexivity|]. assumption.
  - unfold Stop. rewrite Hk. unfold orphaned. simpl. split; [|split].
    + rewrite list_lookup_insert_ne by lia. assumption.
    + assumption.
    + eauto.
Qed.

Lemma orphaned_run_calls n cs (w : World R) :
  orphaned n w -> orphaned n (run_calls cs w).
Proof.
  revert w. induction cs as [|c cs IH]; intros w Ho; simpl; [assumption|].
  apply IH, orphaned_run_call, Ho.
Qed.

Lemma orphaned_polling n (w : World R) : orphaned n w -> In n (polling w).
Proof.
  intros (Hctx & Hloop & _). unfold polling.
  apply list_elem_of_In, list_elem_of_filter. split.
  - unfold cancelled. rewrite Hctx. reflexivity.
  - apply list_elem_of_In. assumption.
Qed.

End StartStop.

Section StartStopTheorems.

Import Go Store Stats Spec.

Lemma polling_ext {R : Type} `{Runtime R} (w1 w2 : World R) (l : list nat) :
  (forall ctx, In ctx l -> cancelled ctx w1 = cancelled ctx w2) ->
  filter (fun ctx => cancelled ctx w1 = false) l
  = filter (fun ctx => cancelled ctx w2 = false) l.
Proof.
  induction l as [|x l IH]; intros Hext; [reflexivity|].
  rewrite !filter_cons, (Hext x (or_introl eq_refl)).
  rewrite IH by (intros; apply Hext; by right). reflexivity.
Qed.

Lemma cancelled_Stop {R : Type} `{Runtime R} ctx k (w : World R) :
  cancel w = Some k -> (k < length (contexts w))%nat ->
  cancelled ctx (Stop w) = if (ctx =? k)%nat then true else cancelled ctx w.
Proof.
  intros Hk Hlt. unfold cancelled, Stop. rewrite Hk. simpl.
  destruct (ctx =? k)%nat eqn:E.
  - apply Nat.eqb_eq in E. subst ctx.
    rewrite list_lookup_insert_eq by assumption. reflexivity.
  - apply Nat.eqb_neq in E. rewrite list_lookup_insert_ne by lia. reflexivity.
Qed.

Lemma loops_Stop {R : Type} `{Runtime R} (w : World R) :
  loops (Stop w) = loops w.
Proof. unfold Stop. destruct (cancel w); reflexivity. Qed.

(** C7 fails on the collector of the example: a second [Start] leaves
    two polling loops, and after [Stop] the loop of the first [Start]
    is still polling. *)
Lemma C7_counterexample :
  let started := Start Example.collector_world in
  polling started = [0%nat] /\
  polling (Start started) = [0%nat; 1%nat] /\
  length (polling (Start started)) <> 1%nat /\
  polling (Stop (Start started)) = [0%nat].
Proof. vm_compute. repeat split; try reflexivity. discriminate. Qed.

(** C7, amended.  [Start] is not idempotent: each call adds a polling
    loop on a fresh context and overwrites the stored cancel function.
    After two calls two more loops are polling; [Stop] then ends the
    loop of the second call only, and no later sequence of [Start] and
    [Stop] calls can end the loop of the first, whose every turn goes
    on running a tick.  [Start] itself makes no call on the store or on
    the container runtime: it returns once the loop is registered. *)
Theorem C7_second_start_adds_a_loop_that_stop_cannot_reach
  {R : Type} `{Runtime R} (w : World R) :
  Forall (fun ctx => (ctx < length (contexts w))%nat) (loops w) ->
  let n := length (contexts w) in
  polling (Start w) = polling w ++ [n] /\
  polling (Start (Start w)) = polling w ++ [n; S n] /\
  polling (Stop (Start (Start w))) = polling w ++ [n] /\
  (forall calls, In n (polling (run_calls calls (Start (Start w))))) /\
  (forall calls,
      turn n (run_calls calls (Start (Start w)))
      = collect (run_calls calls (Start (Start w)))) /\
  (db (Start w) = db w /\ rt (Start w) = rt w /\
   requests (Start w) = requests w).
Proof.
  intros Hwf n.
  assert (Horphan : forall calls,
             orphaned n (run_calls calls (Start (Start w)))).
  { intros calls. apply orphaned_run_calls. split; [|split].
    - rewrite !contexts_Start.
      rewrite lookup_app_l by (rewrite length_app; simpl; lia).
      apply list_lookup_middle. reflexivity.
    - simpl. apply in_or_app. left. apply in_or_app. right. by left.
    - eexists. split; [reflexivity|].
      rewrite contexts_Start, length_app. simpl. unfold n. lia. }
  split; [|split; [|split; [|split; [|split]]]].
  - apply polling_Start.
  - rewrite !polling_Start, contexts_Start, length_app, <- app_assoc. simpl.
    replace (length (contexts w) + 1)%nat with (S n) by (unfold n; lia).
    reflexivity.
  - assert (Hstop : forall ctx,
               cancelled ctx (Stop (Start (Start w)))
               = if (ctx =? S n)%nat then true else cancelled ctx w).
    { intros ctx. rewrite (cancelled_Stop ctx (S n)), !cancelled_Start.
      - reflexivity.
      - simpl. f_equal. rewrite length_app. simpl. unfold n. lia.
      - simpl. rewrite !length_app. simpl. unfold n. lia. }
    unfold polling. rewrite loops_Stop.
    replace (loops (Start (Start w))) with ((loops w ++ [n]) ++ [S n])
      by (simpl; rewrite length_app; simpl; do 3 f_equal; unfold n; lia).
    rewrite <- app_assoc, filter_app. f_equal.
    + apply polling_ext. intros ctx Hctx.
      rewrite Forall_forall in Hwf.
      specialize (Hwf ctx (proj2 (list_elem_of_In _ _) Hctx)).
      rewrite Hstop. destruct (ctx =? S n)%nat eqn:E; [|reflexivity].
      apply Nat.eqb_eq in E. unfold n in E. lia.
    + simpl. rewrite filter_cons_True.
      2:{ rewrite Hstop. destruct (n =? S n)%nat eqn:E.
          - apply Nat.eqb_eq in E. lia.
          - unfold cancelled. rewrite lookup_ge_None_2; [reflexivity|].
            unfold n. lia. }
      rewrite filter_cons_False; [reflexivity|].
      rewrite Hstop, Nat.eqb_refl. discriminate.
  - intros calls. apply orphaned_polling, Horphan.
  - intros calls. destruct (Horphan calls) as (Hctx & _).
    unfold turn, cancelled. rewrite Hctx. reflexivity.
  - repeat split; reflexivity.
Qed.

Lemma C7_witness :
  polling (Stop (Start (Start Example.collector_world))) = [0%nat] /\
  In 0%nat (polling (run_calls [CallStop; CallStart; CallStop]
                       (Start (Start Example.collector_world)))).
Proof.
  pose proof (C7_second_start_adds_a_loop_that_stop_cannot_reach
                Example.collector_world (Forall_nil_2 _))
    as (_ & _ & Hstop & Hcalls & _ & _).
  split; [exact Hstop | exact (Hcalls _)].
Defined.

End StartStopTheorems.

(** ** Telemetry collector: fan-out *)

Section FanOut.

Import Go Store Stats Spec.
Context {R : Type} `{Runtime R}.

Lemma try_send_ok ch v cs :
  all_open [ch] cs -> exists cs', try_send ch v cs = Ok cs'.
Proof.
  intros Hopen. unfold try_send.
  destruct (cs !! ch) as [c|] eqn:Hc; [|eauto].
  rewrite (Hopen ch c (or_introl eq_refl) Hc).
  destruct (length (buf c) <? cap c)%nat; eauto.
Qed.

Lemma try_send_other ch v cs cs' c :
  try_send ch v cs = Ok cs' -> c <> ch -> cs' !! c = cs !! c.
Proof.
  unfold try_send. intros Hs Hne.
  destruct (cs !! ch) as [x|]; [|congruence].
  destruct (closed x); [discriminate|].
  destruct (length (buf x) <? cap x)%nat; injection Hs as <-;
    [apply list_lookup_insert_ne; congruence | reflexivity].
Qed.

Lemma try_send_closed ch v cs cs' c :
  try_send ch v cs = Ok cs' ->
  closed <$> cs' !! c = closed <$> cs !! c.
Proof.
  intros Hs. destruct (decide (c = ch)) as [E | Hne];
    [subst c | by rewrite (try_send_other _ _ _ _ _ Hs Hne)].
  unfold try_send in Hs. destruct (cs !! ch) as [x|] eqn:Hx; [|congruence].
  destruct (closed x) eqn:Hcl; [discriminate|].
  destruct (length (buf x) <? cap x)%nat; injection Hs as <-.
  - rewrite list_lookup_insert_eq by (eapply lookup_lt_Some; eassumption).
    simpl. congruence.
  - rewrite Hx. reflexivity.
Qed.

(** The single slot: an empty one takes the sample, a full one keeps
    what it holds. *)
Lemma try_send_slot ch v cs cs' b :
  try_send ch v cs = Ok cs' ->
  cs !! ch = Some (mkChan 1 b false) ->
  cs' !! ch = Some (mkChan 1 (match b with [] => [v] | _ => b end) false).
Proof.
  unfold try_send. intros Hs Hc. rewrite Hc in Hs. simpl in Hs.
  pose proof (lookup_lt_Some _ _ _ Hc) as Hlt.
  destruct b as [|x [|y b]]; simpl in Hs; injection Hs as <-;
    [apply list_lookup_insert_eq; assumption | assumption..].
Qed.

Lemma all_open_step ch v cs cs' chs :
  try_send ch v cs = Ok cs' -> all_open chs cs -> all_open chs cs'.
Proof.
  intros Hs Hopen c chan Hin Hc.
  pose proof (try_send_closed _ _ _ _ c Hs) as Hcl. rewrite Hc in Hcl.
  destruct (cs !! c) as [x|] eqn:Hx; [|discriminate].
  simpl in Hcl. injection Hcl as ->. eapply Hopen; eassumption.
Qed.

Lemma fanout_ok chs v cs :
  all_open chs cs -> exists cs', fanout chs v cs = Ok cs'.
Proof.
  revert cs. induction chs as [|ch chs IH]; intros cs Hopen; simpl; [eauto|].
  destruct (try_send_ok ch v cs) as [cs1 Hs].
  { intros c chan [<- | []]. apply Hopen. by left. }
  rewrite Hs. unfold_outcome. apply IH.
  eapply all_open_step; [eassumption|]. intros c chan Hin. apply Hopen. by right.
Qed.

Lemma fanout_other chs v cs cs' c :
  fanout chs v cs = Ok cs' -> ~ In c chs -> cs' !! c = cs !! c.
Proof.
  revert cs. induction chs as [|ch chs IH]; intros cs Hf Hnin; simpl in Hf.
  - by injection Hf as <-.
  - unfold_outcome. destruct (try_send ch v cs) as [cs1| |] eqn:Hs;
      try discriminate.
    rewrite (IH _ Hf) by (intros Hin; apply Hnin; by right).
    eapply try_send_other; [eassumption|]. intros ->. apply Hnin. by left.
Qed.

Lemma fanout_closed chs v cs cs' c :
  fanout chs v cs = Ok cs' ->
  closed <$> cs' !! c = closed <$> cs !! c.
Proof.
  revert cs. induction chs as [|ch chs IH]; intros cs Hf; simpl in Hf.
  - by injection Hf as <-.
  - unfold_outcome. destruct (try_send ch v cs) as [cs1| |] eqn:Hs;
      try discriminate.
    rewrite (IH _ Hf). eapply try_send_closed. eassumption.
Qed.

Lemma fanout_slot chs v cs cs' ch b :
  fanout chs v cs = Ok cs' ->
  cs !! ch = Some (mkChan 1 b false) ->
  cs' !! ch
  = Some (mkChan 1 (if decide (ch ∈ chs)
                    then match b with [] => [v] | _ => b end
                    else b) false).
Proof.
  revert cs b. induction chs as [|c chs IH]; intros cs b Hf Hc; simpl in Hf.
  - injection Hf as <-. rewrite decide_False by apply not_elem_of_nil.
    assumption.
  - unfold_outcome. destruct (try_send c v cs) as [cs1| |] eqn:Hs;
      try discriminate.
    destruct (decide (c = ch)) as [E | Hne].
    + subst c. rewrite (IH _ _ Hf (try_send_slot _ _ _ _ _ Hs Hc)).
      rewrite (decide_True (P := ch ∈ ch :: chs)) by apply list_elem_of_here.
      destruct (decide (ch ∈ chs)); destruct b; reflexivity.
    + assert (Hc1 : cs1 !! ch = Some (mkChan 1 b false))
        by (rewrite (try_send_other _ _ _ _ ch Hs); [assumption | congruence]).
      rewrite (IH _ _ Hf Hc1).
      destruct (decide (ch ∈ chs)) as [Hin | Hnin].
      * rewrite decide_True by (by apply list_elem_of_further). reflexivity.
      * rewrite decide_False; [reflexivity|].
        rewrite not_elem_of_cons. split; [congruence | assumption].
Qed.

Lemma listeners_of_Subscribe id (w : World R) :
  listeners_of id (snd (Subscribe id w))
  = listeners_of id w ++ [length (chans w)].
Proof.
  unfold Subscribe, listeners_of. simpl. rewrite lookup_insert_eq. reflexivity.
Qed.

Lemma publish_ok id v (w : World R) :
  all_open (listeners_of id w) (chans w) ->
  exists cs, fanout (listeners_of id w) v (chans w) = Ok cs /\
             publish id v w
             = Ok (set_chans cs (set_latest (<[id := v]> (latest w)) w)).
Proof.
  intros Hopen. destruct (fanout_ok _ v _ Hopen) as [cs Hcs].
  exists cs. split; [assumption|]. unfold publish.
  change (listeners_of id (set_latest (<[id:=v]> (latest w)) w))
    with (listeners_of id w).
  change (chans (set_latest (<[id:=v]> (latest w)) w)) with (chans w).
  rewrite Hcs. reflexivity.
Qed.

End FanOut.

Section FanOutTheorems.

Import Go Store Stats Spec.

(** C1 fails on the collector of the example: a subscriber of "alpha"
    that never receives sees, after two ticks, the sample of the first
    tick; the sample of the second tick, which is the cached latest
    one, is not what the conduit yields. *)
Lemma C1_counterexample :
  exists w1 w2 first second,
    let ch := fst (Subscribe "alpha" Example.collector_world) in
    collect (snd (Subscribe "alpha" Example.collector_world)) = Ok w1 /\
    collect w1 = Ok w2 /\
    Latest "alpha" w1 = Some first /\
    Latest "alpha" w2 = Some second /\
    MemoryBytes first <> MemoryBytes second /\
    fst (recv ch w2) = Received first /\
    fst (recv ch w2) <> Received second.
Proof.
  do 4 eexists. cbv zeta.
  split; [vm_compute; reflexivity|].
  split; [vm_compute; reflexivity|].
  split; [vm_compute; reflexivity|].
  split; [vm_compute; reflexivity|].
  split; [vm_compute; discriminate|].
  split; [vm_compute; reflexivity|].
  vm_compute. discriminate.
Qed.

(** C1, amended.  For a conduit returned by [Subscribe] that is never
    drained, after the collector publishes two consecutive samples for
    that target the conduit holds only the first of them: the second
    finds the single slot occupied and is dropped, not queued, so that
    receiving yields the first sample and nothing is left after it. *)
Theorem C1_undrained_conduit_keeps_the_first_sample
  {R : Type} `{Runtime R} (w : World R) (id : string) (s1 s2 : Stats) :
  all_open (listeners_of id w) (chans w) ->
  let ch := fst (Subscribe id w) in
  exists w1 w2 w3,
    publish id s1 (snd (Subscribe id w)) = Ok w1 /\
    publish id s2 w1 = Ok w2 /\
    chans w2 !! ch = Some (mkChan 1 [s1] false) /\
    recv ch w2 = (Received s1, w3) /\
    fst (recv ch w3) = RecvBlocks.
Proof.
  intros Hopen ch.
  set (w0 := snd (Subscribe id w)).
  assert (Hch : ch = length (chans w)) by reflexivity.
  assert (Hls : listeners_of id w0 = listeners_of id w ++ [ch])
    by apply listeners_of_Subscribe.
  assert (Hnew : chans w0 !! ch = Some (mkChan 1 [] false)).
  { unfold w0, Subscribe. simpl. rewrite Hch.
    apply list_lookup_middle. reflexivity. }
  assert (Hopen0 : all_open (listeners_of id w0) (chans w0)).
  { rewrite Hls. intros c chan Hin Hc. apply in_app_or in Hin as [Hin | [<- | []]].
    - unfold w0, Subscribe in Hc. simpl in Hc.
      apply lookup_app_Some in Hc as [Hc | [Hge Hc]].
      + eapply Hopen; eassumption.
      + destruct (c - length (chans w))%nat as [|k]; simpl in Hc; [|discriminate].
        by injection Hc as <-.
    - rewrite Hnew in Hc. by injection Hc as <-. }
  destruct (publish_ok id s1 w0 Hopen0) as (cs1 & Hf1 & Hp1).
  set (w1 := set_chans cs1 (set_latest (<[id := s1]> (latest w0)) w0)) in *.
  assert (Hin : ch ∈ listeners_of id w0).
  { rewrite Hls. apply list_elem_of_In, in_or_app. right. by left. }
  pose proof (fanout_slot _ _ _ _ ch [] Hf1 Hnew) as Hslot1.
  rewrite decide_True in Hslot1 by assumption.
  assert (Hopen1 : all_open (listeners_of id w1) (chans w1)).
  { intros c chan Hc1 Hc2. simpl in Hc2.
    pose proof (fanout_closed _ _ _ _ c Hf1) as Hcl. rewrite Hc2 in Hcl.
    destruct (chans w0 !! c) as [x|] eqn:Hx; [|discriminate].
    simpl in Hcl. injection Hcl as ->. eapply Hopen0; eassumption. }
  destruct (publish_ok id s2 w1 Hopen1) as (cs2 & Hf2 & Hp2).
  pose proof (fanout_slot _ _ _ _ ch [s1] Hf2 Hslot1) as Hslot2.
  change (listeners_of id w1) with (listeners_of id w0) in Hslot2.
  rewrite decide_True in Hslot2 by assumption.
  eexists _, _, _. split; [exact Hp1|]. split; [exact Hp2|].
  split; [exact Hslot2|]. split.
  - unfold recv. simpl. rewrite Hslot2. reflexivity.
  - unfold recv. simpl.
    rewrite list_lookup_insert_eq by (eapply lookup_lt_Some; eassumption).
    reflexivity.
Qed.

Lemma C1_witness :
  exists w2,
    (w1 ← publish "alpha" (Example.sample 1)
            (snd (Subscribe "alpha" Example.collector_world));
     publish "alpha" (Example.sample 2) w1) = Ok w2 /\
    fst (recv 0%nat w2) = Received (Example.sample 1).
Proof.
  destruct (C1_undrained_conduit_keeps_the_first_sample
              Example.collector_world "alpha"
              (Example.sample 1) (Example.sample 2))
    as (w1 & w2 & w3 & Hp1 & Hp2 & _ & Hrecv & _).
  { intros c chan []. }
  exists w2. split.
  - rewrite Hp1. exact Hp2.
  - change (fst (Subscribe "alpha" Example.collector_world)) with 0%nat in Hrecv.
    rewrite Hrecv. reflexivity.
Defined.

End FanOutTheorems.

(** ** Telemetry collector: one tick *)

Section Collect.

Import Go Store Stats Spec.
Context {R : Type} `{Runtime R}.

Lemma running_servers_live (d : DB) id cid :
  In (id, cid) (running_servers d) <-> live d id cid.
Proof.
  unfold running_servers, live, is_running. rewrite in_map_iff. split.
  - intros (srv & [= <- <-] & Hin). apply List.filter_In in Hin as [Hin Hrun].
    apply andb_prop in Hrun as [Hst Hcid].
    apply String.eqb_eq in Hst. apply negb_true_iff, String.eqb_neq in Hcid.
    exists srv. auto.
  - intros (srv & Hin & <- & <- & Hst & Hcid). exists srv.
    split; [reflexivity|]. apply List.filter_In. split; [assumption|].
    apply andb_true_intro. split; [by apply String.eqb_eq|].
    by apply negb_true_iff, String.eqb_neq.
Qed.

Lemma publish_effects id v (w w' : World R) :
  publish id v w = Ok w' ->
  db w' = db w /\ rt w' = rt w /\ requests w' = requests w /\
  listeners w' = listeners w /\
  latest w' = <[id := v]> (latest w) /\
  (forall ch, ~ In ch (listeners_of id w) -> chans w' !! ch = chans w !! ch).
Proof.
  unfold publish. unfold_outcome.
  destruct (fanout _ v _) as [cs| |] eqn:Hf; try discriminate.
  intros [= <-]. simpl. repeat split.
  intros ch Hnin. eapply fanout_other; eassumption.
Qed.

Lemma fetchStats_ServerID id cid r stats r' :
  fetchStats id cid r = (inr stats, r') -> ServerID stats = id.
Proof.
  unfold fetchStats. destruct (ContainerStatsOnce cid r) as [[e|ds] r1];
    [discriminate|].
  destruct (fold_left _ _ _). intros [= <- _]. reflexivity.
Qed.

Lemma collect_one_effects id cid (w w' : World R) :
  collect_one (id, cid) w = Ok w' ->
  servers (db w') = servers (db w) /\ listeners w' = listeners w /\
  requests w' = requests w ++ [cid] /\
  (forall row, In row (stats (db w')) ->
               In row (stats (db w)) \/ row_server_id row = id) /\
  (forall k, k <> id -> latest w' !! k = latest w !! k) /\
  (forall ch, ~ In ch (listeners_of id w) -> chans w' !! ch = chans w !! ch).
Proof.
  unfold collect_one. simpl.
  destruct (fetchStats id cid (rt w)) as [[e|stats] r'] eqn:Hfetch.
  - intros [= <-]. simpl. repeat split; auto.
  - intros Hp. apply publish_effects in Hp
      as (Hdb & _ & Hreq & Hls & Hlat & Hch).
    rewrite Hdb, Hreq, Hls, Hlat. simpl. repeat split.
    + intros row Hin. apply in_app_or in Hin as [Hin | [<- | []]]; [by left|].
      right. simpl. eapply fetchStats_ServerID. eassumption.
    + intros k Hk. apply lookup_insert_ne. congruence.
    + exact Hch.
Qed.

Lemma collect_all_effects srvs (w w' : World R) :
  collect_all srvs w = Ok w' ->
  servers (db w') = servers (db w) /\ listeners w' = listeners w /\
  requests w' = requests w ++ map snd srvs /\
  (forall row, In row (stats (db w')) ->
               In row (stats (db w)) \/ In (row_server_id row) (map fst srvs)) /\
  (forall k, ~ In k (map fst srvs) -> latest w' !! k = latest w !! k) /\
  (forall ch, (forall k, In k (map fst srvs) -> ~ In ch (listeners_of k w)) ->
              chans w' !! ch = chans w !! ch).
Proof.
  revert w. induction srvs as [|[id cid] srvs IH]; intros w Hc; simpl in Hc.
  - injection Hc as <-. simpl. rewrite app_nil_r. repeat split; auto.
  - unfold_outcome.
    destruct (collect_one (id, cid) w) as [w1| |] eqn:H1; try discriminate.
    apply collect_one_effects in H1 as (Hs1 & Hl1 & Hr1 & Hrow1 & Hlat1 & Hch1).
    apply IH in Hc as (Hs & Hl & Hr & Hrow & Hlat & Hch).
    rewrite Hs, Hl, Hr, Hs1, Hl1, Hr1, <- app_assoc. simpl.
    repeat split.
    + intros row Hin. apply Hrow in Hin as [Hin | Hin]; [|auto].
      apply Hrow1 in Hin as [Hin | Hin]; auto.
    + intros k Hk. rewrite Hlat, Hlat1; [reflexivity | |]; intuition.
    + intros ch Hk. rewrite Hch, Hch1; [reflexivity | |].
      * apply Hk. by left.
      * intros k Hin. unfold listeners_of. rewrite Hl1. apply Hk. by right.
Qed.

(** A tick goes through when no listener holds a closed channel. *)
Lemma collect_all_total srvs (w : World R) :
  (forall id, all_open (listeners_of id w) (chans w)) ->
  exists w', collect_all srvs w = Ok w'.
Proof.
  revert w. induction srvs as [|[id cid] srvs IH]; intros w Hopen; simpl;
    [eauto|].
  assert (H1 : exists w1, collect_one (id, cid) w = Ok w1 /\
                          forall k, all_open (listeners_of k w1) (chans w1)).
  { unfold collect_one. simpl.
    destruct (fetchStats id cid (rt w)) as [[e|stats] r'].
    - eexists. split; [reflexivity|]. exact Hopen.
    - match goal with
      | |- context [publish id stats ?w0] =>
          destruct (publish_ok id stats w0 (Hopen id)) as (cs & Hf & ->)
      end.
      eexists. split; [reflexivity|]. intros k c chan Hin Hc. simpl in Hc.
      pose proof (fanout_closed _ _ _ _ c Hf) as Hcl. rewrite Hc in Hcl.
      simpl in Hcl.
      destruct (chans w !! c) as [x|] eqn:Hx; [|discriminate].
      simpl in Hcl. injection Hcl as ->. eapply (Hopen k); eassumption. }
  destruct H1 as (w1 & -> & Hopen1). unfold_outcome. apply IH, Hopen1.
Qed.

Lemma collect_total (w : World R) :
  (forall id, all_open (listeners_of id w) (chans w)) ->
  exists w', collect w = Ok w'.
Proof.
  intros Hopen. unfold collect.
  destruct (collect_all_total (running_servers (db w)) w Hopen) as [w1 ->].
  unfold_outcome. eauto.
Qed.

End Collect.

Section CollectTheorems.

Import Go Store Stats Spec.

(** C8.  In a tick, the metrics capability is asked only for the
    containers of targets that the store holds as running with a
    non-empty container id when the tick starts; a stats row is added
    only for such a target; the cached latest sample of any other
    target is left as it was; and so is every channel that is not
    subscribed to such a target. *)
Theorem C8_only_running_targets_are_sampled
  {R : Type} `{Runtime R} (w w' : World R) :
  collect w = Ok w' ->
  (exists new, requests w' = requests w ++ new /\
               forall cid, In cid new -> exists id, live (db w) id cid) /\
  (forall row, In row (stats (db w')) ->
               In row (stats (db w)) \/
               exists cid, live (db w) (row_server_id row) cid) /\
  (forall id, (forall cid, ~ live (db w) id cid) ->
              Latest id w' = Latest id w) /\
  (forall ch, (forall id cid, live (db w) id cid ->
                              ~ In ch (listeners_of id w)) ->
              chans w' !! ch = chans w !! ch).
Proof.
  unfold collect. unfold_outcome.
  destruct (collect_all (running_servers (db w)) w) as [w1| |] eqn:Hall;
    try discriminate.
  intros [= <-]. simpl.
  apply collect_all_effects in Hall as (_ & _ & Hreq & Hrow & Hlat & Hch).
  assert (Hfst : forall id, In id (map fst (running_servers (db w))) ->
                            exists cid, live (db w) id cid).
  { intros id Hin. apply in_map_iff in Hin as ([id' cid] & <- & Hin).
    exists cid. by apply running_servers_live. }
  split; [|split; [|split]].
  - eexists. split; [exact Hreq|]. intros cid Hin.
    apply in_map_iff in Hin as ([id cid'] & <- & Hin).
    exists id. by apply running_servers_live.
  - intros row Hin. apply list_elem_of_In, list_elem_of_filter in Hin as [_ Hin].
    apply list_elem_of_In, Hrow in Hin as [Hin | Hin]; [by left | right; auto].
  - intros id Hid. apply Hlat. intros Hin.
    destruct (Hfst id Hin) as [cid Hlive]. exact (Hid cid Hlive).
  - intros ch Hno. apply Hch. intros id Hin.
    destruct (Hfst id Hin) as [cid Hlive]. exact (Hno id cid Hlive).
Qed.

Lemma C8_witness :
  let w := snd (Subscribe "beta" Example.collector_world) in
  exists w',
    collect w = Ok w' /\
    Latest "beta" w' = Latest "beta" w /\
    chans w' !! 0%nat = chans w !! 0%nat.
Proof.
  intros w.
  destruct (collect_total w) as [w' Hw'].
  { intros id c chan _ Hc. unfold w in Hc. simpl in Hc.
    destruct c as [|c]; simpl in Hc; [|discriminate].
    by injection Hc as <-. }
  exists w'. split; [exact Hw'|].
  destruct (C8_only_running_targets_are_sampled w w' Hw')
    as (_ & _ & Hlatest & Hchans).
  split.
  - apply Hlatest.
    intros cid (srv & [<- | [<- | []]] & Hid & _ & Hst & _); discriminate.
  - apply Hchans.
    intros id cid (srv & [<- | [<- | []]] & <- & _ & Hst & _);
      [intros [] | discriminate].
Defined.

End CollectTheorems.

(** ** Console bridge *)

Section ConsoleFacts.

Import Console Spec.

Lemma lor_mul_pow2 a s b :
  0 <= s -> 0 <= b < 2 ^ s -> Z.lor (a * 2 ^ s) b = a * 2 ^ s + b.
Proof.
  intros Hs Hb.
  assert (Hland : Z.land (a * 2 ^ s) b = 0).
  { apply Z.bits_inj'. intros k Hk. rewrite Z.land_spec, Z.bits_0.
    destruct (Z.lt_ge_cases k s) as [Hlt | Hge].
    - rewrite Z.mul_pow2_bits_low by lia. reflexivity.
    - destruct (Z.eq_dec b 0) as [-> | Hne].
      + rewrite Z.bits_0. apply andb_false_r.
      + rewrite (Z.bits_above_log2 b k); [apply andb_false_r | lia |].
        assert (Z.log2 b < s) by (apply Z.log2_lt_pow2; lia). lia. }
  rewrite <- Z.lxor_lor by assumption.
  symmetry. apply Z.add_nocarry_lxor. assumption.
Qed.

Lemma to_N_byte_of z : Z.of_N (Byte.to_N (byte_of z)) = z mod 256.
Proof.
  unfold byte_of. pose proof (Z.mod_pos_bound z 256 ltac:(lia)) as Hz.
  destruct (Byte.of_N (Z.to_N (z mod 256))) as [b|] eqn:Hb.
  - apply Byte.to_of_N in Hb. simpl. rewrite Hb. lia.
  - apply Byte.of_N_None_iff in Hb. lia.
Qed.

Lemma Uint32_be32 n rest :
  0 <= n < 2 ^ 32 -> Uint32 (be32 n ++ rest) = n.
Proof.
  intros Hn. unfold be32, Uint32. simpl app. cbv beta iota.
  rewrite !to_N_byte_of.
  rewrite !Z.shiftl_mul_pow2 by lia.
  set (b0 := (n / 2 ^ 24) mod 256). set (b1 := (n / 2 ^ 16) mod 256).
  set (b2 := (n / 2 ^ 8) mod 256). set (b3 := n mod 256).
  assert (H0 : 0 <= b0 < 256) by (apply Z.mod_pos_bound; lia).
  assert (H1 : 0 <= b1 < 256) by (apply Z.mod_pos_bound; lia).
  assert (H2 : 0 <= b2 < 256) by (apply Z.mod_pos_bound; lia).
  assert (H3 : 0 <= b3 < 256) by (apply Z.mod_pos_bound; lia).
  rewrite (lor_mul_pow2 b0 24) by lia.
  replace (b0 * 2 ^ 24 + b1 * 2 ^ 16) with ((b0 * 2 ^ 8 + b1) * 2 ^ 16) by ring.
  rewrite (lor_mul_pow2 _ 16) by lia.
  replace ((b0 * 2 ^ 8 + b1) * 2 ^ 16 + b2 * 2 ^ 8)
    with (((b0 * 2 ^ 8 + b1) * 2 ^ 8 + b2) * 2 ^ 8) by ring.
  rewrite (lor_mul_pow2 _ 8) by lia.
  clear H0 H1 H2 H3. subst b0 b1 b2 b3. Z.div_mod_to_equations. lia.
Qed.

Lemma pump_step s :
  pump s = match frame s with
           | inl s' => pump s'
           | inr s' => s'
           end.
Proof.
  funelim (pump s);
    match goal with
    | Hframe : frame _ = _ |- _ => rewrite Hframe
    end; reflexivity.
Qed.

End ConsoleFacts.

Section ConsoleTheorems.

Import Console Spec.

Lemma ReadFull_app x rest fin :
  ReadFull (length x) (mkReader (x ++ rest) fin)
  = (x, None, mkReader rest fin).
Proof.
  unfold ReadFull. cbn [pending final].
  destruct (length x <=? length (x ++ rest))%nat eqn:E.
  - rewrite take_app_length, drop_app_length. reflexivity.
  - apply Nat.leb_gt in E. rewrite length_app in E. lia.
Qed.

Lemma frame_encode f rest fin snt lg :
  Z.of_nat (length (payload f)) < 2 ^ 32 ->
  frame (mkSession (mkReader (encode f ++ rest) fin) (mkConn snt None) lg)
  = inl (mkSession (mkReader rest fin)
           (mkConn (snt ++ forwarded [f]) None) lg).
Proof.
  intros Hlen. destruct f as [t [[r1 r2] r3] p]. cbn [payload] in Hlen.
  set (n := Z.of_nat (length p)) in *.
  set (header := [t; r1; r2; r3] ++ be32 n).
  assert (Henc : encode (mkFrame t (r1, r2, r3) p) ++ rest
                 = header ++ (p ++ rest)).
  { unfold encode, header. cbn [reserved stream_type payload].
    fold n. rewrite <- !app_assoc. reflexivity. }
  unfold frame. cbn [logReader conn log]. rewrite Henc.
  change 8%nat with (length header). rewrite ReadFull_app.
  change (drop 4 header) with (be32 n).
  rewrite <- (app_nil_r (be32 n)), Uint32_be32 by lia.
  unfold forwarded. cbn [flat_map payload].
  destruct p as [|b p].
  - change (n =? 0) with true. cbv iota. rewrite !app_nil_r. reflexivity.
  - assert (Hn : (n =? 0) = false) by (apply Z.eqb_neq; unfold n; simpl; lia).
    rewrite Hn. unfold n. rewrite Nat2Z.id, ReadFull_app.
    unfold WriteMessage. cbn [quota sent]. rewrite app_nil_r. reflexivity.
Qed.

Lemma frame_short tail fin c lg :
  (length tail < 8)%nat ->
  frame (mkSession (mkReader tail fin) c lg)
  = inr (mkSession (mkReader [] fin) c
           (log_unless_eof LogHeaderRead (short_read tail fin) lg)).
Proof.
  intros Hlen. unfold frame, ReadFull. cbn [logReader pending final conn log].
  destruct (8 <=? length tail)%nat eqn:E; [apply Nat.leb_le in E; lia|].
  destruct tail; [reflexivity | destruct fin; reflexivity].
Qed.

Lemma forwarded_cons f frames :
  forwarded (f :: frames) = forwarded [f] ++ forwarded frames.
Proof. unfold forwarded. simpl. rewrite app_nil_r. reflexivity. Qed.

(** C6.  On a log stream made of frames (an 8-byte header, whose last
    four bytes give the length of the payload, most significant first,
    then the payload), followed by fewer than eight bytes, the non-TTY
    pump writes to the client exactly the non-empty payloads, in
    order, and no header byte; it stops at the short header read,
    which is logged unless the stream ended cleanly on a frame
    boundary.  The stream of the example, a frame "hello" of type 1
    and a frame "err" of type 2, gives the two messages "hello" and
    "err". *)
Theorem C6_non_tty_pump_forwards_exactly_the_payloads
  (frames : list Frame) (tail : bytes) (fin : io_error)
  (snt : list bytes) (lg : list log_entry) :
  Forall (fun f => Z.of_nat (length (payload f)) < 2 ^ 32) frames ->
  (length tail < 8)%nat ->
  pump (mkSession (mkReader (flat_map encode frames ++ tail) fin)
          (mkConn snt None) lg)
  = mkSession (mkReader [] fin) (mkConn (snt ++ forwarded frames) None)
      (log_unless_eof LogHeaderRead (short_read tail fin) lg) /\
  log_unless_eof LogHeaderRead (short_read [] EOF) lg = lg /\
  pump (mkSession
          (mkReader
             ([Byte.x01; Byte.x00; Byte.x00; Byte.x00;
               Byte.x00; Byte.x00; Byte.x00; Byte.x05]
              ++ list_byte_of_string "hello"
              ++ [Byte.x02; Byte.x00; Byte.x00; Byte.x00;
                  Byte.x00; Byte.x00; Byte.x00; Byte.x03]
              ++ list_byte_of_string "err") EOF)
          (mkConn [] None) [])
  = mkSession (mkReader [] EOF)
      (mkConn [list_byte_of_string "hello"; list_byte_of_string "err"] None)
      [].
Proof.
  intros Hframes Htail. split; [|split; [reflexivity|]].
  - revert snt. induction Hframes as [|f frames Hf _ IH]; intros snt.
    + change (flat_map encode [] ++ tail) with tail.
      rewrite pump_step, frame_short by assumption.
      unfold forwarded. cbn [flat_map]. rewrite app_nil_r. reflexivity.
    + cbn [flat_map]. rewrite <- app_assoc.
      rewrite pump_step, frame_encode by assumption.
      rewrite IH, (forwarded_cons f frames), app_assoc. reflexivity.
  - vm_compute. reflexivity.
Qed.

Lemma C6_witness :
  pump (mkSession
          (mkReader (flat_map encode
                       [mkFrame Byte.x01 (Byte.x00, Byte.x00, Byte.x00)
                          (list_byte_of_string "hello");
                        mkFrame Byte.x01 (Byte.x00, Byte.x00, Byte.x00) [];
                        mkFrame Byte.x02 (Byte.x00, Byte.x00, Byte.x00)
                          (list_byte_of_string "err")]
                     ++ [Byte.x01; Byte.x00]) EOF)
          (mkConn [] None) [])
  = mkSession (mkReader [] EOF)
      (mkConn [list_byte_of_string "hello"; list_byte_of_string "err"] None)
      [LogHeaderRead ErrUnexpectedEOF].
Proof.
  apply (C6_non_tty_pump_forwards_exactly_the_payloads
           [mkFrame Byte.x01 (Byte.x00, Byte.x00, Byte.x00)
              (list_byte_of_string "hello");
            mkFrame Byte.x01 (Byte.x00, Byte.x00, Byte.x00) [];
            mkFrame Byte.x02 (Byte.x00, Byte.x00, Byte.x00)
              (list_byte_of_string "err")]
           [Byte.x01; Byte.x00] EOF [] []).
  - repeat constructor; simpl; lia.
  - simpl. lia.
Defined.

End ConsoleTheorems.


(* ===================================================================== *)
(** * Part III: further properties of the code *)
(* ===================================================================== *)

(** ** Cron evaluator: what the parts produce *)

Section CronValues.

Import Go Cron Spec CronSpec.

Lemma wrap_int_id z : int_min <= z <= int_max -> wrap_int z = z.
Proof.
  unfold wrap_int, int_min, int_max. intros Hz.
  rewrite Z.mod_small by lia. lia.
Qed.


Lemma count_up_bounded fuel i hi step vals :
  0 < step -> hi + step <= int_max -> int_min <= i ->
  count_up fuel i hi step = Ok vals ->
  forall v, In v vals -> i <= v <= hi.
Proof.
  intros Hstep Hhi. revert i vals.
  induction fuel as [|fuel IH]; intros i vals Hi Hc v Hv; simpl in Hc;
    [discriminate|].
  destruct (i <=? hi) eqn:E.
  - apply Z.leb_le in E. unfold_outcome.
    rewrite wrap_int_id in Hc by lia.
    destruct (count_up fuel (i + step) hi step) as [vals'| |] eqn:Hrec;
      try discriminate.
    injection Hc as <-. destruct Hv as [<- | Hv]; [lia|].
    assert (i + step <= v <= hi) by (eapply IH; [| eassumption | assumption]; lia).
    lia.
  - injection Hc as <-. destruct Hv.
Qed.

Lemma count_up_progression fuel lo hi step :
  0 < step -> hi + step <= int_max -> int_min <= lo ->
  (Z.to_nat ((hi - lo) / step + 1) < fuel)%nat ->
  count_up fuel lo hi step = Ok (progression lo hi step).
Proof.
  intros Hstep Hhi. unfold progression.
  remember (Z.to_nat ((hi - lo) / step + 1)) as n eqn:Hn.
  revert lo fuel Hn. induction n as [|n IH]; intros lo fuel Hn Hlo Hfuel.
  - destruct fuel as [|fuel]; [lia|]. simpl.
    destruct (lo <=? hi) eqn:E; [|reflexivity].
    apply Z.leb_le in E.
    assert (0 <= (hi - lo) / step) by (apply Z.div_pos; lia). lia.
  - destruct fuel as [|fuel]; [lia|]. simpl.
    assert (Hle : lo <= hi).
    { destruct (Z_le_gt_dec lo hi) as [?|Hgt]; [assumption|].
      assert ((hi - lo) / step < 0) by (apply Z.div_lt_upper_bound; lia). lia. }
    apply Z.leb_le in Hle as Hleb. rewrite Hleb. apply Z.leb_le in Hleb.
    rewrite wrap_int_id by lia. unfold_outcome.
    assert (Hdiv : (hi - (lo + step)) / step = (hi - lo) / step - 1).
    { replace (hi - (lo + step)) with (hi - lo + (-1) * step) by ring.
      rewrite Z.div_add by lia. ring. }
    rewrite (IH (lo + step) fuel); [| rewrite Hdiv; lia | lia | lia].
    f_equal. simpl. f_equal; [lia|].
    rewrite <- seq_shift, map_map. apply map_ext. intros k. lia.
Qed.

Lemma progression_In lo hi step v :
  0 < step ->
  In v (progression lo hi step) <->
  lo <= v <= hi /\ (v - lo) mod step = 0.
Proof.
  intros Hstep. unfold progression. rewrite in_map_iff. split.
  - intros (k & <- & Hk). apply in_seq in Hk.
    replace (lo + Z.of_nat k * step - lo) with (Z.of_nat k * step) by ring.
    rewrite Z.mod_mul by lia. split; [|reflexivity].
    assert (Hq : Z.of_nat k <= (hi - lo) / step) by lia.
    assert (Z.of_nat k * step <= hi - lo).
    { etransitivity; [apply Z.mul_le_mono_nonneg_r; [lia | exact Hq]|].
      rewrite Z.mul_comm. apply Z.mul_div_le. lia. }
    lia.
  - intros [Hv Hmod]. exists (Z.to_nat ((v - lo) / step)).
    assert (Hq : 0 <= (v - lo) / step) by (apply Z.div_pos; lia).
    split.
    + rewrite Z2Nat.id by lia.
      pose proof (Z.div_mod (v - lo) step ltac:(lia)) as Hdm.
      rewrite Hmod in Hdm. lia.
    + apply in_seq.
      assert ((v - lo) / step <= (hi - lo) / step)
        by (apply Z.div_le_mono; lia).
      lia.
Qed.

Lemma Split_Contains s sep part c :
  In part (Split s sep) -> Contains part c = true -> Contains s c = true.
Proof.
  revert part. induction s as [|a s IH]; intros part Hin Hc; simpl in *.
  - destruct Hin as [<- | []]. discriminate.
  - destruct (Ascii.eqb a sep).
    + destruct Hin as [<- | Hin]; [discriminate|].
      rewrite (IH _ Hin Hc). apply orb_true_r || (destruct (Ascii.eqb a c); reflexivity).
    + destruct (Split s sep) as [|w ws] eqn:Hs.
      * destruct Hin as [<- | []]. simpl in Hc.
        destruct (Ascii.eqb a c); [reflexivity | discriminate].
      * destruct Hin as [<- | Hin].
        -- simpl in Hc. destruct (Ascii.eqb a c); [reflexivity|].
           apply (IH w); [by left | assumption].
        -- rewrite (IH part); [destruct (Ascii.eqb a c); reflexivity | by right
                              | assumption].
Qed.

Lemma Fields_Contains s field c :
  In field (Fields s) -> Contains field c = true -> Contains s c = true.
Proof.
  revert field. induction s as [|a s IH]; intros field Hin Hc.
  - destruct Hin.
  - cbn [Fields] in Hin. cbn [Contains].
    destruct (Ascii.eqb a c) eqn:Eac; [reflexivity|].
    destruct (is_space a).
    + eapply IH; eassumption.
    + destruct s as [|b s'].
      * destruct Hin as [<- | []]. cbn [Contains] in Hc. rewrite Eac in Hc.
        discriminate.
      * destruct (is_space b).
        -- destruct Hin as [<- | Hin]; [|eapply IH; eassumption].
           cbn [Contains] in Hc. rewrite Eac in Hc. discriminate.
        -- destruct (Fields (String b s')) as [|w ws] eqn:Hf.
           ++ destruct Hin as [<- | []]. cbn [Contains] in Hc.
              rewrite Eac in Hc. discriminate.
           ++ destruct Hin as [<- | Hin].
              ** cbn [Contains] in Hc. rewrite Eac in Hc.
                 apply (IH w); [by left | assumption].
              ** apply (IH field); [by right | assumption].
Qed.

End CronValues.


Section CronParts.

Import Go Cron Spec CronSpec.


Lemma parsePart_in_bounds fuel part min max vals :
  int_min <= min -> max + 2 ^ 62 <= int_max ->
  Contains part "-" = false ->
  (forall step, HasPrefix part "*/" = true ->
                Atoi (drop 2 part) = Some step -> step <= 2 ^ 62) ->
  parsePart fuel part min max = Ok vals ->
  forall v, In v vals -> min <= v <= max.
Proof.
  intros Hmin Hmax Hdash Hsteps. unfold parsePart. rewrite Hdash.
  destruct (HasPrefix part "*/") eqn:Hpre.
  - destruct (Atoi (drop 2 part)) as [step|] eqn:Hstep; [|discriminate].
    destruct (step <=? 0) eqn:E; [discriminate|]. apply Z.leb_gt in E.
    specialize (Hsteps step eq_refl eq_refl).
    apply count_up_bounded; lia.
  - destruct (String.eqb part "*").
    + apply count_up_bounded; lia.
    + destruct (Atoi part) as [val|]; [|discriminate].
      destruct ((val <? min) || (val >? max)) eqn:E; [discriminate|].
      apply orb_false_elim in E as [E1 E2].
      apply Z.ltb_ge in E1. rewrite Z.gtb_ltb in E2. apply Z.ltb_ge in E2.
      intros [= <-] v [<- | []]. lia.
Qed.

Lemma parseParts_invariant (P : Z -> Prop) (good : string -> Prop)
  fuel parts min max acc vals :
  (forall part vs, good part -> parsePart fuel part min max = Ok vs ->
                   forall v, In v vs -> P v) ->
  (forall part, In part parts -> good part) ->
  (forall v, In v acc -> P v) ->
  parseParts fuel parts min max acc = Ok vals ->
  forall v, In v vals -> P v.
Proof.
  intros Hpart. revert acc.
  induction parts as [|part rest IH]; intros acc Hgood Hacc Hp; simpl in Hp.
  - injection Hp as <-. assumption.
  - unfold_outcome.
    destruct (parsePart fuel part min max) as [vs| |] eqn:Hvs; try discriminate.
    apply (IH (acc ++ vs)); [intros; apply Hgood; by right | | assumption].
    intros v Hv. apply in_app_or in Hv as [Hv | Hv]; [auto|].
    eapply Hpart; [apply Hgood; by left | eassumption | assumption].
Qed.

Lemma in_field_Ok name m vals : in_field name m = Ok vals -> m = Ok vals.
Proof. destruct m; simpl; congruence. Qed.

Lemma parseField_in_bounds fuel expr field min max vals :
  int_min <= min -> max + 2 ^ 62 <= int_max ->
  Contains expr "-" = false -> small_steps expr ->
  In field (Fields expr) ->
  parseField fuel field min max = Ok vals ->
  forall v, In v vals -> min <= v <= max.
Proof.
  intros Hmin Hmax Hdash Hsteps Hfield Hp.
  apply (parseParts_invariant (fun v => min <= v <= max)
           (fun part => In part (Split field ","))
           fuel (Split field ",") min max [] vals);
    [| auto | intros v [] | exact Hp].
  intros part vs Hpart. apply parsePart_in_bounds; try assumption.
  - destruct (Contains part "-") eqn:E; [|reflexivity].
    rewrite <- Hdash. symmetry.
    eapply Fields_Contains; [eassumption|].
    eapply Split_Contains; eassumption.
  - intros step. apply (Hsteps field part step); assumption.
Qed.

(** X1.  In an accepted expression that holds no range part (no '-' at
    all) and whose steps are at most 2^62, every integer of each of the five
    sets lies within the bound of its field: minute 0-59, hour 0-23,
    day of month 1-31, month 1-12, day of week 0-6. *)
Theorem ParseCron_without_ranges_respects_bounds
  (fuel : nat) (expr : string) (c : CronExpr) :
  ParseCron fuel expr = Ok c ->
  Contains expr "-" = false ->
  small_steps expr ->
  (forall v, In v (Minutes c) -> 0 <= v <= 59) /\
  (forall v, In v (Hours c) -> 0 <= v <= 23) /\
  (forall v, In v (DaysOfMonth c) -> 1 <= v <= 31) /\
  (forall v, In v (Months c) -> 1 <= v <= 12) /\
  (forall v, In v (DaysOfWeek c) -> 0 <= v <= 6).
Proof.
  unfold ParseCron. intros Hp Hdash Hsteps.
  destruct (Fields expr) as [|f0 [|f1 [|f2 [|f3 [|f4 [|f5 fs]]]]]] eqn:Hf;
    try discriminate.
  unfold_outcome.
  destruct (in_field "minute" _) as [v0| |] eqn:H0; try discriminate.
  destruct (in_field "hour" _) as [v1| |] eqn:H1; try discriminate.
  destruct (in_field "day-of-month" _) as [v2| |] eqn:H2; try discriminate.
  destruct (in_field "month" _) as [v3| |] eqn:H3; try discriminate.
  destruct (in_field "day-of-week" _) as [v4| |] eqn:H4; try discriminate.
  injection Hp as <-. simpl.
  apply in_field_Ok in H0, H1, H2, H3, H4.
  assert (Hin : forall f, In f [f0; f1; f2; f3; f4] -> In f (Fields expr))
    by (rewrite Hf; auto).
  split; [|split; [|split; [|split]]]; intros v Hv;
    (eapply (parseField_in_bounds fuel expr);
     [ | | exact Hdash | exact Hsteps | apply Hin | eassumption | exact Hv ]);
    try (unfold int_min, int_max; lia); simpl; auto 10.
Qed.

Lemma ParseCron_without_ranges_witness :
  exists c, ParseCron 61 "*/20 1,13 * 12 */2" = Ok c /\
            forall v, In v (Hours c) -> 0 <= v <= 23.
Proof.
  eexists. split; [vm_compute; reflexivity|].
  refine (proj1 (proj2 (ParseCron_without_ranges_respects_bounds
                          61 "*/20 1,13 * 12 */2" _ _ _ _))).
  - vm_compute. reflexivity.
  - reflexivity.
  - intros field part step Hfield Hpart Hpre Hstep.
    vm_compute in Hfield.
    destruct Hfield as [<- | [<- | [<- | [<- | [<- | []]]]]];
      vm_compute in Hpart;
      repeat match goal with
             | H : _ \/ _ |- _ => destruct H as [<- | H]
             | H : False |- _ => destruct H
             end;
      vm_compute in Hpre; try discriminate;
      vm_compute in Hstep; injection Hstep as <-; lia.
Defined.

End CronParts.


Section CronRanges.

Import Go Cron Spec CronSpec.





(** *** Comma lists *)

Lemma Split_app s1 s2 sep :
  Contains s1 sep = false ->
  Split (s1 +:+ String sep s2) sep = s1 :: Split s2 sep.
Proof.
  induction s1 as [|a s1 IH]; intros Hc.
  - simpl. rewrite Ascii.eqb_refl. reflexivity.
  - simpl in Hc. destruct (Ascii.eqb a sep) eqn:E; [discriminate|].
    change (String a s1 +:+ String sep s2)
      with (String a (s1 +:+ String sep s2)).
    simpl. rewrite E, IH by assumption. reflexivity.
Qed.

Lemma parseParts_acc fuel parts min max acc :
  parseParts fuel parts min max acc
  = (vals ← parseParts fuel parts min max []; mret (acc ++ vals)).
Proof.
  revert acc. induction parts as [|part rest IH]; intros acc; simpl.
  - unfold_outcome. rewrite app_nil_r. reflexivity.
  - unfold_outcome.
    destruct (parsePart fuel part min max) as [vs| |]; try reflexivity.
    rewrite (IH (acc ++ vs)), (IH vs).
    destruct (parseParts fuel rest min max []); try reflexivity.
    rewrite app_assoc. reflexivity.
Qed.

(** X3.  A field is parsed part by part, from left to right: the
    values of [p,rest] are those of the part [p] followed by those of the field
    [rest] (duplicates are kept), and the error of the first part that
    fails is the error of the field. *)
Theorem parseField_appends_the_parts_in_order
  (fuel : nat) (p rest : string) (min max : Z) :
  Contains p "," = false ->
  parseField fuel (p +:+ "," +:+ rest) min max
  = (vals ← parsePart fuel p min max;
     more ← parseField fuel rest min max;
     mret (vals ++ more)).
Proof.
  intros Hp. unfold parseField.
  change (p +:+ "," +:+ rest) with (p +:+ String "," rest).
  rewrite Split_app by assumption. simpl. unfold_outcome.
  destruct (parsePart fuel p min max) as [vals| |]; try reflexivity.
  rewrite parseParts_acc. reflexivity.
Qed.

Lemma parseField_appends_witness :
  parseField 10 "5,1-3,5" 0 59 = Ok [5; 1; 2; 3; 5] /\
  parseField 10 "5,x,70" 0 59 = Err (InvalidValue "x").
Proof.
  split.
  - exact (eq_trans
             (parseField_appends_the_parts_in_order 10 "5" "1-3,5" 0 59 eq_refl)
             eq_refl).
  - exact (eq_trans
             (parseField_appends_the_parts_in_order 10 "5" "x,70" 0 59 eq_refl)
             eq_refl).
Defined.

(** *** Errors *)





End CronRanges.


(** ** Cron evaluator: the seconds of a timestamp *)

Section CronSeconds.

Import Go Cron.

Lemma minute_fields_of_wall t t' :
  wall t / 60 = wall t' / 60 ->
  Minute t = Minute t' /\ Hour t = Hour t' /\
  day_number t = day_number t'.
Proof.
  unfold Minute, Hour, day_number, second_of_day. intros Hw.
  Z.div_mod_to_equations. lia.
Qed.

(** X5.  [Matches] looks at the minute a timestamp falls in, not at
    its seconds: two timestamps within the same minute of wall-clock time
    match the same expressions. *)
Theorem Matches_depends_on_the_minute_only (c : CronExpr) (t t' : Time) :
  wall t / 60 = wall t' / 60 -> Matches c t = Matches c t'.
Proof.
  intros Hw. destruct (minute_fields_of_wall t t' Hw) as (Hm & Hh & Hd).
  unfold Matches, Day, Month, Weekday, day_of_era. rewrite Hm, Hh, Hd.
  reflexivity.
Qed.

Lemma Matches_depends_on_the_minute_only_witness :
  Matches (mkCronExpr [0] [4] [2] [11] [1]) (mkTime 1793592000 0)
  = Matches (mkCronExpr [0] [4] [2] [11] [1]) (mkTime 1793592059 0).
Proof.
  apply Matches_depends_on_the_minute_only. reflexivity.
Defined.

End CronSeconds.

(** ** Lifecycle scheduler: the wake-ups of the loop *)

Section LoopTiming.

Import Loop.



End LoopTiming.


(** ** Lifecycle scheduler: what a pass leaves alone *)

Section SchedulerFrame.

Import Go Store Scheduler Spec.

Lemma action_call_None {R : Type} `{Runtime R} a sid cid (w : World R) :
  action_call a sid cid = None ->
  execute a sid cid w = logf (LogUnknownAction a) w.
Proof.
  unfold action_call, execute.
  destruct (String.eqb a "start"); [discriminate|].
  destruct (String.eqb a "stop"); [discriminate|].
  destruct (String.eqb a "restart"); [discriminate|].
  destruct (String.eqb a "backup"); [discriminate|]. reflexivity.
Qed.

Lemma set_server_status_lookup status at_ id d i srv :
  servers d !! i = Some srv ->
  servers (set_server_status status at_ id d) !! i
  = Some (if String.eqb (srv_id srv) id then recorded status at_ srv else srv).
Proof.
  intros Hi. unfold set_server_status. simpl.
  rewrite list_lookup_fmap, Hi. reflexivity.
Qed.

(** X7.  Whatever the action and its outcome, [execute] leaves the
    schedules and the stats rows alone, keeps every server row in place with its
    id and container id, and changes no row of another server.  An
    action that is not start, stop, restart or backup makes no call on
    the runtime and no write to the store: it leaves one log line. *)
Theorem execute_writes_nothing_but_the_status_of_its_target
  {R : Type} `{Runtime R} (w : World R)
  (action serverID containerID : string) :
  let w' := execute action serverID containerID w in
  schedules (db w') = schedules (db w) /\
  stats (db w') = stats (db w) /\
  (forall i srv,
      servers (db w) !! i = Some srv ->
      exists srv',
        servers (db w') !! i = Some srv' /\
        srv_id srv' = srv_id srv /\
        srv_container_id srv' = srv_container_id srv /\
        (srv_id srv <> serverID -> srv' = srv)) /\
  (action_call action serverID containerID = None ->
   w' = mkWorld (db w) (rt w) (log w ++ [LogUnknownAction action])).
Proof.
  intros w'. split; [apply execute_schedules|].
  destruct (action_call action serverID containerID) as [call|] eqn:Hcall.
  - destruct (execute_spec action serverID containerID w call Hcall)
      as (_ & _ & Hdb).
    fold w' in Hdb. rewrite Hdb. split; [|split; [|discriminate]].
    + destruct (fst (call (rt w))); [reflexivity|].
      destruct (action_status action); reflexivity.
    + intros i srv Hi.
      destruct (fst (call (rt w))); [eexists; repeat split; eassumption|].
      destruct (action_status action) as [status|];
        [|eexists; repeat split; eassumption].
      rewrite (set_server_status_lookup _ _ _ _ _ _ Hi).
      eexists. split; [reflexivity|].
      destruct (String.eqb (srv_id srv) serverID) eqn:E.
      * apply String.eqb_eq in E. repeat split. intros Hne. congruence.
      * repeat split.
  - unfold w'. rewrite (action_call_None _ _ _ _ Hcall).
    repeat split. intros i srv Hi. exists srv. repeat split; assumption.
Qed.

Lemma run_jobs_nothing_due {R : Type} `{Runtime R}
  fuel now jobs (w w' : World R) :
  (forall j, In j jobs -> due fuel now j = false) ->
  run_jobs fuel now jobs w = Some w' ->
  db w' = db w /\ rt w' = rt w.
Proof.
  revert w. induction jobs as [|j jobs IH]; intros w Hdue Hrun; simpl in Hrun.
  - injection Hrun as <-. auto.
  - destruct (run_job fuel now j w) as [w1|] eqn:Hj; [|discriminate].
    assert (H1 : db w1 = db w /\ rt w1 = rt w).
    { specialize (Hdue j (or_introl eq_refl)). unfold run_job, due in *.
      destruct (Cron.ParseCron fuel (cronExpr j)) as [c| |];
        [|injection Hj as <-; auto | discriminate].
      rewrite Hdue in Hj. simpl in Hj. injection Hj as <-. auto. }
    destruct H1 as [Hd Hr].
    destruct (IH w1) as [Hd' Hr']; [intros; apply Hdue; by right | assumption |].
    split; congruence.
Qed.

(** X8.  A pass in which no loaded schedule is due (its expression
    does not match the timestamp of the pass, or does not parse) makes no call on
    the container runtime or the backup service and writes nothing to
    the store. *)
Theorem tick_with_nothing_due_calls_and_writes_nothing
  {R : Type} `{Runtime R} (fuel : nat) (w w' : World R) :
  (forall j, In j (load_jobs (db w)) -> due fuel (Now (rt w)) j = false) ->
  tick fuel w = Some w' ->
  db w' = db w /\ rt w' = rt w.
Proof.
  intros Hdue Htick. unfold tick in Htick.
  exact (run_jobs_nothing_due fuel (Now (rt w)) (load_jobs (db w)) w w'
           Hdue Htick).
Qed.

Lemma tick_with_nothing_due_witness :
  let w := mkWorld Example.store (Example.four_o_clock + 60) [] in
  exists w', tick 61 w = Some w' /\ db w' = db w /\ rt w' = rt w.
Proof.
  intros w. destruct (tick 61 w) as [w'|] eqn:Htick;
    [|vm_compute in Htick; discriminate].
  exists w'. split; [reflexivity|].
  apply (tick_with_nothing_due_calls_and_writes_nothing 61 w w');
    [|exact Htick].
  intros j Hj. vm_compute in Hj.
  destruct Hj as [<- | [<- | [<- | []]]]; vm_compute; reflexivity.
Defined.

Lemma load_jobs_schedule (d : DB) j :
  In j (load_jobs d) ->
  exists s, In s (schedules d) /\ sch_enabled s = 1 /\
            scheduleID j = sch_id s /\ cronExpr j = sch_cron_expr s.
Proof.
  unfold load_jobs. rewrite in_flat_map. intros (s & Hs & Hj).
  unfold jobs_of in Hj. destruct (sch_enabled s =? 1) eqn:E; [|destruct Hj].
  apply Z.eqb_eq in E. apply in_map_iff in Hj as (srv & <- & _).
  exists s. auto.
Qed.

(** X9.  A pass keeps every schedule row in place and changes nothing
    of it but [last_run]: after the pass the row is what it was, or what it
    was with [last_run] set to the timestamp of the pass, and the latter
    only if a loaded job that is due carries its id.  In particular a
    schedule that is disabled, or whose expression does not parse, is
    neither stamped nor disabled nor rewritten, as long as no other row
    has its id. *)
Theorem tick_changes_nothing_of_a_schedule_but_last_run
  {R : Type} `{Runtime R} (fuel : nat) (w w' : World R)
  (i : nat) (s : Schedule) :
  tick fuel w = Some w' ->
  schedules (db w) !! i = Some s ->
  length (schedules (db w')) = length (schedules (db w)) /\
  (schedules (db w') !! i = Some s \/
   (schedules (db w') !! i = Some (stamped (Now (rt w)) s) /\
    exists j, In j (load_jobs (db w)) /\
              due fuel (Now (rt w)) j = true /\ scheduleID j = sch_id s)) /\
  ((forall s2, In s2 (schedules (db w)) -> sch_id s2 = sch_id s -> s2 = s) ->
   (sch_enabled s <> 1 \/
    exists e, Cron.ParseCron fuel (sch_cron_expr s) = Err e) ->
   schedules (db w') !! i = Some s).
Proof.
  intros Htick Hi. unfold tick in Htick.
  pose proof (run_jobs_schedules _ _ _ _ _ Htick) as Hs.
  pose proof (stamped_fold fuel (Now (rt w)) (load_jobs (db w)) _ i s Hi) as Hrow.
  rewrite <- Hs in Hrow.
  assert (Hlen : forall jobs L,
             length (fold_left
                       (fun L j => if due fuel (Now (rt w)) j
                                   then map (stamp (Now (rt w)) (scheduleID j)) L
                                   else L) jobs L) = length L).
  { induction jobs as [|j jobs IH]; intros L; simpl; [reflexivity|].
    rewrite IH. destruct (due fuel (Now (rt w)) j); [apply length_map|reflexivity]. }
  split; [rewrite Hs; apply Hlen|].
  destruct (existsb _ (load_jobs (db w))) eqn:Hex.
  - apply existsb_exists in Hex as (j & Hj & Hdue).
    apply andb_prop in Hdue as [Hdue Hid]. apply String.eqb_eq in Hid.
    split.
    + right. split; [exact Hrow|]. exists j. auto.
    + intros Huniq Hbad. exfalso.
      apply load_jobs_schedule in Hj as (s2 & Hs2 & He2 & Hid2 & Hc2).
      assert (s2 = s) by (apply Huniq; [assumption | congruence]). subst s2.
      unfold due in Hdue. rewrite Hc2 in Hdue.
      destruct Hbad as [Hdis | [e He]]; [contradiction|].
      rewrite He in Hdue. discriminate.
  - split; [left; exact Hrow | intros _ _; exact Hrow].
Qed.

Lemma tick_changes_nothing_but_last_run_witness :
  let s := mkSchedule "s9" "alpha" "61 4 * * *" "stop" 1 None in
  let w := mkWorld (mkDB Example.two_servers [s] []) Example.four_o_clock [] in
  exists w', tick 61 w = Some w' /\ schedules (db w') !! 0%nat = Some s.
Proof.
  intros s w. destruct (tick 61 w) as [w'|] eqn:Htick;
    [|vm_compute in Htick; discriminate].
  exists w'. split; [reflexivity|].
  apply (tick_changes_nothing_of_a_schedule_but_last_run 61 w w' 0%nat s
           Htick eq_refl).
  - intros s2 [<- | []] _. reflexivity.
  - right. eexists. vm_compute. reflexivity.
Defined.

End SchedulerFrame.


(** ** Telemetry collector: the registry of subscribers *)

Section RegistryFacts.

Import Go Store Stats Spec Registry.
Context {R : Type} `{Runtime R}.

Lemma index_of_Some ch l i : index_of ch l = Some i -> l !! i = Some ch.
Proof.
  revert i. induction l as [|x l IH]; intros i; simpl; [discriminate|].
  destruct (x =? ch)%nat eqn:E.
  - intros [= <-]. apply Nat.eqb_eq in E. subst. reflexivity.
  - destruct (index_of ch l) as [k|]; [|discriminate].
    intros [= <-]. simpl. apply IH. reflexivity.
Qed.

Lemma index_of_None ch l : index_of ch l = None <-> ch ∉ l.
Proof.
  induction l as [|x l IH]; simpl.
  - split; [intros _; apply not_elem_of_nil | reflexivity].
  - destruct (x =? ch)%nat eqn:E.
    + apply Nat.eqb_eq in E. subst. split; [discriminate|].
      intros Hn. exfalso. apply Hn. apply list_elem_of_here.
    + apply Nat.eqb_neq in E. rewrite not_elem_of_cons.
      destruct (index_of ch l); simpl.
      * split; [discriminate|]. intros [_ Hn]. apply IH in Hn. discriminate.
      * split; [|reflexivity]. intros _. split; [congruence|]. by apply IH.
Qed.

Lemma NoDup_delete_elem (l : list nat) i x y :
  NoDup l -> l !! i = Some x ->
  y ∈ delete i l <-> y ∈ l /\ y <> x.
Proof.
  intros Hnd Hi.
  pose proof (delete_Permutation l i x Hi) as Hperm.
  assert (Hnd' : NoDup (x :: delete i l)) by (rewrite <- Hperm; assumption).
  apply NoDup_cons in Hnd' as [Hx _]. split.
  - intros Hy. split; [eapply list_elem_of_delete_inv; eassumption|].
    intros ->. contradiction.
  - intros [Hy Hne]. rewrite Hperm in Hy.
    apply elem_of_cons in Hy as [? | ?]; [contradiction | assumption].
Qed.

Lemma listeners_of_insert id id' l (w : World R) :
  listeners_of id' (set_listeners (<[id := l]> (listeners w)) w)
  = if decide (id = id') then l else listeners_of id' w.
Proof.
  unfold listeners_of. simpl. destruct (decide (id = id')) as [-> | Hne].
  - rewrite lookup_insert_eq. reflexivity.
  - rewrite lookup_insert_ne by assumption. reflexivity.
Qed.

Lemma registry_ok_new (d : DB) (r : R) : registry_ok (NewCollector d r).
Proof.
  assert (Hl : forall id, listeners_of id (NewCollector d r) = []).
  { intros id. unfold listeners_of. simpl. rewrite lookup_empty. reflexivity. }
  split; [|split].
  - intros id c Hc. rewrite Hl in Hc. by apply not_elem_of_nil in Hc.
  - intros id. rewrite Hl. constructor.
  - intros id1 id2 c Hc. rewrite Hl in Hc. by apply not_elem_of_nil in Hc.
Qed.

Lemma registry_ok_same (w w' : World R) :
  listeners w' = listeners w ->
  (forall c, closed <$> chans w' !! c = closed <$> chans w !! c) ->
  registry_ok w -> registry_ok w'.
Proof.
  intros Hl Hc (Hopen & Hnd & Hdis).
  assert (Hlo : forall id, listeners_of id w' = listeners_of id w)
    by (intros id; unfold listeners_of; rewrite Hl; reflexivity).
  split; [|split].
  - intros id c Hin. rewrite Hlo in Hin.
    destruct (Hopen id c Hin) as (chan & Hchan & Hcl).
    specialize (Hc c). rewrite Hchan in Hc.
    destruct (chans w' !! c) as [chan'|]; [|discriminate].
    exists chan'. split; [reflexivity|]. simpl in Hc. congruence.
  - intros id. rewrite Hlo. apply Hnd.
  - intros id1 id2 c. rewrite !Hlo. apply Hdis.
Qed.

Lemma registry_ok_Subscribe id (w : World R) :
  registry_ok w -> registry_ok (snd (Subscribe id w)).
Proof.
  intros (Hopen & Hnd & Hdis).
  assert (Hold : forall id' c, c ∈ listeners_of id' w ->
                               (c < length (chans w))%nat).
  { intros id' c Hc. destruct (Hopen id' c Hc) as (chan & Hchan & _).
    eapply lookup_lt_Some. eassumption. }
  assert (Hlo : forall id',
             listeners_of id' (snd (Subscribe id w))
             = if decide (id = id')
               then listeners_of id w ++ [length (chans w)]
               else listeners_of id' w).
  { intros id'. unfold Subscribe. cbn [snd].
    rewrite listeners_of_insert. reflexivity. }
  assert (Hch : chans (snd (Subscribe id w))
                = chans w ++ [mkChan 1 [] false]) by reflexivity.
  split; [|split].
  - intros id' c Hc. rewrite Hlo in Hc. rewrite Hch.
    assert (Hcase : c ∈ listeners_of id' w \/ c = length (chans w)).
    { destruct (decide (id = id')) as [<- | _]; [|by left].
      apply elem_of_app in Hc as [? | Hc]; [by left|].
      apply list_elem_of_singleton in Hc. by right. }
    destruct Hcase as [Hc' | ->].
    + destruct (Hopen id' c Hc') as (chan & Hchan & Hcl).
      exists chan. split; [|assumption].
      apply lookup_app_l_Some. assumption.
    + eexists. split; [apply list_lookup_middle; reflexivity | reflexivity].
  - intros id'. rewrite Hlo. destruct (decide (id = id')) as [<- | _];
      [|apply Hnd].
    apply NoDup_app. split; [apply Hnd|]. split; [|apply NoDup_singleton].
    intros c Hc Hc'. apply list_elem_of_singleton in Hc'.
    specialize (Hold id c Hc). lia.
  - intros id1 id2 c. rewrite !Hlo. intros H1 H2.
    assert (Hnew : forall id', c ∈ listeners_of id' w ->
                               c <> length (chans w))
      by (intros id' Hc; specialize (Hold id' c Hc); lia).
    destruct (decide (id = id1)) as [<- | Hn1];
      destruct (decide (id = id2)) as [<- | Hn2]; try reflexivity.
    + apply elem_of_app in H1 as [H1 | H1]; [eapply Hdis; eassumption|].
      apply list_elem_of_singleton in H1. exfalso. eapply Hnew; eassumption.
    + apply elem_of_app in H2 as [H2 | H2]; [eapply Hdis; eassumption|].
      apply list_elem_of_singleton in H2. exfalso. eapply Hnew; eassumption.
    + eapply Hdis; eassumption.
Qed.

(** What [Unsubscribe] does to a registered channel. *)
Lemma Unsubscribe_registered id ch (w : World R) :
  registry_ok w -> ch ∈ listeners_of id w ->
  exists i chan,
    index_of ch (listeners_of id w) = Some i /\
    chans w !! ch = Some chan /\ closed chan = false /\
    Unsubscribe id ch w
    = Ok (set_chans (<[ch := mkChan (cap chan) (buf chan) true]> (chans w))
            (set_listeners
               (<[id := delete i (listeners_of id w)]> (listeners w)) w)).
Proof.
  intros (Hopen & Hnd & Hdis) Hin.
  destruct (index_of ch (listeners_of id w)) as [i|] eqn:Hi;
    [|apply index_of_None in Hi; contradiction].
  destruct (Hopen id ch Hin) as (chan & Hchan & Hcl).
  exists i, chan. repeat split; try assumption.
  unfold Unsubscribe. rewrite Hi. cbn [chans set_listeners].
  rewrite Hchan, Hcl. reflexivity.
Qed.

Lemma registry_ok_Unsubscribe id ch (w w' : World R) :
  registry_ok w -> Unsubscribe id ch w = Ok w' -> registry_ok w'.
Proof.
  intros Hok Hu.
  destruct (decide (ch ∈ listeners_of id w)) as [Hin | Hnin].
  - destruct (Unsubscribe_registered id ch w Hok Hin)
      as (i & chan & Hi & Hchan & Hcl & Heq).
    rewrite Heq in Hu. injection Hu as <-.
    destruct Hok as (Hopen & Hnd & Hdis).
    apply index_of_Some in Hi.
    assert (Hlo : forall id' c,
               c ∈ listeners_of id'
                     (set_chans
                        (<[ch := mkChan (cap chan) (buf chan) true]> (chans w))
                        (set_listeners
                           (<[id := delete i (listeners_of id w)]> (listeners w))
                           w)) ->
               c ∈ listeners_of id' w /\ c <> ch).
    { intros id' c. change (listeners_of id' (set_chans ?cs ?x))
        with (listeners_of id' x).
      rewrite listeners_of_insert. destruct (decide (id = id')) as [<- | Hne].
      - apply NoDup_delete_elem; [apply Hnd | assumption].
      - intros Hc. split; [assumption|]. intros ->.
        apply Hne. eapply Hdis; eassumption. }
    split; [|split].
    + intros id' c Hc. apply Hlo in Hc as [Hc Hne].
      destruct (Hopen id' c Hc) as (chan' & Hchan' & Hcl').
      exists chan'. split; [|assumption]. cbn [chans set_chans].
      rewrite list_lookup_insert_ne by congruence. assumption.
    + intros id'. change (listeners_of id' (set_chans ?cs ?x))
        with (listeners_of id' x).
      rewrite listeners_of_insert. destruct (decide (id = id')) as [<- | Hne];
        [|apply Hnd].
      eapply sublist_NoDup; [apply Hnd | apply sublist_delete].
    + intros id1 id2 c H1 H2. apply Hlo in H1 as [H1 _], H2 as [H2 _].
      eapply Hdis; eassumption.
  - unfold Unsubscribe in Hu. apply index_of_None in Hnin. rewrite Hnin in Hu.
    injection Hu as <-. assumption.
Qed.

Lemma collect_one_closed srv (w w' : World R) c :
  collect_one srv w = Ok w' ->
  closed <$> chans w' !! c = closed <$> chans w !! c.
Proof.
  unfold collect_one.
  destruct (fetchStats (fst srv) (snd srv) (rt (add_request (snd srv) w)))
    as [[e|stats] r'].
  - intros [= <-]. reflexivity.
  - unfold publish. unfold_outcome.
    destruct (fanout _ stats _) as [cs| |] eqn:Hf; try discriminate.
    intros [= <-]. cbn [chans set_chans].
    rewrite (fanout_closed _ _ _ _ c Hf). reflexivity.
Qed.

Lemma collect_all_closed srvs (w w' : World R) c :
  collect_all srvs w = Ok w' ->
  closed <$> chans w' !! c = closed <$> chans w !! c.
Proof.
  revert w. induction srvs as [|srv srvs IH]; intros w Hc; simpl in Hc.
  - by injection Hc as <-.
  - unfold_outcome.
    destruct (collect_one srv w) as [w1| |] eqn:H1; try discriminate.
    rewrite (IH _ Hc). eapply collect_one_closed. eassumption.
Qed.

Lemma registry_ok_all_open (w : World R) id :
  registry_ok w -> all_open (listeners_of id w) (chans w).
Proof.
  intros (Hopen & _ & _) c chan Hin Hc.
  apply list_elem_of_In in Hin.
  destruct (Hopen id c Hin) as (chan' & Hchan' & Hcl). congruence.
Qed.

Lemma registry_ok_collect (w : World R) :
  registry_ok w -> exists w', collect w = Ok w' /\ registry_ok w'.
Proof.
  intros Hok.
  destruct (collect_total w) as [w' Hw'];
    [intros id; by apply registry_ok_all_open|].
  exists w'. split; [assumption|].
  unfold collect in Hw'. unfold_outcome.
  destruct (collect_all (running_servers (db w)) w) as [w1| |] eqn:Hall;
    try discriminate.
  injection Hw' as <-.
  apply (registry_ok_same w); [| |assumption].
  - cbn [listeners set_env].
    apply collect_all_effects in Hall as (_ & Hl & _). assumption.
  - intros c. cbn [chans set_env]. eapply collect_all_closed. eassumption.
Qed.

Lemma registry_ok_recv ch (w : World R) :
  registry_ok w -> registry_ok (snd (recv ch w)).
Proof.
  intros Hok. apply (registry_ok_same w); [| |assumption].
  - unfold recv. destruct (chans w !! ch) as [c|]; [|reflexivity].
    destruct (buf c); reflexivity.
  - intros c. unfold recv. destruct (chans w !! ch) as [x|] eqn:Hx;
      [|reflexivity].
    destruct (buf x) as [|v rest]; [reflexivity|]. cbn [snd chans set_chans].
    destruct (decide (c = ch)) as [-> | Hne].
    + rewrite list_lookup_insert_eq by (eapply lookup_lt_Some; eassumption).
      rewrite Hx. reflexivity.
    + rewrite list_lookup_insert_ne by congruence. reflexivity.
Qed.

Lemma registry_ok_run_api a (w : World R) :
  registry_ok w -> exists w', run_api a w = Ok w' /\ registry_ok w'.
Proof.
  intros Hok. destruct a as [| |id|id ch| |ch]; simpl.
  - eexists. split; [reflexivity|]. by apply (registry_ok_same w).
  - eexists. split; [reflexivity|]. apply (registry_ok_same w); try assumption.
    + unfold Stop. destruct (cancel w); reflexivity.
    + intros c. unfold Stop. destruct (cancel w); reflexivity.
  - eexists. split; [reflexivity|]. by apply registry_ok_Subscribe.
  - destruct (decide (ch ∈ listeners_of id w)) as [Hin | Hnin].
    + destruct (Unsubscribe_registered id ch w Hok Hin)
        as (i & chan & _ & _ & _ & Heq).
      eexists. split; [exact Heq|].
      eapply registry_ok_Unsubscribe; eassumption.
    + exists w. split; [|assumption]. unfold Unsubscribe.
      apply index_of_None in Hnin. rewrite Hnin. reflexivity.
  - by apply registry_ok_collect.
  - eexists. split; [reflexivity|]. by apply registry_ok_recv.
Qed.

End RegistryFacts.


Section RegistryTheorems.

Import Go Store Stats Spec Registry.

(** X10.  A collector made by [NewCollector] and used through its
    methods, ticks and receives, one call at a time, never panics:
    whatever the sequence of calls, with any target names and any
    channels handed to [Unsubscribe], it runs to the end, and every
    registered channel is then open and registered once. *)
Theorem collector_calls_never_panic_and_keep_the_registry_in_order
  {R : Type} `{Runtime R} (d : DB) (r : R) (calls : list api) :
  exists w, run_apis calls (NewCollector d r) = Ok w /\ registry_ok w.
Proof.
  assert (Hgen : forall (w0 : World R), registry_ok w0 ->
            exists w, run_apis calls w0 = Ok w /\ registry_ok w).
  { induction calls as [|a calls IH]; intros w0 Hok; simpl.
    - exists w0. split; [reflexivity | assumption].
    - destruct (registry_ok_run_api a w0 Hok) as (w1 & H1 & Hok1).
      rewrite H1. unfold_outcome. apply IH. assumption. }
  apply Hgen. apply registry_ok_new.
Qed.

(** X11.  [Unsubscribe] of a registered channel closes that channel,
    keeping what it holds, and takes it out of the registry; every
    other channel and every other registration stays as it was, the
    cache too; and a second [Unsubscribe] of the same channel does
    nothing, so the channel is not closed twice. *)
Theorem Unsubscribe_closes_and_removes_exactly_its_channel
  {R : Type} `{Runtime R} (id : string) (ch : nat) (w : World R) :
  registry_ok w -> ch ∈ listeners_of id w ->
  exists w' chan,
    Unsubscribe id ch w = Ok w' /\
    chans w !! ch = Some chan /\
    chans w' !! ch = Some (mkChan (cap chan) (buf chan) true) /\
    (forall c, c <> ch -> chans w' !! c = chans w !! c) /\
    (forall id' c, c ∈ listeners_of id' w' <->
                   c ∈ listeners_of id' w /\ c <> ch) /\
    latest w' = latest w /\ db w' = db w /\
    Unsubscribe id ch w' = Ok w'.
Proof.
  intros Hok Hin.
  destruct (Unsubscribe_registered id ch w Hok Hin)
    as (i & chan & Hi & Hchan & Hcl & Heq).
  destruct Hok as (Hopen & Hnd & Hdis).
  assert (Hlo : forall id' c,
             c ∈ listeners_of id'
                   (set_chans
                      (<[ch := mkChan (cap chan) (buf chan) true]> (chans w))
                      (set_listeners
                         (<[id := delete i (listeners_of id w)]> (listeners w))
                         w)) <->
             c ∈ listeners_of id' w /\ c <> ch).
  { intros id' c. change (listeners_of id' (set_chans ?cs ?x))
      with (listeners_of id' x).
    rewrite listeners_of_insert. destruct (decide (id = id')) as [<- | Hne].
    - apply NoDup_delete_elem; [apply Hnd | by apply index_of_Some].
    - split; [|by intros [? _]]. intros Hc. split; [assumption|]. intros ->.
      apply Hne. eapply Hdis; eassumption. }
  eexists _, chan. split; [exact Heq|].
  split; [assumption|]. split.
  { cbn [chans set_chans]. apply list_lookup_insert_eq.
    eapply lookup_lt_Some. eassumption. }
  split.
  { intros c Hne. cbn [chans set_chans].
    apply list_lookup_insert_ne. congruence. }
  split; [exact Hlo|].
  split; [reflexivity|]. split; [reflexivity|].
  unfold Unsubscribe at 1.
  match goal with
  | |- match index_of ch ?l with _ => _ end = _ =>
      assert (Hnone : index_of ch l = None)
  end.
  { apply index_of_None. intros Hc. apply Hlo in Hc as [_ Hc]. congruence. }
  rewrite Hnone. reflexivity.
Qed.

(** The round trip of a subscriber: on a fresh collector, [Subscribe]
    then [Unsubscribe] leaves no registration behind and the channel
    closed. *)
Lemma Unsubscribe_closes_and_removes_witness :
  let w := snd (Subscribe "alpha" (NewCollector Example.store 0)) in
  registry_ok w /\ 0%nat ∈ listeners_of "alpha" w /\
  exists w',
    Unsubscribe "alpha" 0%nat w = Ok w' /\
    listeners_of "alpha" w' = [] /\
    fst (recv 0%nat w') = RecvClosed.
Proof.
  intros w.
  assert (Hok : registry_ok w)
    by (apply registry_ok_Subscribe, registry_ok_new).
  assert (Hin : 0%nat ∈ listeners_of "alpha" w) by (vm_compute; left).
  split; [exact Hok|]. split; [exact Hin|].
  destruct (Unsubscribe_closes_and_removes_exactly_its_channel
              "alpha" 0%nat w Hok Hin)
    as (w' & chan & Hu & Hchan & Hchan' & _ & Hlo & _).
  exists w'. split; [exact Hu|]. split.
  - destruct (listeners_of "alpha" w') as [|c l] eqn:Hl; [reflexivity|].
    assert (Hc : c ∈ listeners_of "alpha" w')
      by (rewrite Hl; apply list_elem_of_here).
    apply Hlo in Hc as [Hc Hne]. vm_compute in Hc.
    apply list_elem_of_singleton in Hc. contradiction.
  - unfold recv. rewrite Hchan'.
    vm_compute in Hchan. injection Hchan as <-. reflexivity.
Defined.

(** X12.  A subscriber that takes each sample out of its channel
    before the next one is published receives every sample: with the
    channel empty, publishing puts the sample in it, the receive
    returns that sample and leaves the channel empty again and the
    registry as it was. *)
Theorem drained_channel_receives_the_published_sample
  {R : Type} `{Runtime R} (id : string) (ch : nat) (v : Stats) (w : World R) :
  registry_ok w -> ch ∈ listeners_of id w ->
  chans w !! ch = Some (mkChan 1 [] false) ->
  exists w1 w2,
    publish id v w = Ok w1 /\
    recv ch w1 = (Received v, w2) /\
    chans w2 !! ch = Some (mkChan 1 [] false) /\
    listeners w2 = listeners w /\
    Latest id w2 = Some v /\
    registry_ok w2.
Proof.
  intros Hok Hin Hch.
  destruct (publish_ok id v w (registry_ok_all_open w id Hok))
    as (cs & Hf & Hp).
  pose proof (fanout_slot _ _ _ _ _ _ Hf Hch) as Hslot.
  rewrite decide_True in Hslot by assumption.
  eexists _, _. split; [exact Hp|].
  assert (Hlt : (ch < length cs)%nat) by (eapply lookup_lt_Some; eassumption).
  split.
  { unfold recv. cbn [chans set_chans]. rewrite Hslot. reflexivity. }
  split.
  { cbn [chans set_chans]. apply list_lookup_insert_eq. assumption. }
  split; [reflexivity|]. split.
  { unfold Latest. simpl. apply lookup_insert_eq. }
  apply (registry_ok_same w); [reflexivity| |assumption].
  intros c. cbn [chans set_chans set_latest].
  destruct (decide (c = ch)) as [-> | Hne].
  - rewrite list_lookup_insert_eq by assumption. rewrite Hch. reflexivity.
  - rewrite list_lookup_insert_ne by congruence.
    eapply fanout_closed. eassumption.
Qed.

Lemma drained_channel_witness :
  let w := snd (Subscribe "alpha" (NewCollector Example.store 0)) in
  registry_ok w /\ 0%nat ∈ listeners_of "alpha" w /\
  chans w !! 0%nat = Some (mkChan 1 [] false) /\
  exists w1 w2,
    publish "alpha" (Example.sample 1) w = Ok w1 /\
    recv 0%nat w1 = (Received (Example.sample 1), w2) /\
    chans w2 !! 0%nat = Some (mkChan 1 [] false).
Proof.
  intros w.
  assert (Hok : registry_ok w)
    by (apply registry_ok_Subscribe, registry_ok_new).
  assert (Hin : 0%nat ∈ listeners_of "alpha" w) by (vm_compute; left).
  split; [exact Hok|]. split; [exact Hin|]. split; [reflexivity|].
  destruct (drained_channel_receives_the_published_sample
              "alpha" 0%nat (Example.sample 1) w Hok Hin eq_refl)
    as (w1 & w2 & Hp & Hr & Hc & _).
  exists w1, w2. split; [exact Hp|]. split; [exact Hr | exact Hc].
Defined.

(** X13.  One publication reaches every subscriber of the target that
    has room, and nobody else: a one-place channel of a subscriber
    takes the sample if it is empty and keeps what it holds otherwise,
    a channel of another target is not written, the cache of the
    target holds the new sample and the cache of every other target
    is unchanged. *)
Theorem publish_reaches_every_subscriber_with_room_and_nobody_else
  {R : Type} `{Runtime R} (id : string) (v : Stats) (w w' : World R) :
  publish id v w = Ok w' ->
  (forall ch b, chans w !! ch = Some (mkChan 1 b false) ->
                chans w' !! ch
                = Some (mkChan 1 (if decide (ch ∈ listeners_of id w)
                                  then match b with [] => [v] | _ => b end
                                  else b) false)) /\
  (forall ch, ch ∉ listeners_of id w -> chans w' !! ch = chans w !! ch) /\
  Latest id w' = Some v /\
  (forall id', id' <> id -> Latest id' w' = Latest id' w) /\
  listeners w' = listeners w.
Proof.
  unfold publish. unfold_outcome.
  destruct (fanout _ v _) as [cs| |] eqn:Hf; try discriminate.
  intros [= <-]. cbn [chans set_chans set_latest] in *.
  change (listeners_of id (set_latest ?m w)) with (listeners_of id w) in Hf.
  split; [|split; [|split; [|split]]].
  - intros ch b Hch. eapply fanout_slot; eassumption.
  - intros ch Hn. eapply fanout_other; [eassumption|].
    intros Hin. apply Hn. by apply list_elem_of_In.
  - unfold Latest. simpl. apply lookup_insert_eq.
  - intros id' Hne. unfold Latest. simpl. apply lookup_insert_ne. congruence.
  - reflexivity.
Qed.

Lemma publish_reaches_witness :
  let w := snd (Subscribe "beta"
                  (snd (Subscribe "alpha"
                          (snd (Subscribe "alpha"
                                  (NewCollector Example.store 0)))))) in
  exists w',
    publish "alpha" (Example.sample 1) w = Ok w' /\
    buf <$> chans w' !! 0%nat = Some [Example.sample 1] /\
    buf <$> chans w' !! 1%nat = Some [Example.sample 1] /\
    buf <$> chans w' !! 2%nat = Some [] /\
    Latest "beta" w' = None.
Proof.
  intros w.
  destruct (publish "alpha" (Example.sample 1) w) as [w'| |] eqn:Hp;
    [|vm_compute in Hp; discriminate..].
  destruct (publish_reaches_every_subscriber_with_room_and_nobody_else
              "alpha" (Example.sample 1) w w' Hp)
    as (Hslot & Hother & _ & Hlatest & _).
  exists w'. split; [reflexivity|].
  rewrite (Hslot 0%nat [] eq_refl), (Hslot 1%nat [] eq_refl).
  rewrite (Hother 2%nat)
    by (vm_compute; intros Hc; repeat (inversion Hc as [|? ? ? Hc']; subst;
          clear Hc; rename Hc' into Hc)).
  rewrite (Hlatest "beta") by discriminate.
  repeat split.
Defined.

Lemma fanout_closed_last pre ch v cs chan :
  all_open pre cs -> ch ∉ pre ->
  cs !! ch = Some chan -> closed chan = true ->
  fanout (pre ++ [ch]) v cs = Err "send on closed channel".
Proof.
  revert cs. induction pre as [|c pre IH]; intros cs Hopen Hn Hch Hcl.
  - simpl. unfold try_send. rewrite Hch, Hcl. reflexivity.
  - apply not_elem_of_cons in Hn as [Hne Hn]. simpl.
    destruct (try_send_ok c v cs) as [cs' Hs].
    { intros c' chan' [<- | []] Hc'. eapply Hopen; [left; reflexivity|].
      eassumption. }
    rewrite Hs. unfold_outcome. apply IH; try assumption.
    + intros c' chan' Hin Hc'.
      pose proof (all_open_step _ _ _ _ _ Hs Hopen) as Hopen'.
      eapply Hopen'; [right; eassumption | eassumption].
    + rewrite (try_send_other _ _ _ _ ch Hs) by assumption. assumption.
Qed.

(** X14.  [collect] sends after it has released the lock.  The update
    of the cache with the read of the listener slice, then the sends,
    are together the end of one loop iteration; but if the most recent
    subscriber of the target (the last element of the slice, whose
    removal writes nothing to the array the tick reads) unsubscribes
    between the two, the sends reach a closed channel and the tick
    panics. *)
Theorem Unsubscribe_between_the_lock_and_the_sends_panics_the_tick
  {R : Type} `{Runtime R} (id : string) (ch : nat) (pre : list nat)
  (v : Stats) (w : World R) :
  registry_ok w -> listeners_of id w = pre ++ [ch] ->
  publish id v w = (let '(chs, w1) := snapshot id v w in deliver chs v w1) /\
  (exists w', publish id v w = Ok w') /\
  exists w2,
    Unsubscribe id ch (snd (snapshot id v w)) = Ok w2 /\
    deliver (fst (snapshot id v w)) v w2 = Err "send on closed channel".
Proof.
  intros Hok Hl. split; [reflexivity|]. split.
  { destruct (publish_ok id v w (registry_ok_all_open w id Hok))
      as (cs & _ & Hp). eexists. exact Hp. }
  set (w1 := snd (snapshot id v w)).
  assert (Hok1 : registry_ok w1)
    by (apply (registry_ok_same w); [reflexivity | reflexivity | assumption]).
  assert (Hl1 : listeners_of id w1 = pre ++ [ch]) by exact Hl.
  assert (Hin : ch ∈ listeners_of id w1).
  { rewrite Hl1. apply elem_of_app. right. apply list_elem_of_here. }
  destruct (Unsubscribe_registered id ch w1 Hok1 Hin)
    as (i & chan & Hi & Hchan & Hcl & Heq).
  eexists. split; [exact Heq|].
  unfold deliver. cbn [chans set_chans set_listeners fst snapshot].
  change (listeners_of id (set_latest ?m w)) with (listeners_of id w).
  rewrite Hl.
  destruct Hok1 as (Hopen & Hnd & _).
  specialize (Hnd id). rewrite Hl1 in Hnd.
  apply NoDup_app in Hnd as (_ & Hsep & _).
  assert (Hn : ch ∉ pre).
  { intros Hc. apply (Hsep ch Hc). apply list_elem_of_here. }
  erewrite fanout_closed_last; [reflexivity | | exact Hn | |].
  - intros c chan' Hc Hchan'.
    assert (Hne : c <> ch) by (intros ->; apply Hn; by apply list_elem_of_In).
    rewrite list_lookup_insert_ne in Hchan' by congruence.
    destruct (Hopen id c) as (chan2 & Hchan2 & Hcl2).
    { rewrite Hl1. apply elem_of_app. left. by apply list_elem_of_In. }
    congruence.
  - apply list_lookup_insert_eq. eapply lookup_lt_Some. eassumption.
  - reflexivity.
Qed.

Lemma Unsubscribe_between_witness :
  let w := snd (Subscribe "alpha" (NewCollector Example.store 0)) in
  registry_ok w /\ listeners_of "alpha" w = [] ++ [0%nat] /\
  exists w2,
    Unsubscribe "alpha" 0%nat
      (snd (snapshot "alpha" (Example.sample 1) w)) = Ok w2 /\
    deliver (fst (snapshot "alpha" (Example.sample 1) w))
      (Example.sample 1) w2 = Err "send on closed channel".
Proof.
  intros w.
  assert (Hok : registry_ok w)
    by (apply registry_ok_Subscribe, registry_ok_new).
  split; [exact Hok|]. split; [reflexivity|].
  exact (proj2 (proj2
    (Unsubscribe_between_the_lock_and_the_sends_panics_the_tick
       "alpha" 0%nat [] (Example.sample 1) w Hok eq_refl))).
Defined.

End RegistryTheorems.


(** ** Telemetry collector: one tick *)

Section TickFacts.

Import Go Store Stats Spec.
Context {R : Type} `{Runtime R}.

Lemma collect_one_frame srv (w w' : World R) :
  collect_one srv w = Ok w' ->
  schedules (db w') = schedules (db w) /\
  contexts w' = contexts w /\ loops w' = loops w /\ cancel w' = cancel w /\
  exists new, stats (db w') = stats (db w) ++ new.
Proof.
  unfold collect_one.
  destruct (fetchStats (fst srv) (snd srv) (rt (add_request (snd srv) w)))
    as [[e|s] r'].
  - intros [= <-]. repeat split. exists []. simpl. by rewrite app_nil_r.
  - unfold publish. unfold_outcome.
    destruct (fanout _ s _) as [cs| |]; try discriminate.
    intros [= <-]. repeat split. eexists. reflexivity.
Qed.

Lemma collect_all_frame srvs (w w' : World R) :
  collect_all srvs w = Ok w' ->
  schedules (db w') = schedules (db w) /\
  contexts w' = contexts w /\ loops w' = loops w /\ cancel w' = cancel w /\
  exists new, stats (db w') = stats (db w) ++ new.
Proof.
  revert w. induction srvs as [|srv srvs IH]; intros w Hc; simpl in Hc.
  - injection Hc as <-. repeat split. exists []. by rewrite app_nil_r.
  - unfold_outcome.
    destruct (collect_one srv w) as [w1| |] eqn:H1; try discriminate.
    apply collect_one_frame in H1 as (Hs & Hx & Hl & Hcn & new1 & Hn1).
    apply IH in Hc as (Hs' & Hx' & Hl' & Hcn' & new2 & Hn2).
    repeat split; try congruence.
    exists (new1 ++ new2). rewrite Hn2, Hn1, app_assoc. reflexivity.
Qed.

Lemma collect_all_refused srvs (w : World R) :
  (forall cid r, exists e, fst (ContainerStatsOnce cid r) = inl e) ->
  exists w' new,
    collect_all srvs w = Ok w' /\
    db w' = db w /\ latest w' = latest w /\ chans w' = chans w /\
    listeners w' = listeners w /\
    log w' = log w ++ new /\
    Forall2 (fun entry srv => exists e, entry = LogFetch (fst srv) e) new srvs.
Proof.
  intros Hdown. revert w. induction srvs as [|srv srvs IH]; intros w.
  - exists w, []. simpl. rewrite app_nil_r. repeat split. constructor.
  - simpl. unfold collect_one at 1. unfold fetchStats.
    destruct (Hdown (snd srv) (rt (add_request (snd srv) w))) as [e He].
    destruct (ContainerStatsOnce (snd srv) (rt (add_request (snd srv) w)))
      as [resp r'].
    simpl in He. subst resp. unfold_outcome.
    match goal with |- context [collect_all srvs ?w1] =>
      destruct (IH w1) as (w' & new & Hc & Hdb & Hla & Hch & Hli & Hlog & Hf)
    end.
    exists w', (LogFetch (fst srv) e :: new).
    split; [exact Hc|]. simpl in *.
    repeat split; try assumption.
    + rewrite Hlog, <- app_assoc. reflexivity.
    + constructor; [by exists e | assumption].
Qed.

End TickFacts.

Section TickTheorems.

Import Go Store Stats Spec.

(** X15.  A tick asks the runtime once for each target that the store
    holds as running with a container, in the order of the table,
    whatever the answers are, and asks for nothing else; it changes
    neither the servers, nor the schedules, nor the registry of
    subscribers, nor the polling loops and their contexts. *)
Theorem tick_asks_each_running_target_once_and_keeps_the_rest
  {R : Type} `{Runtime R} (w w' : World R) :
  collect w = Ok w' ->
  requests w' = requests w ++ map snd (running_servers (db w)) /\
  servers (db w') = servers (db w) /\
  schedules (db w') = schedules (db w) /\
  listeners w' = listeners w /\
  contexts w' = contexts w /\ loops w' = loops w /\ cancel w' = cancel w.
Proof.
  unfold collect. unfold_outcome.
  destruct (collect_all (running_servers (db w)) w) as [w1| |] eqn:Hall;
    try discriminate.
  intros [= <-].
  pose proof (collect_all_effects _ _ _ Hall) as (Hs & Hl & Hr & _).
  pose proof (collect_all_frame _ _ _ Hall) as (Hsc & Hx & Hlo & Hc & _).
  simpl. repeat split; assumption.
Qed.

Lemma tick_asks_each_running_target_once_witness :
  exists w',
    collect Example.collector_world = Ok w' /\
    requests w' = ["c-alpha"] /\
    servers (db w') = Example.two_servers.
Proof.
  destruct (collect Example.collector_world) as [w'| |] eqn:Hc;
    [|vm_compute in Hc; discriminate..].
  exists w'. split; [reflexivity|].
  destruct (tick_asks_each_running_target_once_and_keeps_the_rest _ _ Hc)
    as (Hr & Hs & _).
  split; [exact Hr | exact Hs].
Defined.

(** X16.  After a tick the store holds no stats row older than
    twenty-four hours on the clock of the end of the tick, and every
    row that was there before the tick and is not older than that is
    still there. *)
Theorem tick_keeps_exactly_the_last_day_of_the_old_rows
  {R : Type} `{Runtime R} (w w' : World R) :
  collect w = Ok w' ->
  (forall row, row ∈ stats (db w') ->
               unix (Now (rt w')) - 86400 <= row_recorded_at row) /\
  (forall row, row ∈ stats (db w) ->
               unix (Now (rt w')) - 86400 <= row_recorded_at row ->
               row ∈ stats (db w')).
Proof.
  unfold collect. unfold_outcome.
  destruct (collect_all (running_servers (db w)) w) as [w1| |] eqn:Hall;
    try discriminate.
  intros [= <-].
  pose proof (collect_all_frame _ _ _ Hall) as (_ & _ & _ & _ & new & Hnew).
  cbn [db rt set_env delete_old_stats stats]. split.
  - intros row Hrow. apply list_elem_of_filter in Hrow as [Hrow _]. exact Hrow.
  - intros row Hrow Hage. apply list_elem_of_filter. split; [exact Hage|].
    rewrite Hnew. apply elem_of_app. by left.
Qed.

Lemma tick_keeps_the_last_day_witness :
  exists w',
    collect Outage.collector_world = Ok w' /\
    mkStatsRow "alpha" f64_zero 0 0 0 0 0 1793591990 ∈ stats (db w') /\
    mkStatsRow "alpha" f64_zero 0 0 0 0 0 1793500000 ∉ stats (db w').
Proof.
  destruct (collect Outage.collector_world) as [w'| |] eqn:Hc;
    [|vm_compute in Hc; discriminate..].
  exists w'. split; [reflexivity|].
  destruct (tick_keeps_exactly_the_last_day_of_the_old_rows _ _ Hc)
    as (Hold & Hkeep).
  assert (Hrt : rt w' = tt) by (destruct (rt w'); reflexivity).
  split.
  - apply Hkeep.
    + right. left.
    + rewrite Hrt. vm_compute. discriminate.
  - intros Hin. apply Hold in Hin. rewrite Hrt in Hin.
    vm_compute in Hin. apply Hin. reflexivity.
Defined.

(** X17.  While the runtime refuses every request, a tick still runs
    to the end, whatever the state of the channels: it writes one log
    line for each running target, in order, sends nothing, leaves the
    cache as it was (so [Latest] keeps answering with the last sample
    from before the outage), and adds no row to the store, from which
    it only drops the rows older than a day. *)
Theorem tick_during_an_outage_only_logs_and_prunes
  {R : Type} `{Runtime R} (w : World R) :
  (forall cid r, exists e, fst (ContainerStatsOnce cid r) = inl e) ->
  exists w' new,
    collect w = Ok w' /\
    latest w' = latest w /\ chans w' = chans w /\
    listeners w' = listeners w /\
    log w' = log w ++ new /\
    Forall2 (fun entry srv => exists e, entry = LogFetch (fst srv) e)
      new (running_servers (db w)) /\
    stats (db w')
    = filter (fun row => unix (Now (rt w')) - 86400 <= row_recorded_at row)
        (stats (db w)).
Proof.
  intros Hdown.
  destruct (collect_all_refused (running_servers (db w)) w Hdown)
    as (w1 & new & Hc & Hdb & Hla & Hch & Hli & Hlog & Hf).
  unfold collect. rewrite Hc. unfold_outcome.
  eexists _, new. split; [reflexivity|].
  cbn [latest chans listeners log db rt set_env delete_old_stats stats].
  rewrite Hdb. repeat split; assumption.
Qed.

Lemma tick_during_an_outage_witness :
  (forall cid r, exists e,
      fst (ContainerStatsOnce (R:=unit) cid r) = inl e) /\
  exists w',
    collect Outage.collector_world = Ok w' /\
    log w' = [LogFetch "alpha" "connection refused"] /\
    stats (db w') = [mkStatsRow "alpha" f64_zero 0 0 0 0 0 1793591990].
Proof.
  assert (Hdown : forall cid r, exists e,
             fst (ContainerStatsOnce (R:=unit) cid r) = inl e)
    by (intros cid r; eexists; reflexivity).
  split; [exact Hdown|].
  destruct (tick_during_an_outage_only_logs_and_prunes
              Outage.collector_world Hdown)
    as (w' & new & Hc & _ & _ & _ & Hlog & Hf & Hst).
  exists w'. split; [exact Hc|].
  vm_compute in Hc. injection Hc as <-. split; reflexivity.
Defined.

End TickTheorems.


(** ** Telemetry collector: the sample *)

Section SampleFacts.

Import Go Store Stats StatsSpec.

Lemma wrap_int_add_l a b : wrap_int (wrap_int a + b) = wrap_int (a + b).
Proof.
  unfold wrap_int.
  replace ((a + 2 ^ 63) mod 2 ^ 64 - 2 ^ 63 + b + 2 ^ 63)
    with ((a + 2 ^ 63) mod 2 ^ 64 + b) by lia.
  rewrite Z.add_mod_idemp_l by lia.
  f_equal. f_equal. lia.
Qed.

Lemma wrap_int_add_r a b : wrap_int (a + wrap_int b) = wrap_int (a + b).
Proof. rewrite Z.add_comm, wrap_int_add_l. f_equal. lia. Qed.

Lemma network_fold (nets : list (Z * Z)) a b :
  fold_left
    (fun acc netStats =>
       (wrap_int (fst acc + int64_of_u64 (fst netStats)),
        wrap_int (snd acc + int64_of_u64 (snd netStats))))
    nets (wrap_int a, wrap_int b)
  = (wrap_int (a + total (map fst nets)), wrap_int (b + total (map snd nets))).
Proof.
  revert a b. induction nets as [|[rx tx] nets IH]; intros a b; simpl.
  - rewrite !Z.add_0_r. reflexivity.
  - unfold int64_of_u64. rewrite !wrap_int_add_l, !wrap_int_add_r, IH.
    rewrite !Z.add_assoc. reflexivity.
Qed.

Lemma total_Permutation l l' : Permutation l l' -> total l = total l'.
Proof.
  induction 1; simpl; lia.
Qed.

End SampleFacts.

Section SampleTheorems.

Import Go Store Stats StatsSpec.

(** X18.  What a sample holds.  When the runtime answers with a
    decoded document, [fetchStats] cannot fail; the sample carries the
    name of the target, row id 0 and disk usage 0 whatever the
    container uses, the memory counters reinterpreted as [int64], and
    as network totals the sums of the counters of all interfaces
    reduced to [int64], which therefore do not depend on the order in
    which the interfaces are visited.  When the runtime answers with
    an error, that error is returned as it is. *)
Theorem fetchStats_sample_totals_and_fixed_fields
  {R : Type} `{Runtime R} (id cid : string) (r : R) :
  match ContainerStatsOnce cid r with
  | (inl e, r') => fetchStats id cid r = (inl e, r')
  | (inr doc, r') =>
      exists s,
        fetchStats id cid r = (inr s, r') /\
        ServerID s = id /\ ID s = 0 /\ DiskBytes s = 0 /\
        CPUPercent s = calculateCPUPercent doc /\
        MemoryBytes s = int64_of_u64 (memory_usage doc) /\
        MemoryLimit s = int64_of_u64 (memory_limit doc) /\
        NetworkRx s = wrap_int (total (map fst (networks doc))) /\
        NetworkTx s = wrap_int (total (map snd (networks doc))) /\
        RecordedAt s = mkTime (unix (Now r')) 0 /\
        forall nets, Permutation nets (networks doc) ->
          NetworkRx s = wrap_int (total (map fst nets)) /\
          NetworkTx s = wrap_int (total (map snd nets))
  end.
Proof.
  unfold fetchStats.
  destruct (ContainerStatsOnce cid r) as [[e|doc] r']; [reflexivity|].
  change (0, 0) with (wrap_int 0, wrap_int 0).
  rewrite network_fold. simpl.
  eexists. split; [reflexivity|]. simpl. repeat split.
  - f_equal. apply total_Permutation. apply Permutation_map.
    symmetry. assumption.
  - f_equal. apply total_Permutation. apply Permutation_map.
    symmetry. assumption.
Qed.

End SampleTheorems.


(** ** Console bridge: further properties *)

Section ConsoleMore.

Import Console Spec ConsoleSpec.

Lemma Uint32_nonneg b : 0 <= Uint32 b.
Proof.
  unfold Uint32.
  destruct b as [|b0 [|b1 [|b2 [|b3 ?]]]]; try apply Z.le_refl.
  rewrite !Z.lor_nonneg, !Z.shiftl_nonneg.
  repeat split; apply N2Z.is_nonneg.
Qed.

Lemma frame_sends s :
  exists new,
    sent (conn (match frame s with inl s' => s' | inr s' => s' end))
    = sent (conn s) ++ new /\
    Forall (fun m => m <> []) new /\
    (8 * length new + length (concat new)
     + length (pending (logReader
                          (match frame s with inl s' => s' | inr s' => s' end)))
     <= length (pending (logReader s)))%nat.
Proof.
  unfold frame.
  destruct (ReadFull 8 (logReader s)) as [[header err] r1] eqn:H1.
  pose proof (ReadFull_pending _ _ _ _ _ H1) as [Hle1 Heq1].
  destruct err as [e|].
  { exists []. simpl. rewrite app_nil_r. repeat split; [constructor | lia]. }
  specialize (Heq1 eq_refl).
  destruct (Uint32 (drop 4 header) =? 0) eqn:Hz.
  { exists []. simpl. rewrite app_nil_r. repeat split; [constructor | lia]. }
  destruct (ReadFull _ r1) as [[payload err] r2] eqn:H2.
  pose proof (ReadFull_pending _ _ _ _ _ H2) as [Hle2 Heq2].
  destruct err as [e|].
  { exists []. simpl. rewrite app_nil_r. repeat split; [constructor | lia]. }
  specialize (Heq2 eq_refl).
  assert (Hpay : length payload = Z.to_nat (Uint32 (drop 4 header))).
  { unfold ReadFull in H2.
    destruct (_ <=? _)%nat eqn:E in H2; [|discriminate].
    apply Nat.leb_le in E. injection H2 as <- _.
    rewrite length_take. lia. }
  apply Z.eqb_neq in Hz.
  assert (Hne : payload <> []).
  { intros ->. simpl in Hpay.
    pose proof (Uint32_nonneg (drop 4 header)). lia. }
  unfold WriteMessage.
  destruct (quota (conn s)) as [[|k]|].
  - exists []. simpl. rewrite app_nil_r. repeat split; [constructor | lia].
  - exists [payload]. simpl. rewrite app_nil_r.
    repeat split; [repeat constructor; assumption | lia].
  - exists [payload]. simpl. rewrite app_nil_r.
    repeat split; [repeat constructor; assumption | lia].
Qed.

Lemma pump_sends n : forall s,
  (length (pending (logReader s)) < n)%nat ->
  exists new,
    sent (conn (pump s)) = sent (conn s) ++ new /\
    Forall (fun m => m <> []) new /\
    (8 * length new + length (concat new)
     <= length (pending (logReader s)))%nat.
Proof.
  induction n as [|n IH]; intros s Hn; [lia|].
  rewrite pump_step.
  destruct (frame_sends s) as (new1 & Hs1 & Hf1 & Hl1).
  destruct (frame s) as [s'|s'] eqn:Hframe.
  - pose proof (frame_consumes _ _ Hframe) as Hlt.
    destruct (IH s' ltac:(lia)) as (new2 & Hs2 & Hf2 & Hl2).
    exists (new1 ++ new2). rewrite Hs2, Hs1, app_assoc.
    split; [reflexivity|]. split; [by apply Forall_app|].
    rewrite length_app, concat_app, length_app. lia.
  - exists new1. repeat split; try assumption. lia.
Qed.

Lemma frame_encode_quota f rest fin snt q lg :
  Z.of_nat (length (payload f)) < 2 ^ 32 ->
  frame (mkSession (mkReader (encode f ++ rest) fin) (mkConn snt q) lg)
  = match payload f, q with
    | _ :: _, Some O =>
        inr (mkSession (mkReader rest fin) (mkConn snt q) lg)
    | _ :: _, Some (S k) =>
        inl (mkSession (mkReader rest fin)
               (mkConn (snt ++ [payload f]) (Some k)) lg)
    | _ :: _, None =>
        inl (mkSession (mkReader rest fin)
               (mkConn (snt ++ [payload f]) None) lg)
    | [], _ => inl (mkSession (mkReader rest fin) (mkConn snt q) lg)
    end.
Proof.
  intros Hlen. destruct f as [t [[r1 r2] r3] p]. cbn [payload] in *.
  set (n := Z.of_nat (length p)) in *.
  set (hd := [t; r1; r2; r3] ++ be32 n).
  assert (Henc : encode (mkFrame t (r1, r2, r3) p) ++ rest
                 = hd ++ (p ++ rest)).
  { unfold encode, hd. cbn [reserved stream_type payload].
    fold n. rewrite <- !app_assoc. reflexivity. }
  unfold frame. cbn [logReader conn log]. rewrite Henc.
  change 8%nat with (length hd). rewrite ReadFull_app.
  change (drop 4 hd) with (be32 n).
  rewrite <- (app_nil_r (be32 n)), Uint32_be32 by lia.
  destruct p as [|b p].
  - change (n =? 0) with true. cbv iota. reflexivity.
  - assert (Hn : (n =? 0) = false) by (apply Z.eqb_neq; unfold n; simpl; lia).
    rewrite Hn. unfold n. rewrite Nat2Z.id, ReadFull_app.
    unfold WriteMessage. cbn [quota sent].
    destruct q as [[|k]|]; reflexivity.
Qed.

Lemma accepted_nil q : accepted q [] = [].
Proof. destruct q as [k|]; [apply take_nil | reflexivity]. Qed.

Lemma refuses_nil q : refuses q [] = false.
Proof. destruct q as [k|]; reflexivity. Qed.

Lemma pump_encode_app frames rest fin snt lg :
  Forall (fun f => Z.of_nat (length (payload f)) < 2 ^ 32) frames ->
  pump (mkSession (mkReader (flat_map encode frames ++ rest) fin)
          (mkConn snt None) lg)
  = pump (mkSession (mkReader rest fin)
            (mkConn (snt ++ forwarded frames) None) lg).
Proof.
  intros Hframes. revert snt.
  induction Hframes as [|f frames Hf _ IH]; intros snt.
  - unfold forwarded. cbn [flat_map]. rewrite app_nil_r. reflexivity.
  - cbn [flat_map]. rewrite <- app_assoc.
    rewrite pump_step, frame_encode by assumption.
    rewrite IH, (forwarded_cons f frames), app_assoc. reflexivity.
Qed.

End ConsoleMore.

Section ConsoleMoreTheorems.

Import Console Spec ConsoleSpec.

(** X19.  Whatever bytes the log stream holds, well-formed or not, the
    non-TTY pump never writes an empty message to the client, and it
    never writes more than it read: the messages it adds, with eight
    bytes of header for each, fit in the bytes of the stream. *)
Theorem non_tty_pump_never_sends_an_empty_message_nor_more_than_it_read
  (s : Session) :
  exists new,
    sent (conn (pump s)) = sent (conn s) ++ new /\
    Forall (fun m => m <> []) new /\
    (8 * length new + length (concat new)
     <= length (pending (logReader s)))%nat.
Proof.
  apply (pump_sends (S (length (pending (logReader s))))). lia.
Qed.

(** X20.  When the client stops taking messages, the non-TTY pump
    stops at the first write that fails: the client has received the
    payloads of the frames before it, the failure is not logged, and
    the rest of the stream is left unread.  As long as the writes
    succeed the pump behaves as with a client that takes
    everything. *)
Theorem non_tty_pump_stops_silently_at_the_first_failed_write
  (frames : list Frame) (tail : bytes) (fin : io_error)
  (snt : list bytes) (q : option nat) (lg : list log_entry) :
  Forall (fun f => Z.of_nat (length (payload f)) < 2 ^ 32) frames ->
  (length tail < 8)%nat ->
  let s' := pump (mkSession (mkReader (flat_map encode frames ++ tail) fin)
                    (mkConn snt q) lg) in
  sent (conn s') = snt ++ accepted q (forwarded frames) /\
  log s' = (if refuses q (forwarded frames) then lg
            else log_unless_eof LogHeaderRead (short_read tail fin) lg).
Proof.
  intros Hframes Htail. cbv zeta. revert snt q.
  induction Hframes as [|f frames Hf _ IH]; intros snt q.
  - change (flat_map encode [] ++ tail) with tail.
    rewrite pump_step, frame_short by assumption.
    unfold forwarded. cbn [flat_map conn sent log].
    rewrite accepted_nil, refuses_nil, app_nil_r. split; reflexivity.
  - cbn [flat_map]. rewrite <- app_assoc.
    rewrite pump_step, frame_encode_quota by assumption.
    rewrite (forwarded_cons f frames).
    unfold forwarded at 1 3. cbn [flat_map]. rewrite app_nil_r.
    destruct (payload f) as [|b p] eqn:Hp.
    + cbv beta iota. cbn [app]. apply IH.
    + destruct q as [[|k]|]; cbv beta iota.
      * cbn [conn sent log accepted refuses]. rewrite take_0, app_nil_r.
        split; reflexivity.
      * destruct (IH (snt ++ [b :: p]) (Some k)) as [Hs Hl].
        split; [etransitivity; [exact Hs|] | etransitivity; [exact Hl|]].
        -- cbn [accepted app firstn]. rewrite <- app_assoc. reflexivity.
        -- reflexivity.
      * destruct (IH (snt ++ [b :: p]) None) as [Hs Hl].
        split; [etransitivity; [exact Hs|] | etransitivity; [exact Hl|]].
        -- cbn [accepted app]. rewrite <- app_assoc. reflexivity.
        -- reflexivity.
Qed.

Lemma non_tty_pump_failed_write_witness :
  let s' := pump (mkSession
                    (mkReader (flat_map encode
                       [mkFrame Byte.x01 (Byte.x00, Byte.x00, Byte.x00)
                          (list_byte_of_string "hello");
                        mkFrame Byte.x02 (Byte.x00, Byte.x00, Byte.x00)
                          (list_byte_of_string "err")]
                     ++ [Byte.x01; Byte.x00]) EOF)
                    (mkConn [] (Some 1%nat)) []) in
  sent (conn s') = [list_byte_of_string "hello"] /\ log s' = [].
Proof.
  apply (non_tty_pump_stops_silently_at_the_first_failed_write
           [mkFrame Byte.x01 (Byte.x00, Byte.x00, Byte.x00)
              (list_byte_of_string "hello");
            mkFrame Byte.x02 (Byte.x00, Byte.x00, Byte.x00)
              (list_byte_of_string "err")]
           [Byte.x01; Byte.x00] EOF [] (Some 1%nat) []).
  - repeat constructor; simpl; lia.
  - simpl. lia.
Defined.

(** X21.  A frame whose payload is cut short is dropped as a whole:
    after the frames before it, the pump reads the header that
    announces [n] bytes, finds fewer, writes none of them to the
    client and returns; the short read is logged, except when the
    stream ended cleanly right after the header. *)
Theorem non_tty_pump_drops_a_truncated_payload
  (frames : list Frame) (t : Byte.byte) (n : Z) (partial : bytes)
  (fin : io_error) (snt : list bytes) (lg : list log_entry) :
  Forall (fun f => Z.of_nat (length (payload f)) < 2 ^ 32) frames ->
  0 <= n < 2 ^ 32 -> (Z.of_nat (length partial) < n) ->
  pump (mkSession
          (mkReader (flat_map encode frames ++ header t n ++ partial) fin)
          (mkConn snt None) lg)
  = mkSession (mkReader [] fin) (mkConn (snt ++ forwarded frames) None)
      (log_unless_eof LogPayloadRead (short_read partial fin) lg).
Proof.
  intros Hframes Hn Hpartial.
  rewrite pump_encode_app by assumption.
  rewrite pump_step. unfold frame. cbn [logReader conn log].
  change 8%nat with (length (header t n)). rewrite ReadFull_app.
  change (drop 4 (header t n)) with (be32 n).
  rewrite <- (app_nil_r (be32 n)), Uint32_be32 by lia.
  assert (Hz : (n =? 0) = false) by (apply Z.eqb_neq; lia).
  rewrite Hz. unfold ReadFull. cbn [pending final].
  assert (Hshort : (Z.to_nat n <=? length partial)%nat = false)
    by (apply Nat.leb_gt; lia).
  rewrite Hshort.
  destruct partial; [reflexivity | destruct fin; reflexivity].
Qed.

Lemma non_tty_pump_truncated_payload_witness :
  pump (mkSession
          (mkReader (flat_map encode
                       [mkFrame Byte.x01 (Byte.x00, Byte.x00, Byte.x00)
                          (list_byte_of_string "hello")]
                     ++ header Byte.x01 5 ++ list_byte_of_string "wor") EOF)
          (mkConn [] None) [])
  = mkSession (mkReader [] EOF) (mkConn [list_byte_of_string "hello"] None)
      [LogPayloadRead ErrUnexpectedEOF].
Proof.
  apply (non_tty_pump_drops_a_truncated_payload
           [mkFrame Byte.x01 (Byte.x00, Byte.x00, Byte.x00)
              (list_byte_of_string "hello")]
           Byte.x01 5 (list_byte_of_string "wor") EOF [] []).
  - repeat constructor; simpl; lia.
  - lia.
  - simpl. lia.
Defined.

(** X22.  The TTY pump passes the stream on as it comes: the client
    receives the data of every read up to and including the first
    read that returns an error, one message for each read that
    returned a byte or more, and no empty message, so that the
    messages put end to end are the bytes read; the pump stops
    without a log line at the first write that fails, and otherwise
    at the first read error, which is logged unless it is the end of
    the stream. *)
Theorem tty_pump_forwards_the_reads_verbatim
  (reads : list (bytes * option io_error)) (fin : io_error)
  (c : Conn) (lg : list Tty.log_entry) :
  sent (fst (Tty.pump reads fin c lg))
  = sent c ++ accepted (quota c) (messages reads) /\
  snd (Tty.pump reads fin c lg)
  = (if refuses (quota c) (messages reads) then lg
     else Tty.log_unless_eof (first_error reads fin) lg) /\
  concat (messages reads) = concat (map fst (through_first_error reads)) /\
  Forall (fun m => m <> []) (messages reads).
Proof.
  split; [|split; [|split]].
  - revert c. induction reads as [|[data err] reads IH]; intros c.
    + change (messages []) with (@nil bytes).
      rewrite accepted_nil, app_nil_r. reflexivity.
    + cbn [Tty.pump]. destruct data as [|b data].
      * change (0 <? length [])%nat with false. cbv iota beta.
        destruct err as [e|].
        -- change (messages (([], Some e) :: reads)) with (@nil bytes).
           rewrite accepted_nil, app_nil_r. reflexivity.
        -- change (messages (([], None) :: reads)) with (messages reads).
           apply IH.
      * change (0 <? length (b :: data))%nat with true. cbv iota beta.
        unfold WriteMessage. destruct err as [e|].
        -- change (messages ((b :: data, Some e) :: reads))
             with [b :: data].
           destruct (quota c) as [[|k]|]; cbn [fst sent accepted firstn];
             rewrite ?take_0, ?take_nil, ?app_nil_r; reflexivity.
        -- change (messages ((b :: data, None) :: reads))
             with ((b :: data) :: messages reads).
           destruct (quota c) as [[|k]|]; cbn [fst sent accepted].
           ++ rewrite take_0, app_nil_r. reflexivity.
           ++ etransitivity; [apply IH|]. cbn [sent quota accepted].
              rewrite <- app_assoc. reflexivity.
           ++ etransitivity; [apply IH|]. cbn [sent quota accepted].
              rewrite <- app_assoc. reflexivity.
  - revert c. induction reads as [|[data err] reads IH]; intros c.
    + change (messages []) with (@nil bytes).
      rewrite refuses_nil. reflexivity.
    + cbn [Tty.pump]. destruct data as [|b data].
      * change (0 <? length [])%nat with false. cbv iota beta.
        destruct err as [e|].
        -- change (messages (([], Some e) :: reads)) with (@nil bytes).
           rewrite refuses_nil. reflexivity.
        -- change (messages (([], None) :: reads)) with (messages reads).
           apply IH.
      * change (0 <? length (b :: data))%nat with true. cbv iota beta.
        unfold WriteMessage. destruct err as [e|].
        -- change (messages ((b :: data, Some e) :: reads))
             with [b :: data].
           destruct (quota c) as [[|k]|]; reflexivity.
        -- change (messages ((b :: data, None) :: reads))
             with ((b :: data) :: messages reads).
           destruct (quota c) as [[|k]|]; cbn [snd refuses].
           ++ reflexivity.
           ++ etransitivity; [apply IH|]. reflexivity.
           ++ etransitivity; [apply IH|]. reflexivity.
  - unfold messages.
    induction (map fst (through_first_error reads)) as [|m ms IH];
      [reflexivity|].
    destruct m as [|b m]; simpl; [exact IH | rewrite IH; reflexivity].
  - unfold messages. apply Forall_forall. intros m Hm.
    apply list_elem_of_In, filter_In in Hm as [_ Hm].
    intros ->. discriminate.
Qed.

End ConsoleMoreTheorems.


(** ** Schedule handlers and the scheduler *)

Section ScheduleApiFacts.

Import Go Store Scheduler Spec ScheduleApi.

Lemma find_after {A : Type} (f : A -> bool) l l' :
  existsb f l = false -> List.find f (l ++ l') = List.find f l'.
Proof.
  induction l as [|x l IH]; [reflexivity|]. simpl.
  destruct (f x); [discriminate | exact IH].
Qed.

Lemma update_rows_untouched f scheduleID serverID (d : DB) :
  List.find (is_row scheduleID serverID) (schedules d) = None ->
  update_rows f scheduleID serverID d = d.
Proof.
  intros Hnone. unfold update_rows. destruct d as [srvs schs sts].
  cbn [servers schedules stats] in *. f_equal.
  induction schs as [|s schs IH]; [reflexivity|]. simpl in *.
  destruct (is_row scheduleID serverID s); [discriminate|].
  rewrite IH by assumption. reflexivity.
Qed.

Lemma update_rows_find f scheduleID serverID (d : DB) :
  (forall s, sch_id (f s) = sch_id s /\ sch_server_id (f s) = sch_server_id s) ->
  List.find (is_row scheduleID serverID)
    (schedules (update_rows f scheduleID serverID d)) = None ->
  List.find (is_row scheduleID serverID) (schedules d) = None.
Proof.
  intros Hf. unfold update_rows. cbn [schedules].
  induction (schedules d) as [|s schs IH]; [reflexivity|]. simpl.
  destruct (is_row scheduleID serverID s) eqn:Hs.
  - assert (Hfs : is_row scheduleID serverID (f s) = true).
    { unfold is_row in *. destruct (Hf s) as [-> ->]. exact Hs. }
    rewrite Hfs. discriminate.
  - rewrite Hs. exact IH.
Qed.

Lemma update_rows_runnable fuel f scheduleID serverID (d : DB) :
  (forall s, runnable fuel s = true -> runnable fuel (f s) = true) ->
  Forall (fun s => runnable fuel s = true) (schedules d) ->
  Forall (fun s => runnable fuel s = true)
    (schedules (update_rows f scheduleID serverID d)).
Proof.
  intros Hf Hall. unfold update_rows. cbn [schedules].
  induction Hall as [|s schs Hs _ IH]; simpl; constructor; [|exact IH].
  destruct (is_row scheduleID serverID s); [apply Hf|]; assumption.
Qed.

Lemma Update_effects fuel serverID scheduleID body (d d' : DB) resp :
  Update fuel serverID scheduleID body d = Some (resp, d') ->
  servers d' = servers d /\ stats d' = stats d /\
  (accepted resp = false -> d' = d) /\
  (Forall (fun s => runnable fuel s = true) (schedules d) ->
   Forall (fun s => runnable fuel s = true) (schedules d')).
Proof.
  unfold Update. destruct body as [[name cronExpr action enabled]|];
    [|intros [= <- <-]; repeat split; trivial].
  cbn [ur_cron_expr ur_action ur_enabled].
  set (checked := match cronExpr with
                  | Some c => match Cron.ParseCron fuel c with
                              | Ok _ => Ok ()
                              | Err e => Err e
                              | OutOfFuel => OutOfFuel
                              end
                  | None => Ok ()
                  end).
  assert (Hcron : forall u, checked = Ok u ->
            forall c, cronExpr = Some c ->
                      is_ok (Cron.ParseCron fuel c) = true).
  { intros u Hu c ->. unfold checked in Hu.
    destruct (Cron.ParseCron fuel c); [reflexivity | discriminate..]. }
  destruct checked as [u|e|] eqn:Hchecked;
    [|intros [= <- <-]; repeat split; trivial | discriminate].
  specialize (Hcron u eq_refl).
  destruct (match action with
            | Some a => valid_action a
            | None => true
            end) eqn:Haction;
    [|intros [= <- <-]; repeat split; trivial].
  set (d1 := when_set cronExpr
               (fun c => update_rows (set_cron_expr c) scheduleID serverID) d).
  set (d2 := when_set action
               (fun a => update_rows (set_action a) scheduleID serverID) d1).
  set (d3 := when_set enabled
               (fun e => update_rows (set_enabled e) scheduleID serverID) d2).
  assert (Hsame : servers d3 = servers d /\ stats d3 = stats d).
  { unfold d3, d2, d1. destruct cronExpr, action, enabled; split; reflexivity. }
  assert (Hrun : Forall (fun s => runnable fuel s = true) (schedules d) ->
                 Forall (fun s => runnable fuel s = true) (schedules d3)).
  { intros Hall.
    assert (H1 : Forall (fun s => runnable fuel s = true) (schedules d1)).
    { unfold d1. destruct cronExpr as [c|]; [|exact Hall].
      apply update_rows_runnable; [|exact Hall].
      intros s Hs. unfold runnable in *. cbn [set_cron_expr sch_cron_expr
                                               sch_action].
      apply andb_true_iff in Hs as [_ Ha]. rewrite (Hcron c eq_refl), Ha.
      reflexivity. }
    assert (H2 : Forall (fun s => runnable fuel s = true) (schedules d2)).
    { unfold d2. destruct action as [a|]; [|exact H1].
      apply update_rows_runnable; [|exact H1].
      intros s Hs. unfold runnable in *. cbn [set_action sch_cron_expr
                                               sch_action].
      apply andb_true_iff in Hs as [Hc _]. rewrite Hc, Haction.
      reflexivity. }
    unfold d3. destruct enabled as [e|]; [|exact H2].
    apply update_rows_runnable; [|exact H2]. intros s Hs. exact Hs. }
  destruct (List.find (is_row scheduleID serverID) (schedules d3))
    as [s|] eqn:Hfind; intros [= <- <-].
  - destruct Hsame. repeat split; try assumption. discriminate.
  - destruct Hsame. repeat split; try assumption. intros _.
    assert (H3 : List.find (is_row scheduleID serverID) (schedules d2) = None).
    { unfold d3 in Hfind. destruct enabled as [e|]; [|exact Hfind].
      eapply update_rows_find; [|exact Hfind]. intros s. split; reflexivity. }
    assert (H2 : List.find (is_row scheduleID serverID) (schedules d1) = None).
    { unfold d2 in H3. destruct action as [a|]; [|exact H3].
      eapply update_rows_find; [|exact H3]. intros s. split; reflexivity. }
    assert (H1 : List.find (is_row scheduleID serverID) (schedules d) = None).
    { unfold d1 in H2. destruct cronExpr as [c|]; [|exact H2].
      eapply update_rows_find; [|exact H2]. intros s. split; reflexivity. }
    assert (E1 : d1 = d).
    { unfold d1. destruct cronExpr as [c|]; [|reflexivity].
      by apply update_rows_untouched. }
    assert (E2 : d2 = d).
    { unfold d2. rewrite E1. destruct action as [a|]; [|reflexivity].
      by apply update_rows_untouched. }
    unfold d3. rewrite E2. destruct enabled as [e|]; [|reflexivity].
    by apply update_rows_untouched.
Qed.

Lemma Create_effects fuel id serverID body (d d' : DB) resp :
  Create fuel id serverID body d = Some (resp, d') ->
  servers d' = servers d /\ stats d' = stats d /\
  (accepted resp = false -> d' = d) /\
  (Forall (fun s => runnable fuel s = true) (schedules d) ->
   Forall (fun s => runnable fuel s = true) (schedules d')) /\
  (accepted resp = true ->
   exists req,
     body = Some req /\
     schedules d'
     = schedules d
       ++ [mkSchedule id serverID (cr_cron_expr req) (cr_action req) 1 None] /\
     resp = Created (Some (mkSchedule id serverID (cr_cron_expr req)
                             (cr_action req) 1 None))).
Proof.
  unfold Create. destruct body as [[name cronExpr action]|];
    [|intros [= <- <-]; repeat split; trivial; discriminate].
  cbn [cr_name cr_cron_expr cr_action].
  destruct (_ || _ || _);
    [intros [= <- <-]; repeat split; trivial; discriminate|].
  destruct (Cron.ParseCron fuel cronExpr) as [c|e|] eqn:Hparse;
    [|intros [= <- <-]; repeat split; trivial; discriminate | discriminate].
  destruct (valid_action action) eqn:Haction;
    [|intros [= <- <-]; repeat split; trivial; discriminate].
  unfold insert_schedule.
  destruct (existsb (has_id id) (schedules d)) eqn:Htaken;
    [intros [= <- <-]; repeat split; trivial; discriminate|].
  destruct (negb _);
    [intros [= <- <-]; repeat split; trivial; discriminate|].
  cbn [orb schedules]. intros [= <- <-]. cbn [servers stats schedules].
  split; [reflexivity|]. split; [reflexivity|].
  split; [discriminate|]. split.
  - intros Hall. apply Forall_app. split; [exact Hall|].
    constructor; [|constructor]. unfold runnable.
    cbn [sch_cron_expr sch_action]. rewrite Hparse, Haction. reflexivity.
  - intros _. eexists. split; [reflexivity|]. split; [reflexivity|].
    f_equal. rewrite find_after by assumption.
    simpl. unfold has_id. cbn [sch_id].
    rewrite String.eqb_refl. reflexivity.
Qed.

Lemma Delete_effects serverID scheduleID (d : DB) fuel :
  let '(resp, d') := Delete serverID scheduleID d in
  servers d' = servers d /\ stats d' = stats d /\
  (accepted resp = false -> d' = d) /\
  (Forall (fun s => runnable fuel s = true) (schedules d) ->
   Forall (fun s => runnable fuel s = true) (schedules d')).
Proof.
  unfold Delete. destruct (existsb _ _); repeat split; trivial;
    try discriminate.
  cbn [schedules]. intros Hall. apply Forall_forall.
  intros s Hs. apply list_elem_of_In, filter_In in Hs as [Hs _].
  rewrite Forall_forall in Hall. apply Hall. by apply list_elem_of_In.
Qed.

Lemma run_effects fuel c (d d' : DB) resp :
  run fuel c d = Some (resp, d') ->
  servers d' = servers d /\ stats d' = stats d /\
  (accepted resp = false -> d' = d) /\
  (Forall (fun s => runnable fuel s = true) (schedules d) ->
   Forall (fun s => runnable fuel s = true) (schedules d')).
Proof.
  destruct c as [id serverID body | serverID scheduleID body
                 | serverID scheduleID]; cbn [run].
  - intros Hc. apply Create_effects in Hc as (? & ? & ? & ? & _).
    repeat split; assumption.
  - apply Update_effects.
  - intros [= Hd]. pose proof (Delete_effects serverID scheduleID d fuel) as He.
    rewrite Hd in He. exact He.
Qed.

Lemma run_calls_runnable fuel cs (d d' : DB) :
  run_calls fuel cs d = Some d' ->
  Forall (fun s => runnable fuel s = true) (schedules d) ->
  Forall (fun s => runnable fuel s = true) (schedules d').
Proof.
  revert d. induction cs as [|c cs IH]; intros d; simpl.
  - intros [= <-]. trivial.
  - destruct (run fuel c d) as [[resp d1]|] eqn:Hrun; [|discriminate].
    intros Hrest Hall. apply (IH d1 Hrest).
    apply run_effects in Hrun as (_ & _ & _ & Hkeep). by apply Hkeep.
Qed.

Lemma load_jobs_row (d : DB) j :
  In j (load_jobs d) ->
  exists s, In s (schedules d) /\
            cronExpr j = sch_cron_expr s /\ action j = sch_action s.
Proof.
  unfold load_jobs. intros Hj. apply in_flat_map in Hj as (s & Hs & Hj).
  exists s. split; [assumption|]. unfold jobs_of in Hj.
  destruct (sch_enabled s =? 1); [|destruct Hj].
  apply in_map_iff in Hj as (srv & <- & _). split; reflexivity.
Qed.

Context {R : Type} `{Runtime R}.

Lemma valid_action_call a sid cid :
  valid_action a = true ->
  exists call : R -> option string * R, action_call a sid cid = Some call.
Proof.
  unfold valid_action, action_call.
  destruct (String.eqb a "start"); [eauto|].
  destruct (String.eqb a "stop"); [eauto|].
  destruct (String.eqb a "restart"); [eauto|].
  destruct (String.eqb a "backup"); [eauto | discriminate].
Qed.

Lemma run_jobs_reports fuel now jobs (w : World R) :
  (forall j, In j jobs ->
             is_ok (Cron.ParseCron fuel (cronExpr j)) = true /\
             valid_action (action j) = true) ->
  exists w' new,
    run_jobs fuel now jobs w = Some w' /\
    log w' = log w ++ new /\
    Forall (fun e => reports_a_run e = true) new.
Proof.
  revert w. induction jobs as [|j jobs IH]; intros w Hjobs.
  - exists w, []. simpl. rewrite app_nil_r. repeat split. constructor.
  - destruct (Hjobs j (or_introl eq_refl)) as [Hparse Haction].
    apply is_ok_Ok in Hparse as [c Hc].
    assert (Hstep : exists w1 new1,
               run_job fuel now j w = Some w1 /\
               log w1 = log w ++ new1 /\
               Forall (fun e => reports_a_run e = true) new1).
    { unfold run_job. rewrite Hc.
      destruct (negb (Cron.Matches c now)).
      - exists w, []. rewrite app_nil_r. repeat split. constructor.
      - destruct (valid_action_call (action j) (serverID j) (containerID j)
                    Haction) as [call Hcall].
        pose proof (execute_spec (action j) (serverID j) (containerID j)
                      (logf (LogRunning (action j) (serverID j) (scheduleID j))
                         w) call Hcall) as (_ & Hlog & _).
        eexists _, _. split; [reflexivity|]. cbn [log]. split.
        + rewrite Hlog. cbn [log logf]. rewrite <- app_assoc. reflexivity.
        + apply Forall_app. split; [repeat constructor|].
          destruct (fst (call _)); repeat constructor. }
    destruct Hstep as (w1 & new1 & Hrun1 & Hlog1 & Hf1).
    destruct (IH w1) as (w' & new & Hrun & Hlog & Hf).
    { intros j' Hj'. apply Hjobs. right. assumption. }
    exists w', (new1 ++ new). simpl. rewrite Hrun1. split; [exact Hrun|].
    split; [rewrite Hlog, Hlog1, app_assoc; reflexivity|].
    by apply Forall_app.
Qed.

End ScheduleApiFacts.

Section ScheduleApiTheorems.

Import Go Store Scheduler Spec ScheduleApi.

(** X23.  The three schedule handlers write to the schedules only: the
    servers and the stats rows are as before.  A request that is not
    answered with 200 or 201 leaves the store exactly as it was, also
    an [Update] whose expression is accepted and whose action is not,
    and an [Update] of a row that does not exist.  If every schedule
    in the store was runnable (its expression parses and its action is
    start, stop, restart or backup), every schedule still is. *)
Theorem schedule_handlers_write_nothing_when_they_refuse_and_keep_schedules_runnable
  (fuel : nat) (c : call) (d d' : DB) (resp : response) :
  run fuel c d = Some (resp, d') ->
  servers d' = servers d /\ stats d' = stats d /\
  (accepted resp = false -> d' = d) /\
  (Forall (fun s => runnable fuel s = true) (schedules d) ->
   Forall (fun s => runnable fuel s = true) (schedules d')).
Proof.
  destruct c as [id serverID body | serverID scheduleID body
                 | serverID scheduleID]; cbn [run]; intros Hrun.
  - apply Create_effects in Hrun as (Hsrv & Hst & Hrefused & Hkeep & _).
    repeat split; assumption.
  - exact (Update_effects _ _ _ _ _ _ _ Hrun).
  - injection Hrun as Hd.
    pose proof (Delete_effects serverID scheduleID d fuel) as He.
    rewrite Hd in He. exact He.
Qed.

Lemma schedule_handlers_refuse_witness :
  run 61 (CallUpdate "alpha" "s1"
            (Some (mkUpdate None (Some "*/5 * * * *") (Some "reboot") None)))
    Example.store
  = Some (BadRequest "action must be one of: start, stop, restart, backup",
          Example.store) /\
  Forall (fun s => runnable 61 s = true) (schedules Example.store).
Proof.
  assert (Hrun : run 61 (CallUpdate "alpha" "s1"
                   (Some (mkUpdate None (Some "*/5 * * * *") (Some "reboot")
                            None)))
                   Example.store
                 = Some (BadRequest
                           "action must be one of: start, stop, restart, backup",
                         Example.store))
    by (vm_compute; reflexivity).
  split; [exact Hrun|].
  destruct (schedule_handlers_write_nothing_when_they_refuse_and_keep_schedules_runnable
              61 _ _ _ _ Hrun) as (_ & _ & _ & Hkeep).
  apply Hkeep. repeat constructor.
Defined.

(** X24.  [Create] accepts a request exactly when its name, expression
    and action are not empty, the expression parses, the action is one
    of the four, the id is free and the server exists; the new row is
    then added at the end of the table, enabled and never run, and it
    is the row sent back. *)
Theorem Create_adds_one_enabled_row_or_nothing
  (fuel : nat) (id serverID : string) (req : create_request) (d : DB) :
  Cron.ParseCron fuel (cr_cron_expr req) <> OutOfFuel ->
  let row := mkSchedule id serverID (cr_cron_expr req) (cr_action req) 1 None in
  let ok :=
    negb (String.eqb (cr_name req) EmptyString) &&
    negb (String.eqb (cr_cron_expr req) EmptyString) &&
    negb (String.eqb (cr_action req) EmptyString) &&
    is_ok (Cron.ParseCron fuel (cr_cron_expr req)) &&
    valid_action (cr_action req) &&
    negb (existsb (has_id id) (schedules d)) &&
    existsb (fun srv => String.eqb (srv_id srv) serverID) (servers d) in
  exists resp d',
    Create fuel id serverID (Some req) d = Some (resp, d') /\
    accepted resp = ok /\
    (ok = true ->
     resp = Created (Some row) /\
     d' = mkDB (servers d) (schedules d ++ [row]) (stats d)) /\
    (ok = false -> d' = d).
Proof.
  intros Hfuel row ok.
  destruct (Create fuel id serverID (Some req) d) as [[resp d']|] eqn:Hc.
  2:{ exfalso. unfold Create in Hc.
      destruct (_ || _ || _); [discriminate|].
      destruct (Cron.ParseCron fuel (cr_cron_expr req)); [|discriminate|].
      - destruct (valid_action _); [|discriminate].
        destruct (insert_schedule _ _ _ _ _); discriminate.
      - by apply Hfuel. }
  exists resp, d'. split; [reflexivity|].
  pose proof (Create_effects _ _ _ _ _ _ _ Hc)
    as (Hsrv & Hst & Hrefused & _ & Haccepted).
  assert (Hok : accepted resp = ok).
  { unfold Create in Hc. unfold ok.
    destruct (String.eqb (cr_name req) EmptyString);
      [injection Hc as <- <-; reflexivity|].
    destruct (String.eqb (cr_cron_expr req) EmptyString);
      [injection Hc as <- <-; reflexivity|].
    destruct (String.eqb (cr_action req) EmptyString);
      [injection Hc as <- <-; reflexivity|].
    cbn [orb negb andb] in *.
    destruct (Cron.ParseCron fuel (cr_cron_expr req));
      [|injection Hc as <- <-; reflexivity | discriminate].
    destruct (valid_action (cr_action req));
      [|injection Hc as <- <-; reflexivity].
    unfold insert_schedule in Hc. cbn [is_ok andb].
    destruct (existsb (has_id id) (schedules d));
      [injection Hc as <- <-; reflexivity|].
    destruct (existsb _ (servers d));
      injection Hc as <- <-; reflexivity. }
  split; [exact Hok|]. split.
  - intros Htrue. rewrite <- Hok in Htrue.
    destruct (Haccepted Htrue) as (req' & [= <-] & Hrows & Hresp).
    split; [exact Hresp|].
    destruct d' as [srvs schs sts]. cbn [servers schedules stats] in *.
    rewrite Hsrv, Hst, Hrows. reflexivity.
  - intros Hfalse. apply Hrefused. congruence.
Qed.

Lemma Create_adds_one_enabled_row_witness :
  Cron.ParseCron 61 "0 4 * * 1-5" <> OutOfFuel /\
  Create 61 "s4" "alpha" (Some (mkCreate "nightly" "0 4 * * 1-5" "backup"))
    Example.store
  = Some (Created (Some (mkSchedule "s4" "alpha" "0 4 * * 1-5" "backup" 1
                           None)),
          mkDB Example.two_servers
            (Example.three_schedules
             ++ [mkSchedule "s4" "alpha" "0 4 * * 1-5" "backup" 1 None])
            []).
Proof.
  assert (Hfuel : Cron.ParseCron 61 "0 4 * * 1-5" <> OutOfFuel)
    by (vm_compute; discriminate).
  split; [exact Hfuel|].
  destruct (Create_adds_one_enabled_row_or_nothing
              61 "s4" "alpha" (mkCreate "nightly" "0 4 * * 1-5" "backup")
              Example.store Hfuel)
    as (resp & d' & Hc & _ & Hok & _).
  destruct (Hok ltac:(vm_compute; reflexivity)) as [-> ->].
  exact Hc.
Defined.

(** X25.  Schedules that came in through the handlers never confuse
    the scheduler.  Starting from a store whose schedules are runnable
    (no schedule at all, for one), after any sequence of requests to
    [Create], [Update] and [Delete], a pass of the scheduler runs to
    the end and logs nothing but the schedules it runs and the calls
    that fail: no "invalid cron" line and no "unknown action" line. *)
Theorem schedules_made_through_the_handlers_never_trip_the_scheduler
  {R : Type} `{Runtime R} (fuel : nat) (cs : list call) (d0 d : DB)
  (r : R) (lg : list log_entry) :
  Forall (fun s => runnable fuel s = true) (schedules d0) ->
  run_calls fuel cs d0 = Some d ->
  exists w' new,
    tick fuel (mkWorld d r lg) = Some w' /\
    log w' = lg ++ new /\
    Forall (fun e => reports_a_run e = true) new.
Proof.
  intros Hall Hcalls.
  pose proof (run_calls_runnable _ _ _ _ Hcalls Hall) as Hd.
  unfold tick. cbn [db rt].
  apply (run_jobs_reports fuel (Now r) (load_jobs d) (mkWorld d r lg)).
  intros j Hj. apply load_jobs_row in Hj as (s & Hs & -> & ->).
  rewrite Forall_forall in Hd.
  specialize (Hd s ltac:(by apply list_elem_of_In)).
  unfold runnable in Hd. by apply andb_true_iff in Hd.
Qed.

Lemma schedules_made_through_the_handlers_witness :
  let d0 := mkDB Example.two_servers [] [] in
  let cs :=
    [CallCreate "s1" "alpha" (Some (mkCreate "wake" "0 4 * * *" "start"));
     CallCreate "s2" "alpha" (Some (mkCreate "bad" "0 4 * *" "start"));
     CallUpdate "alpha" "s1"
       (Some (mkUpdate None None (Some "restart") None));
     CallCreate "s3" "beta" (Some (mkCreate "dump" "*/15 4 * * 1" "backup"))] in
  exists d w' new,
    run_calls 61 cs d0 = Some d /\
    length (schedules d) = 2%nat /\
    tick 61 (mkWorld d Example.four_o_clock []) = Some w' /\
    log w' = new /\
    Forall (fun e => reports_a_run e = true) new.
Proof.
  intros d0 cs.
  destruct (run_calls 61 cs d0) as [d|] eqn:Hcalls;
    [|vm_compute in Hcalls; discriminate].
  destruct (schedules_made_through_the_handlers_never_trip_the_scheduler
              61 cs d0 d Example.four_o_clock []
              ltac:(constructor) Hcalls)
    as (w' & new & Htick & Hlog & Hf).
  exists d, w', new. split; [reflexivity|]. split.
  - vm_compute in Hcalls. injection Hcalls as <-. reflexivity.
  - split; [exact Htick|]. split; [exact Hlog | exact Hf].
Defined.

End ScheduleApiTheorems.


(** ** Telemetry collector: the CPU percentage as a number *)

Section CpuNumbers.

Import Go Stats StatsSpec.

Lemma digits2_pos_size p : digits2_pos p = Pos.size p.
Proof. induction p; simpl; congruence. Qed.

Lemma Zdigits2_nonneg m : 0 <= m -> 0 <= Zdigits2 m.
Proof. destruct m; simpl; lia. Qed.

(** A non-negative mantissa below [2^k] has at most [k] digits. *)
Lemma Zdigits2_bound m k : 0 <= k -> 0 <= m < 2 ^ k -> Zdigits2 m <= k.
Proof.
  intros Hk [Hm Hlt]. destruct m as [|p|p]; simpl; [lia | | lia].
  rewrite digits2_pos_size.
  pose proof (Pos.size_le p) as Hle.
  assert (H2 : 2 ^ Z.pos (Pos.size p) <= 2 * Z.pos p).
  { rewrite <- Pos2Z.inj_pow. change (2 * Z.pos p) with (Z.pos p~0). lia. }
  destruct (Z.le_gt_cases (Z.pos (Pos.size p)) k) as [|Hgt]; [assumption|].
  exfalso.
  assert (2 ^ (k + 1) <= 2 ^ Z.pos (Pos.size p))
    by (apply Z.pow_le_mono_r; lia).
  rewrite Z.pow_add_r, Z.pow_1_r in H by lia. lia.
Qed.

(** A mantissa with [d] digits is below [2^d]. *)
Lemma Zdigits2_gt m : 0 <= m -> m < 2 ^ Zdigits2 m.
Proof.
  intros Hm. destruct m as [|p|p]; simpl; [lia | | lia].
  rewrite digits2_pos_size. pose proof (Pos.size_gt p) as Hgt.
  rewrite <- Pos2Z.inj_pow. lia.
Qed.

Lemma shr_1_bound mrs :
  0 <= shr_m mrs -> 0 <= shr_m (shr_1 mrs) /\ 2 * shr_m (shr_1 mrs) <= shr_m mrs.
Proof.
  destruct mrs as [m r s]. simpl. intros Hm.
  destruct m as [|[p|p|]|p]; simpl; lia.
Qed.

(** [n] right shifts divide the mantissa by [2^n]. *)
Lemma iter_shr_1_bound n : forall mrs,
  0 <= shr_m mrs ->
  0 <= shr_m (SpecFloat.iter_pos shr_1 n mrs) /\
  2 ^ Z.pos n * shr_m (SpecFloat.iter_pos shr_1 n mrs) <= shr_m mrs.
Proof.
  induction n as [n IH|n IH|]; intros mrs Hm; simpl SpecFloat.iter_pos.
  - destruct (shr_1_bound mrs Hm) as [H0 H1].
    destruct (IH _ H0) as [H2 H3]. destruct (IH _ H2) as [H4 H5].
    split; [assumption|].
    replace (Z.pos n~1) with (Z.pos n + Z.pos n + 1) by lia.
    rewrite !Z.pow_add_r, Z.pow_1_r by lia.
    pose proof (Z.pow_pos_nonneg 2 (Z.pos n) ltac:(lia) ltac:(lia)). nia.
  - destruct (IH _ Hm) as [H2 H3]. destruct (IH _ H2) as [H4 H5].
    split; [assumption|].
    replace (Z.pos n~0) with (Z.pos n + Z.pos n) by lia.
    rewrite !Z.pow_add_r by lia.
    pose proof (Z.pow_pos_nonneg 2 (Z.pos n) ltac:(lia) ltac:(lia)). nia.
  - apply shr_1_bound. assumption.
Qed.

Lemma shr_m_of_loc m l : shr_m (shr_record_of_loc m l) = m.
Proof. destruct l as [|[]]; reflexivity. Qed.

(** The truncation to the precision of the format: the mantissa that
    comes out is below [2^53], and the exponent does not go down. *)
Lemma shr_fexp_bound m e l mrs e' :
  0 <= m ->
  shr_fexp f64_prec f64_emax m e l = (mrs, e') ->
  0 <= shr_m mrs < 2 ^ 53 /\ shr_m mrs <= m /\
  e <= e' /\ (e' = e \/ e' = fexp f64_prec f64_emax (Zdigits2 m + e)).
Proof.
  intros Hm. unfold shr_fexp, shr.
  pose proof (Zdigits2_gt m Hm) as Hd.
  pose proof (Zdigits2_nonneg m Hm) as Hd0.
  set (d := Zdigits2 m) in *.
  assert (Hf : d + e - 53 <= fexp f64_prec f64_emax (d + e))
    by (unfold fexp, f64_prec; lia).
  destruct (fexp f64_prec f64_emax (d + e) - e) as [|n|n] eqn:Hn;
    intros [= <- <-]; rewrite ?shr_m_of_loc.
  - assert (d <= 53) by lia.
    assert (2 ^ d <= 2 ^ 53) by (apply Z.pow_le_mono_r; lia).
    repeat split; lia.
  - destruct (iter_shr_1_bound n (shr_record_of_loc m l)) as [H0 H1];
      [rewrite shr_m_of_loc; assumption|].
    rewrite shr_m_of_loc in H1.
    set (x := shr_m (SpecFloat.iter_pos shr_1 n (shr_record_of_loc m l))) in *.
    assert (Hpn : 0 < 2 ^ Z.pos n) by (apply Z.pow_pos_nonneg; lia).
    assert (Hx : x < 2 ^ 53).
    { destruct (Z.lt_ge_cases x (2 ^ 53)) as [|Hge]; [assumption|].
      exfalso.
      assert (2 ^ d <= 2 ^ (Z.pos n + 53)) by (apply Z.pow_le_mono_r; lia).
      rewrite Z.pow_add_r in H by lia. nia. }
    repeat split; try lia; try nia.
  - assert (d <= 53) by lia.
    assert (2 ^ d <= 2 ^ 53) by (apply Z.pow_le_mono_r; lia).
    repeat split; lia.
Qed.

Lemma round_nearest_even_bound m l :
  0 <= m -> m <= round_nearest_even m l <= m + 1.
Proof.
  intros Hm. unfold round_nearest_even.
  destruct l as [|[]]; try lia. destruct (Z.even m); lia.
Qed.

Lemma finite_nonneg_weaken f lo hi lo' hi' :
  lo' <= lo -> hi <= hi' -> finite_nonneg f lo hi -> finite_nonneg f lo' hi'.
Proof. intros Hlo Hhi. destruct f as [[]| | |[] m e]; simpl; lia. Qed.

(** Rounding a non-negative mantissa below [2^k] with exponent [e]
    gives zero or a positive number whose exponent is bounded in terms
    of [k] and [e]; it is never an infinity when that bound is within
    the format. *)
Lemma binary_round_aux_bound m e l k :
  0 <= k -> 0 <= m < 2 ^ k ->
  Z.max e (k + e - 53) + 1 <= 971 ->
  finite_nonneg (binary_round_aux f64_prec f64_emax false m e l)
    e (Z.max (Z.max e (k + e - 53)) (-1074) + 1).
Proof.
  intros Hk [Hm Hlt] Hfit. unfold binary_round_aux.
  destruct (shr_fexp f64_prec f64_emax m e l) as [mrs1 e1] eqn:H1.
  apply shr_fexp_bound in H1 as (Hm1 & Hle1 & Hge1 & He1); [|assumption].
  pose proof (round_nearest_even_bound (shr_m mrs1) (loc_of_shr_record mrs1)
                ltac:(lia)) as Hr.
  set (m2 := round_nearest_even (shr_m mrs1) (loc_of_shr_record mrs1)) in *.
  destruct (shr_fexp f64_prec f64_emax m2 e1 loc_Exact) as [mrs2 e2] eqn:H2.
  apply shr_fexp_bound in H2 as (Hm2 & Hle2 & Hge2 & He2); [|lia].
  pose proof (Zdigits2_bound m k Hk ltac:(lia)) as Hdm.
  pose proof (Zdigits2_bound m2 54 ltac:(lia)
                ltac:(change (2 ^ 54) with (2 * 2 ^ 53); lia)) as Hd2.
  assert (Hf1 : e1 <= Z.max (Z.max e (k + e - 53)) (-1074))
    by (unfold fexp, emin, f64_prec, f64_emax in He1; lia).
  assert (Hf2 : e2 <= Z.max (Z.max e (k + e - 53)) (-1074) + 1)
    by (unfold fexp, emin, f64_prec, f64_emax in He2; lia).
  destruct (shr_m mrs2) as [|p|p] eqn:Hp; [simpl; auto | | lia].
  assert (Hin : (e2 <=? f64_emax - f64_prec) = true)
    by (apply Z.leb_le; unfold f64_emax, f64_prec; lia).
  rewrite Hin. simpl. repeat split; lia.
Qed.

Lemma iter_xO m d : Z.pos (Pos.iter xO m d) = Z.pos m * 2 ^ Z.pos d.
Proof.
  apply (Pos.iter_ind _ xO m (fun p a => Z.pos a = Z.pos m * 2 ^ Z.pos p)).
  - rewrite Z.pow_1_r. lia.
  - intros p a Ha. rewrite Pos2Z.inj_succ, Z.pow_succ_r by lia. lia.
Qed.

(** The conversion of a [uint64] is zero or a positive number of
    moderate exponent. *)
Lemma f64_of_Z_bound z :
  0 <= z < 2 ^ 64 -> finite_nonneg (f64_of_Z z) (-52) 64.
Proof.
  intros [Hz Hlt]. unfold f64_of_Z, binary_normalize.
  destruct z as [|p|p]; [simpl; auto | | lia].
  unfold binary_round.
  pose proof (Zdigits2_bound (Z.pos p) 64 ltac:(lia) ltac:(lia)) as Hd.
  pose proof (Zdigits2_gt (Z.pos p) ltac:(lia)) as Hgt.
  simpl Zdigits2 in Hd, Hgt.
  set (d := Z.pos (digits2_pos p)) in *.
  assert (Hfexp : fexp f64_prec f64_emax (d + 0) = d - 53)
    by (unfold fexp, emin, f64_prec, f64_emax; lia).
  rewrite Hfexp. unfold shl_align.
  destruct (d - 53 - 0) as [|n|n] eqn:Hn.
  - eapply finite_nonneg_weaken;
      [| |apply (binary_round_aux_bound (Z.pos p) 0 loc_Exact 64)]; lia.
  - eapply finite_nonneg_weaken;
      [| |apply (binary_round_aux_bound (Z.pos p) 0 loc_Exact 64)]; lia.
  - assert (Hmz : Z.pos (Pos.iter xO p n) < 2 ^ 116).
    { rewrite iter_xO.
      assert (2 ^ Z.pos n <= 2 ^ 52) by (apply Z.pow_le_mono_r; lia).
      change (2 ^ 116) with (2 ^ 64 * 2 ^ 52). nia. }
    eapply finite_nonneg_weaken;
      [| |apply (binary_round_aux_bound (Z.pos (Pos.iter xO p n)) (d - 53)
                   loc_Exact 116)]; lia.
Qed.

(** The product of two such numbers, while the exponents stay well
    inside the format. *)
Lemma f64_mul_bound x y lx hx ly hy :
  finite_nonneg x lx hx -> finite_nonneg y ly hy -> hx + hy + 54 <= 971 ->
  finite_nonneg (f64_mul x y) (lx + ly) (Z.max (hx + hy + 54) (-1073)).
Proof.
  intros Hx Hy Hfit.
  destruct x as [[]| | |[] mx ex]; try contradiction;
    destruct y as [[]| | |[] my ey]; try contradiction;
    try (simpl; auto; fail).
  destruct Hx as [Hmx Hex], Hy as [Hmy Hey].
  unfold f64_mul, SFmul. cbn [xorb].
  eapply finite_nonneg_weaken;
    [| |apply (binary_round_aux_bound (Z.pos (mx * my)) (ex + ey) loc_Exact
                 106)]; try lia.
  rewrite Pos2Z.inj_mul. change (2 ^ 106) with (2 ^ 53 * 2 ^ 53). nia.
Qed.

(** The quotient of two positive numbers. *)
Lemma f64_div_bound mx ex my ey lx hx ly hy :
  finite_nonneg (S754_finite false mx ex) lx hx ->
  finite_nonneg (S754_finite false my ey) ly hy ->
  hx - ly + 106 <= 971 ->
  finite_nonneg (f64_div (S754_finite false mx ex) (S754_finite false my ey))
    (Z.min (lx - hy) (-1074)) (Z.max (hx - ly + 106) (-1073)).
Proof.
  intros [Hmx Hex] [Hmy Hey] Hfit.
  unfold f64_div, SFdiv. cbn [xorb]. unfold SFdiv_core_binary.
  pose proof (Zdigits2_bound (Z.pos mx) 53 ltac:(lia) ltac:(lia)) as Hd1.
  pose proof (Zdigits2_bound (Z.pos my) 53 ltac:(lia) ltac:(lia)) as Hd2.
  assert (Hd1' : 1 <= Zdigits2 (Z.pos mx)) by (simpl; lia).
  assert (Hd2' : 1 <= Zdigits2 (Z.pos my)) by (simpl; lia).
  set (d1 := Zdigits2 (Z.pos mx)) in *. set (d2 := Zdigits2 (Z.pos my)) in *.
  set (f := fexp f64_prec f64_emax (d1 + ex - (d2 + ey))).
  assert (Hf : d1 + ex - (d2 + ey) - 53 <= f /\ -1074 <= f)
    by (unfold f, fexp, emin, f64_prec, f64_emax; lia).
  set (e' := Z.min f (ex - ey)).
  set (s := ex - ey - e').
  assert (Hs : 0 <= s <= 105) by (unfold s, e'; lia).
  set (m' := match s with
             | 0 => Z.pos mx
             | Z.pos _ => Z.shiftl (Z.pos mx) s
             | Z.neg _ => 0
             end).
  assert (Hm' : 0 <= m' < 2 ^ 158).
  { unfold m'. destruct s as [|n|n] eqn:Hn; [lia | | lia].
    rewrite Z.shiftl_mul_pow2 by lia.
    assert (0 < 2 ^ Z.pos n <= 2 ^ 105)
      by (split; [apply Z.pow_pos_nonneg | apply Z.pow_le_mono_r]; lia).
    change (2 ^ 158) with (2 ^ 53 * 2 ^ 105). nia. }
  destruct (Z.div_eucl m' (Z.pos my)) as [q r] eqn:Hqr.
  assert (Hq : q = m' / Z.pos my) by (unfold Z.div; rewrite Hqr; reflexivity).
  assert (Hq' : 0 <= q < 2 ^ 158).
  { rewrite Hq. split; [apply Z.div_pos; lia|].
    apply Z.le_lt_trans with m'; [|lia].
    apply Z.div_le_upper_bound; [lia | nia]. }
  eapply finite_nonneg_weaken;
    [| |apply (binary_round_aux_bound q e' (new_location (Z.pos my) r) 158)];
    unfold e'; lia.
Qed.

Lemma finite_nonneg_is_finite f lo hi :
  finite_nonneg f lo hi -> is_finite_nonneg f = true.
Proof. destruct f as [[]| | |[] m e]; simpl; tauto. Qed.

End CpuNumbers.

Section CpuNumbersTheorems.

Import Go Stats StatsSpec.

(** X26.  Whatever the counters of the document hold, a counter that
    went backwards or wrapped around included, the CPU percentage is a
    number: zero or a positive finite [float64], never negative, never
    an infinity and never a NaN (which the JSON encoder would refuse). *)
Theorem calculateCPUPercent_is_a_finite_non_negative_number
  (doc : dockerStatsJSON) :
  0 <= cpu_online_cpus doc < 2 ^ 64 ->
  is_finite_nonneg (calculateCPUPercent doc) = true.
Proof.
  intros Hcpus. unfold calculateCPUPercent.
  pose proof (f64_of_Z_bound
                (wrap_u64 (cpu_total_usage doc - precpu_total_usage doc))
                ltac:(apply Z.mod_pos_bound; lia)) as Hcd.
  pose proof (f64_of_Z_bound
                (wrap_u64 (cpu_system_usage doc - precpu_system_usage doc))
                ltac:(apply Z.mod_pos_bound; lia)) as Hsd.
  pose proof (f64_of_Z_bound (cpu_online_cpus doc) Hcpus) as Hn.
  pose proof (f64_of_Z_bound 1 ltac:(lia)) as H1.
  pose proof (f64_of_Z_bound 100 ltac:(lia)) as H100.
  set (cd := f64_of_Z (wrap_u64 (cpu_total_usage doc - precpu_total_usage doc)))
    in *.
  set (sd := f64_of_Z
               (wrap_u64 (cpu_system_usage doc - precpu_system_usage doc)))
    in *.
  set (n := f64_of_Z (cpu_online_cpus doc)) in *.
  destruct sd as [[]| | |[] ms es]; try contradiction; [reflexivity|].
  destruct cd as [[]| | |[] mc ec]; try contradiction; [reflexivity|].
  change (f64_leb (S754_finite false ms es) f64_zero) with false.
  change (f64_leb (S754_finite false mc ec) f64_zero) with false.
  cbv beta iota. cbn [orb].
  set (cpus := if f64_eqb n f64_zero then f64_of_Z 1 else n).
  assert (Hcpus' : finite_nonneg cpus (-52) 64)
    by (unfold cpus; destruct (f64_eqb n f64_zero); assumption).
  pose proof (f64_div_bound mc ec ms es _ _ _ _ Hcd Hsd ltac:(lia)) as Hq.
  apply (finite_nonneg_weaken _ _ _ (-1074) 222) in Hq; [|lia..].
  pose proof (f64_mul_bound _ _ _ _ _ _ Hq Hcpus' ltac:(lia)) as Hp.
  apply (finite_nonneg_weaken _ _ _ (-1126) 340) in Hp; [|lia..].
  pose proof (f64_mul_bound _ _ _ _ _ _ Hp H100 ltac:(lia)) as Hr.
  eapply finite_nonneg_is_finite. exact Hr.
Qed.

Lemma calculateCPUPercent_is_a_number_witness :
  0 <= 0 < 2 ^ 64 /\
  is_finite_nonneg
    (calculateCPUPercent
       (mkDockerStats 1000 5000000 0 2000 4000000 0 0 [])) = true.
Proof.
  split; [lia|].
  apply (calculateCPUPercent_is_a_finite_non_negative_number
           (mkDockerStats 1000 5000000 0 2000 4000000 0 0 [])).
  simpl. lia.
Defined.

End CpuNumbersTheorems.


(** ** Cron evaluator: star parts *)

Section CronStars.

Import Go Cron CronSpec.

Lemma progression_interval lo hi v :
  lo <= v <= hi -> In v (progression lo hi 1).
Proof.
  intros Hv. apply progression_In; [lia|]. split; [lia|].
  apply Z.mod_1_r.
Qed.



(** X28.  A field written [*] lets through every value the clock can
    show for it: whatever the time, its minute, hour, day of the month,
    month and day of the week are among the values of a [*] in the
    respective field.  So the expression of five stars is accepted,
    with any fuel above sixty, and matches every time. *)
Theorem star_fields_match_every_time (fuel : nat) :
  (60 < fuel)%nat ->
  exists c,
    ParseCron fuel "* * * * *" = Ok c /\
    parseField fuel "*" 0 59 = Ok (Minutes c) /\
    parseField fuel "*" 0 23 = Ok (Hours c) /\
    parseField fuel "*" 1 31 = Ok (DaysOfMonth c) /\
    parseField fuel "*" 1 12 = Ok (Months c) /\
    parseField fuel "*" 0 6 = Ok (DaysOfWeek c) /\
    forall t,
      contains (Minutes c) (Minute t) = true /\
      contains (Hours c) (Hour t) = true /\
      contains (DaysOfMonth c) (Day t) = true /\
      contains (Months c) (Month t) = true /\
      contains (DaysOfWeek c) (Weekday t) = true /\
      Matches c t = true.
Proof.
  intros Hfuel.
  assert (Hfield : forall lo hi, int_min <= lo -> 0 <= hi - lo < 60 ->
            hi + 1 <= int_max ->
            parseField fuel "*" lo hi = Ok (progression lo hi 1)).
  { intros lo hi Hlo Hhi Hmax. unfold parseField.
    change (Split "*" ",") with ["*"]. cbn [parseParts].
    unfold parsePart. change (HasPrefix "*" "*/") with false.
    change (String.eqb "*" "*") with true. cbv iota.
    rewrite count_up_progression; try lia; [reflexivity|].
    rewrite Z.div_1_r. lia. }
  assert (Hmin : int_min <= 0 /\ int_min <= 1 /\ 60 <= int_max)
    by (vm_compute; repeat split; discriminate).
  destruct Hmin as (Hm0 & Hm1 & Hmx).
  exists (mkCronExpr (progression 0 59 1) (progression 0 23 1)
            (progression 1 31 1) (progression 1 12 1) (progression 0 6 1)).
  cbn [Minutes Hours DaysOfMonth Months DaysOfWeek].
  split.
  { unfold ParseCron.
    change (Fields "* * * * *") with ["*"; "*"; "*"; "*"; "*"].
    cbv iota. rewrite !Hfield by lia. reflexivity. }
  rewrite !Hfield by lia. repeat (split; [reflexivity|]).
  intros t.
  assert (Hmi : contains (progression 0 59 1) (Minute t) = true)
    by (apply contains_In, progression_interval, Minute_range).
  assert (Hho : contains (progression 0 23 1) (Hour t) = true)
    by (apply contains_In, progression_interval, Hour_range).
  assert (Hda : contains (progression 1 31 1) (Day t) = true)
    by (apply contains_In, progression_interval, Day_range).
  assert (Hmo : contains (progression 1 12 1) (Month t) = true)
    by (apply contains_In, progression_interval, Month_range).
  assert (Hwd : contains (progression 0 6 1) (Weekday t) = true)
    by (apply contains_In, progression_interval, Weekday_range).
  repeat (split; [assumption|]).
  unfold Matches. cbn [Minutes Hours DaysOfMonth Months DaysOfWeek].
  rewrite Hmi, Hho, Hda, Hmo, Hwd. reflexivity.
Qed.

Lemma star_fields_match_every_time_witness :
  exists c,
    ParseCron 61 "* * * * *" = Ok c /\
    Matches c (mkTime 1793592000 0) = true.
Proof.
  destruct (star_fields_match_every_time 61 ltac:(lia))
    as (c & Hc & _ & _ & _ & _ & _ & Hall).
  exists c. split; [exact Hc|]. apply Hall.
Defined.

End CronStars.
